(** * suite2p registration orchestrator: [suite2p/registration/main.py]

    A shallow embedding of [register_binary] and of the value, file and
    event model it runs on.  The configuration record [ops] is a Python
    dict, embedded as a [gmap string val]; exceptions are an explicit
    result type; the statements of the function are sequenced in a
    state-and-exception monad whose state holds the dict, the file
    system and the trace of outward effects (prints, collaborator calls,
    saved artifacts).

    Numeric arrays hold rationals: float32/float64 arithmetic is
    idealised to exact arithmetic, which is all the orchestrator relies
    on (it only adds arrays and divides them by integers). *)

From Stdlib Require Import ZArith QArith Qabs Qminmax List Ascii String.
From stdpp Require Import base option list gmap strings.

Local Open Scope string_scope.
Local Open Scope list_scope.
Local Open Scope Z_scope.

(** ** Python values stored in the configuration dict *)

Inductive val :=
| VNone
| VBool (b : bool)
| VInt (n : Z)
| VStr (s : string)
| VArr (a : list Q)                (* 1-D float array *)
| VArr2 (a : list (list Q))        (* 2-D float array, row major *)
| VBoolArr (a : list bool)         (* 1-D boolean array *)
| VStrList (l : list string)       (* list of strings, e.g. 'data_path' *)
| VIntList (l : list Z).           (* list of integers, e.g. 'nblocks' *)

Abbreviation dict := (gmap string val).

(** ** Exceptions *)

Inductive exn :=
| KeyError (k : string)
| TypeError
| ValueError
| IndexError
| ZeroDivisionError
| OSError (p : string)
| UnboundLocalError (x : string)
| Exception_ (msg : string)
| ConfigurationError               (* block grid incompatible with the frame *)
| DataIntegrityError               (* stream shorter than declared *)
| InvalidReference (r : nat).      (* a reference outside the heap *)

Inductive result (A : Type) :=
| Ok (a : A)
| Raise (e : exn).
Arguments Ok {A} a.
Arguments Raise {A} e.

(** ** Files, events and the session state *)

(** A file system entry: whether it is a regular file, its size in
    bytes, and the integers it decodes to (the unsigned 16-bit samples
    of a movie, or the index array of a [.npy] file). *)
Record node := Node {
  n_isfile : bool;
  n_size : Z;
  n_words : list Z
}.

Inductive message :=
| MsgRegistering (nframes : Z)
| MsgFewFrames
| MsgUserReference
| MsgReferenceDone
| MsgProgress (nfr nframes : Z)
| MsgSecondChannelDone
| MsgBadFramesPath (p : string)
| MsgBadFramesCount (n : Z)
| MsgCropDegenerate.

Inductive event :=
| Print (m : message)
| ComputeReference (file : string)       (* compute_reference_image ran *)
| PrepareMasks                           (* prepare_refAndMasks ran *)
| RegisterBatch (start count : Z)        (* a batch was correlated against the reference *)
| ShiftBatch (start count : Z)           (* a batch of the alternate channel was shifted *)
| SaveTiff (fname : string) (data : list (list Z))
| NpSave (p : val) (record : dict).      (* np.save(ops_path, ops) *)

Record session := Session {
  config : dict;
  disk : gmap string node;
  out : list event
}.

(** ** The state-and-exception monad *)

Definition M (S A : Type) : Type := S → result A * S.

Definition ret {S A} (a : A) : M S A := λ s, (Ok a, s).

Definition bind {S A B} (m : M S A) (f : A → M S B) : M S B :=
  λ s, match m s with
       | (Ok a, s') => f a s'
       | (Raise e, s') => (Raise e, s')
       end.

Definition raise {S A} (e : exn) : M S A := λ s, (Raise e, s).

Definition lift {S A} (r : result A) : M S A := λ s, (r, s).

#[global] Instance M_ret {S} : MRet (M S) := λ A, ret.
#[global] Instance M_bind {S} : MBind (M S) := λ A B f m, bind m f.

(** ** Dict access on the session's configuration *)

(* ops[k] *)
Definition getitem (k : string) : M session val :=
  λ s, match config s !! k with
       | Some v => (Ok v, s)
       | None => (Raise (KeyError k), s)
       end.

(* ops[k] = v *)
Definition setitem (k : string) (v : val) : M session unit :=
  λ s, (Ok tt, Session (<[k := v]> (config s)) (disk s) (out s)).

(* k in ops *)
Definition contains (k : string) : M session bool :=
  λ s, (Ok (bool_decide (is_Some (config s !! k))), s).

(* ops.get(k) *)
Definition dict_get (k : string) : M session val :=
  λ s, (Ok (default VNone (config s !! k)), s).

Definition emit (e : event) : M session unit :=
  λ s, (Ok tt, Session (config s) (disk s) (out s ++ [e])).

Definition print (m : message) : M session unit := emit (Print m).

(** ** Python operators on values *)

(* bool is a subtype of int *)
Definition as_int (v : val) : option Z :=
  match v with
  | VInt n => Some n
  | VBool b => Some (Z.b2z b)
  | _ => None
  end.

Definition int_of (v : val) : result Z :=
  match as_int v with
  | Some n => Ok n
  | None => Raise TypeError
  end.

Definition is_array (v : val) : bool :=
  match v with
  | VArr _ | VArr2 _ | VBoolArr _ => true
  | _ => false
  end.

Definition nonzero (q : Q) : bool := negb (Qnum q =? 0).

(* bool(v): the truth value tested by [if v], [v and ...], [not v] *)
Definition truthy (v : val) : result bool :=
  match v with
  | VNone => Ok false
  | VBool b => Ok b
  | VInt n => Ok (negb (n =? 0))
  | VStr s => Ok (negb (String.eqb s ""))
  | VStrList l => Ok (negb (bool_decide (l = [])))
  | VIntList l => Ok (negb (bool_decide (l = [])))
  | VArr a =>
      match a with
      | [] => Ok false
      | [q] => Ok (nonzero q)
      | _ => Raise ValueError
      end
  | VArr2 a =>
      match concat a with
      | [] => Ok false
      | [q] => Ok (nonzero q)
      | _ => Raise ValueError
      end
  | VBoolArr a =>
      match a with
      | [] => Ok false
      | [b] => Ok b
      | _ => Raise ValueError
      end
  end.

(* bool(a == b); a comparison with an array operand is elementwise and
   has no truth value, so it raises (one-element arrays are not given
   their special case) *)
Definition py_eq (a b : val) : result bool :=
  if is_array a || is_array b then Raise ValueError
  else match as_int a, as_int b with
       | Some x, Some y => Ok (x =? y)
       | _, _ =>
           match a, b with
           | VNone, VNone => Ok true
           | VStr s, VStr t => Ok (String.eqb s t)
           | VStrList l, VStrList l' => Ok (bool_decide (l = l'))
           | VIntList l, VIntList l' => Ok (bool_decide (l = l'))
           | _, _ => Ok false
           end
       end.

(* a < b and a > b on integers; anything else is a TypeError *)
Definition py_lt (a b : val) : result bool :=
  match as_int a, as_int b with
  | Some x, Some y => Ok (x <? y)
  | _, _ => Raise TypeError
  end.

(* min((a, b)) *)
Definition py_min (a b : val) : result val :=
  match as_int a, as_int b with
  | Some x, Some y => Ok (VInt (Z.min x y))
  | _, _ => Raise TypeError
  end.

(* int(a / b): true division, then truncation toward zero (the float
   quotient is exact for the file sizes met here, below 2^53) *)
Definition int_div (a b : Z) : result Z :=
  if b =? 0 then Raise ZeroDivisionError else Ok (Z.quot a b).

Definition str_of (v : val) : result string :=
  match v with
  | VStr s => Ok s
  | _ => Raise TypeError
  end.

#[global] Instance result_ret : MRet result := λ A, Ok.
#[global] Instance result_bind : MBind result :=
  λ A B f r, match r with Ok a => f a | Raise e => Raise e end.
#[global] Instance result_fmap : FMap result :=
  λ A B f r, match r with Ok a => Ok (f a) | Raise e => Raise e end.

Fixpoint collect {A} (rs : list (result A)) : result (list A) :=
  match rs with
  | [] => Ok []
  | r :: rs' => a ← r; l ← collect rs'; Ok (a :: l)
  end.

(** ** The part of numpy the orchestrator uses *)

Module np.

(* np.zeros((n,), np.float32) *)
Definition zeros (n : Z) : result (list Q) :=
  if n <? 0 then Raise ValueError
  else Ok (replicate (Z.to_nat n) 0%Q).

(* np.zeros((n, m), np.float32) *)
Definition zeros2 (n m : Z) : result (list (list Q)) :=
  if (n <? 0) || (m <? 0) then Raise ValueError
  else Ok (replicate (Z.to_nat n) (replicate (Z.to_nat m) 0%Q)).

(* np.zeros((n,), np.bool); np.bool is numpy's alias of the builtin bool *)
Definition zeros_bool (n : Z) : result (list bool) :=
  if n <? 0 then Raise ValueError
  else Ok (replicate (Z.to_nat n) false).

(* a += b for 1-D operands: equal lengths, or b of length one is
   broadcast; the left operand keeps its shape *)
Definition iadd1 (a b : list Q) : result (list Q) :=
  if Nat.eqb (length b) (length a) then Ok (zip_with Qplus a b)
  else match b with
       | [q] => Ok (map (λ x, Qplus x q) a)
       | _ => Raise ValueError
       end.

(* a += b for 2-D operands, broadcasting along either axis of b *)
Definition iadd2 (a b : list (list Q)) : result (list (list Q)) :=
  if Nat.eqb (length b) (length a) then collect (zip_with iadd1 a b)
  else match b with
       | [rb] => collect (map (λ ra, iadd1 ra rb) a)
       | _ => Raise ValueError
       end.

(* ops[k] += b, with b an array.  An integer on the left is broadcast
   and rebound to a new array; a Python list on the left would be
   extended by the elements of b, which the value universe has no
   constructor for, so every other left operand raises. *)
Definition iadd (a b : val) : result val :=
  match a, b with
  | VArr x, VArr y => VArr <$> iadd1 x y
  | VArr2 x, VArr2 y => VArr2 <$> iadd2 x y
  | VArr2 x, VArr y => VArr2 <$> collect (map (λ ra, iadd1 ra y) x)
  | VArr _, VArr2 _ => Raise ValueError
  | VInt n, VArr y => Ok (VArr (map (Qplus (inject_Z n)) y))
  | VBool c, VArr y => Ok (VArr (map (Qplus (inject_Z (Z.b2z c))) y))
  | VInt n, VArr2 y => Ok (VArr2 (map (map (Qplus (inject_Z n))) y))
  | VBool c, VArr2 y => Ok (VArr2 (map (map (Qplus (inject_Z (Z.b2z c)))) y))
  | _, _ => Raise TypeError
  end.

(* img / n, elementwise *)
Definition divide (img : list Q) (n : Z) : list Q :=
  map (λ x, (x / inject_Z n)%Q) img.

(* position addressed by index i in an array of length n: negative
   indices count from the end *)
Definition index (n : nat) (i : Z) : option nat :=
  if (0 <=? i) && (i <? Z.of_nat n) then Some (Z.to_nat i)
  else if (- Z.of_nat n <=? i) && (i <? 0) then Some (Z.to_nat (i + Z.of_nat n))
  else None.

(* mask[idx] = True *)
Definition put_true (mask : list bool) (idx : list Z) : result (list bool) :=
  match mapM (index (length mask)) idx with
  | Some js => Ok (foldl (λ m j, <[j := true]> m) mask js)
  | None => Raise IndexError
  end.

(* mask.sum() *)
Definition count_true (mask : list bool) : Z :=
  Z.of_nat (length (filter (λ b, b = true) mask)).

(* np.load(p) followed by .flatten().astype(int) *)
Definition load (p : string) : M session (list Z) :=
  λ s, match disk s !! p with
       | Some f => (Ok (n_words f), s)
       | None => (Raise (OSError p), s)
       end.

(* np.save(p, ops) *)
Definition save (p : val) : M session unit :=
  λ s, (Ok tt, Session (config s) (disk s) (out s ++ [NpSave p (config s)])).

End np.

(** ** The part of os.path the orchestrator uses *)

Module path.

Definition getsize (p : string) : M session Z :=
  λ s, match disk s !! p with
       | Some f => (Ok (n_size f), s)
       | None => (Raise (OSError p), s)
       end.

Definition exists_ (p : string) : M session bool :=
  λ s, (Ok (bool_decide (is_Some (disk s !! p))), s).

Definition isfile (p : string) : M session bool :=
  λ s, (Ok (default false (n_isfile <$> disk s !! p)), s).

Definition ends_with_slash (a : string) : bool :=
  match last (String.list_ascii_of_string a) with
  | Some c => Ascii.eqb c "/"%char
  | None => false
  end.

(* posixpath.join(a, b) for a relative b *)
Definition join (a b : string) : string :=
  if String.eqb a "" || ends_with_slash a then a +:+ b
  else a +:+ "/" +:+ b.

End path.

(* len(v) *)
Definition py_len (v : val) : result Z :=
  match v with
  | VStr s => Ok (Z.of_nat (String.length s))
  | VArr a => Ok (Z.of_nat (length a))
  | VArr2 a => Ok (Z.of_nat (length a))
  | VBoolArr a => Ok (Z.of_nat (length a))
  | VStrList l => Ok (Z.of_nat (length l))
  | VIntList l => Ok (Z.of_nat (length l))
  | _ => Raise TypeError
  end.

(* v[0], as the directory argument of path.join *)
Definition first_path (v : val) : result string :=
  match v with
  | VStrList (p :: _) => Ok p
  | VStr (String c _) => Ok (String c EmptyString)
  | VStrList [] | VStr EmptyString => Raise IndexError
  | _ => Raise TypeError
  end.

(* v[i], as an integer factor *)
Definition int_at (v : val) (i : nat) : result Z :=
  match v with
  | VIntList l =>
      match l !! i with
      | Some n => Ok n
      | None => Raise IndexError
      end
  | _ => Raise TypeError
  end.

(** ** Collaborators outside [main.py]

    [main.py] imports its collaborators from [register.py],
    [nonrigid.py] and [io], none of which is part of the sources at
    hand.  Their numerical kernels (correlation, warping, block layout,
    stream selection) are parameters, collected in [kernels]; what they
    do to the configuration, the files and the trace is modelled from
    the specification in the definitions below. *)

(** The displacement estimated for one frame. *)
Record shifts := Shifts {
  s_yoff : Q;
  s_xoff : Q;
  s_corr : Q;
  s_yoff1 : list Q;
  s_xoff1 : list Q;
  s_corr1 : list Q
}.

(** The streams chosen for a run: the registered (output) stream of the
    alignment channel, and the optional registered stream of the
    alternate channel and raw streams of both. *)
Record streams := Streams {
  reg_file_align : string;
  reg_file_alt : option string;
  raw_file_align : option string;
  raw_file_alt : option string
}.

(** What the shift replicator is told about the session. *)
Record shift_params := ShiftParams {
  is_nonrigid : val;
  bidiphase_value : val;
  bidi_corrected : val;
  nblocks : val;
  xblock : val;
  yblock : val
}.

Record kernels := Kernels {
  (* block counts [ny; nx] and the block bounds along y and x, or
     nothing when the blocks would be too small to correlate *)
  block_grid : dict → option (list Z * val * val);
  (* which physical streams serve the two channels *)
  select_streams : dict → bool → result streams;
  (* reference image and bidiphase from the samples of a stream *)
  reference_of : dict → list Z → val * val;
  (* tapers and transforms of the reference *)
  masks_of : val → dict → val;
  (* displacement of one frame and the frame corrected by it *)
  register_frame : val → dict → list Z → shifts * list Z;
  (* one alternate-channel frame, by index, warped by the known shifts *)
  shift_frame : shift_params → list val → Z → list Z → list Z;
  (* io.generate_tiff_filename *)
  tiff_filename : val → val → val → nat → bool → string;
  (* path.abspath, which depends on the working directory *)
  abspath : string → string;
  (* the least number of rows and columns of a usable crop *)
  crop_min : Z
}.

(** *** Streams of frames *)

Fixpoint frames_of (px count : nat) (ws : list Z) : list (list Z) :=
  match count with
  | O => []
  | S c => take px ws :: frames_of px c (drop px ws)
  end.

(* read [count] frames of [px] samples, starting at frame [start] *)
Definition read_frames (p : string) (px start count : Z) : M session (list (list Z)) :=
  λ s, match disk s !! p with
       | None => (Raise (OSError p), s)
       | Some f =>
           let ws := drop (Z.to_nat (start * px)) (n_words f) in
           if Z.of_nat (length ws) <? count * px then (Raise DataIntegrityError, s)
           else (Ok (frames_of (Z.to_nat px) (Z.to_nat count) ws), s)
       end.

Definition splice (ws : list Z) (pos : nat) (new : list Z) : list Z :=
  take pos ws ++ replicate (pos - length ws)%nat 0 ++ new ++ drop (pos + length new)%nat ws.

(* write frames back at the indices they were read from *)
Definition write_frames (p : string) (px start : Z) (frames : list (list Z)) : M session unit :=
  λ s, let old := default (Node true 0 []) (disk s !! p) in
       let ws := splice (n_words old) (Z.to_nat (start * px)) (concat frames) in
       let f := Node true (Z.max (n_size old) (2 * Z.of_nat (length ws))) ws in
       (Ok tt, Session (config s) (<[p := f]> (disk s)) (out s)).

(* the batches [(start, count)] that cover frames [start, stop) in
   steps of [nbatch]; the last one may be shorter, and a batch size
   that is not positive reads nothing *)
Fixpoint batch_ranges (fuel : nat) (nbatch start stop : Z) : list (Z * Z) :=
  match fuel with
  | O => []
  | S fuel' =>
      if (start <? stop) && (0 <? nbatch) then
        let n := Z.min nbatch (stop - start) in
        (start, n) :: batch_ranges fuel' nbatch (start + n) stop
      else []
  end.

Definition img_add (img : list Q) (frame : list Z) : list Q :=
  zip_with Qplus img (map inject_Z frame).

(** *** Generators and the [for] loop over them *)

(** A generator that yields once per batch: the batches it will go
    through, its local state, and the step that produces a yield. *)
Record generator (St B Y : Type) := Generator {
  g_batches : list B;
  g_init : St;
  g_next : St → B → M session (Y * St)
}.
Arguments Generator {St B Y} _ _ _.
Arguments g_batches {St B Y} _.
Arguments g_init {St B Y} _.
Arguments g_next {St B Y} _ _ _.

(* the loop over [enumerate(gen)] from index [k] on; it returns the last
   index and yield bound by the loop, which Python leaves in the loop
   variables *)
Fixpoint for_from {St B Y} (next : St → B → M session (Y * St))
    (body : nat → Y → M session unit) (bs : list B) (k : nat) (st : St)
    (bound : option (nat * Y)) : M session (option (nat * Y)) :=
  match bs with
  | [] => mret bound
  | b :: bs' =>
      '(y, st') ← next st b;
      body k y;;
      for_from next body bs' (S k) st' (Some (k, y))
  end.

(* for k, y in enumerate(gen): body *)
Definition for_enumerate {St B Y} (gen : generator St B Y)
    (body : nat → Y → M session unit) : M session (option (nat * Y)) :=
  for_from (g_next gen) body (g_batches gen) 0%nat (g_init gen) None.

Definition gets {A} (f : session → A) : M session A := λ s, (Ok (f s), s).

(* the truth value of ops[k] *)
Definition test (k : string) : M session bool :=
  v ← getitem k; lift (truthy v).

(* ops[k] as an integer *)
Definition getint (k : string) : M session Z :=
  v ← getitem k; lift (int_of v).

Module nonrigid.

(** Modelled from the spec: [nonrigid.make_blocks] is missing from the
    sources.  Section 4.1: from the frame size and the block hints it
    derives the block grid, and fails with a configuration error when
    the blocks would be smaller than the minimal correlation window.
    The grid is recorded in the configuration, which is updated in
    place and returned. *)
Definition make_blocks (K : kernels) : M session unit :=
  cfg ← gets config;
  match block_grid K cfg with
  | None => raise ConfigurationError
  | Some (nb, yb, xb) =>
      setitem "nblocks" (VIntList nb);;
      setitem "yblock" yb;;
      setitem "xblock" xb
  end.

End nonrigid.

Module io.

(** Modelled from the spec: [io.generate_tiff_filename] is missing from
    the sources.  Section 6: the file name of a preview stack is keyed
    by channel, alignment role and batch index. *)
Definition generate_tiff_filename (K : kernels) (functional_chan align_by_chan save_path : val)
    (k : nat) (ichan : bool) : string :=
  tiff_filename K functional_chan align_by_chan save_path k ichan.

(** Modelled from the spec: [io.save_tiff] is missing from the sources.
    Section 6: the corrected frames of a batch are handed to an
    external writer of image stacks. *)
Definition save_tiff (data : list (list Z)) (fname : string) : M session unit :=
  emit (SaveTiff fname data).

End io.

(** Modelled from the spec: [bin_paths] is missing from the sources.
    Section 4.8: it resolves which physical streams serve as the
    alignment and the alternate channel, preferring the raw stream when
    it is available and requested. *)
Definition bin_paths (K : kernels) (raw : bool) : M session streams :=
  cfg ← gets config; lift (select_streams K cfg raw).

(** Modelled from the spec: [compute_reference_image] is missing from
    the sources.  Section 4.3: from a sample of the primary-channel
    stream it builds the reference image and estimates the bidiphase
    on it; it returns both and changes nothing. *)
Definition compute_reference_image (K : kernels) (file : option string) : M session (val * val) :=
  match file with
  | None => raise TypeError
  | Some p =>
      λ s, match disk s !! p with
           | None => (Raise (OSError p), s)
           | Some f =>
               (Ok (reference_of K (config s) (n_words f)),
                Session (config s) (disk s) (out s ++ [ComputeReference p]))
           end
  end.

(** Modelled from the spec: [prepare_refAndMasks] is missing from the
    sources.  Section 4.4: it precomputes, once, the tapers and the
    frequency-domain transforms of the reference; the result is
    immutable. *)
Definition prepare_refAndMasks (K : kernels) (refImg : val) : M session val :=
  cfg ← gets config;
  emit PrepareMasks;;
  mret (masks_of K refImg cfg).

(** The local state of the registration engine between two batches. *)
Record engine_state := EngineState {
  e_yoff : list Q;
  e_xoff : list Q;
  e_corr : list Q;
  e_yoff1 : list (list Q);
  e_xoff1 : list (list Q);
  e_corr1 : list (list Q);
  e_sum : list Q;
  e_nfr : Z
}.

(** What the engine yields after a batch (next to the configuration,
    which is the session's own): the displacement arrays of the frames
    processed so far, the running sum image, the corrected frames of the
    batch and the cumulative frame count. *)
Record batch_yield := BatchYield {
  y_offsets : list val;
  y_sum_img : list Q;
  y_data : list (list Z);
  y_nfr : Z
}.

Definition offsets_of (nonrigid : bool) (st : engine_state) : list val :=
  [VArr (e_yoff st); VArr (e_xoff st); VArr (e_corr st)] ++
  (if nonrigid then [VArr2 (e_yoff1 st); VArr2 (e_xoff1 st); VArr2 (e_corr1 st)] else []).

Definition engine_record (st : engine_state) (regd : list (shifts * list Z)) : engine_state :=
  EngineState
    (e_yoff st ++ map (s_yoff ∘ fst) regd)
    (e_xoff st ++ map (s_xoff ∘ fst) regd)
    (e_corr st ++ map (s_corr ∘ fst) regd)
    (e_yoff1 st ++ map (s_yoff1 ∘ fst) regd)
    (e_xoff1 st ++ map (s_xoff1 ∘ fst) regd)
    (e_corr1 st ++ map (s_corr1 ∘ fst) regd)
    (foldl img_add (e_sum st) (map snd regd))
    (e_nfr st + Z.of_nat (length regd)).

Definition engine_init (px : Z) : engine_state :=
  EngineState [] [] [] [] [] [] (replicate (Z.to_nat px) 0%Q) 0.

Definition engine_step (K : kernels) (px : Z) (refAndMasks : val)
    (reg : string) (raw : option string)
    (st : engine_state) (b : Z * Z) : M session (batch_yield * engine_state) :=
  nonrigid ← test "nonrigid";
  frames ← read_frames (default reg raw) px (fst b) (snd b);
  cfg ← gets config;
  let regd := map (register_frame K refAndMasks cfg) frames in
  write_frames reg px (fst b) (map snd regd);;
  emit (RegisterBatch (fst b) (snd b));;
  let st' := engine_record st regd in
  mret (BatchYield (offsets_of nonrigid st') (e_sum st') (map snd regd) (e_nfr st'), st').

(** Modelled from the spec: [register_binary_to_ref] is missing from the
    sources.  Section 4.5: the engine streams [nframes] frames in
    batches of [nbatch] (the last may be shorter), from the raw stream
    when there is one and else from the registered stream; it aligns
    each frame to the reference, writes the corrected frame back at the
    index it was read from, adds it to the running sum image, and after
    each batch yields the configuration, the displacement arrays of the
    frames processed so far in frame order, the running sum image, the
    corrected frames of the batch and the cumulative frame count.  A
    stream shorter than the declared frame count is a data-integrity
    error. *)
Definition register_binary_to_ref (K : kernels) (nbatch Ly Lx nframes : Z)
    (refAndMasks : val) (reg_file_align : string) (raw_file_align : option string)
    : generator engine_state (Z * Z) batch_yield :=
  Generator
    (batch_ranges (Z.to_nat nframes) nbatch 0 nframes)
    (engine_init (Ly * Lx))
    (engine_step K (Ly * Lx) refAndMasks reg_file_align raw_file_align).

Definition replicator_step (K : kernels) (px : Z) (params : shift_params)
    (offsets : list val) (reg raw : option string)
    (st : list Q * Z) (b : Z * Z) : M session ((list Q * list (list Z)) * (list Q * Z)) :=
  match reg with
  | None => raise TypeError
  | Some out_file =>
      frames ← read_frames (default out_file raw) px (fst b) (snd b);
      let data := imap (λ i f, shift_frame K params offsets (fst b + Z.of_nat i) f) frames in
      write_frames out_file px (fst b) data;;
      emit (ShiftBatch (fst b) (snd b));;
      let sum_img := foldl img_add (fst st) data in
      let nfr := snd st + Z.of_nat (length data) in
      mret ((np.divide sum_img nfr, data), (sum_img, nfr))
  end.

(** Modelled from the spec: [apply_shifts_to_binary] is missing from the
    sources.  Section 4.6: the replicator re-streams the alternate
    channel in batches, applies to each frame the shifts already known
    for its index (no new correlation), writes the corrected frame back
    and accumulates its own running sum image; per batch it yields the
    running mean so far and the corrected frames of the batch. *)
Definition apply_shifts_to_binary (K : kernels) (batch_size Ly Lx nframes : Z)
    (params : shift_params) (offsets : list val)
    (reg_file_alt raw_file_alt : option string)
    : generator (list Q * Z) (Z * Z) (list Q * list (list Z)) :=
  Generator
    (batch_ranges (Z.to_nat nframes) batch_size 0 nframes)
    (replicate (Z.to_nat (Ly * Lx)) 0%Q, 0)
    (replicator_step K (Ly * Lx) params offsets reg_file_alt raw_file_alt).

Definition max_abs (l : list Q) : Q := foldr (λ x m, Qmax (Qabs x) m) 0%Q l.

Definition arr1_of (v : val) : result (list Q) :=
  match v with
  | VArr a => Ok a
  | _ => Raise TypeError
  end.

Definition arr2_of (v : val) : result (list (list Q)) :=
  match v with
  | VArr2 a => Ok a
  | _ => Raise TypeError
  end.

Definition getarr1 (k : string) : M session (list Q) :=
  v ← getitem k; lift (arr1_of v).

Definition getarr2 (k : string) : M session (list (list Q)) :=
  v ← getitem k; lift (arr2_of v).

(** Modelled from the spec: [compute_crop] is missing from the sources.
    Section 4.7: from the full displacement history it takes, per axis,
    the largest absolute shift over all frames and blocks, and excludes
    a border of that width on each side: [y_lo = max_shift_y],
    [y_hi = Ly - max_shift_y], and the same along x.  A region with
    fewer than [crop_min] rows or columns is reported, not fatal.  The
    rectangle is recorded in the configuration as a row range and a
    column range. *)
Definition compute_crop (K : kernels) : M session unit :=
  yoff ← getarr1 "yoff";
  xoff ← getarr1 "xoff";
  nonrigid ← test "nonrigid";
  yoff1 ← (if nonrigid : bool then getarr2 "yoff1" else ret []);
  xoff1 ← (if nonrigid : bool then getarr2 "xoff1" else ret []);
  Ly ← getint "Ly";
  Lx ← getint "Lx";
  let my := max_abs (yoff ++ concat yoff1) in
  let mx := max_abs (xoff ++ concat xoff1) in
  let y_lo := my in
  let y_hi := (inject_Z Ly - my)%Q in
  let x_lo := mx in
  let x_hi := (inject_Z Lx - mx)%Q in
  (if Qle_bool (inject_Z (crop_min K)) (y_hi - y_lo) && Qle_bool (inject_Z (crop_min K)) (x_hi - x_lo)
   then ret tt else print MsgCropDegenerate);;
  setitem "yrange" (VArr [y_lo; y_hi]);;
  setitem "xrange" (VArr [x_lo; x_hi]).

(** ** [register_binary] on one configuration dict

    The body of [register_binary] below its list case, cut into the
    steps its comments name.  The session's [config] is the dict the
    Python variable [ops] refers to: every collaborator updates it in
    place and returns it, so rebinding [ops] to a collaborator's result
    leaves it on the same object. *)

(* make blocks for nonrigid (lines 42-44) *)
Definition make_blocks_step (K : kernels) : M session unit :=
  nr ← test "nonrigid";
  if nr : bool then nonrigid.make_blocks K else ret tt.

(* ops['raw_file'] if ops.get('keep_movie_raw') and path.exists(ops['raw_file'])
   else ops['reg_file'] (line 49) *)
Definition source_path : M session string :=
  keep ← dict_get "keep_movie_raw";
  keep ← lift (truthy keep);
  use_raw ← (if keep : bool
             then p ← getitem "raw_file"; p ← lift (str_of p); path.exists_ p
             else ret false);
  file ← getitem (if use_raw : bool then "raw_file" else "reg_file");
  lift (str_of file).

(* the frame count, from the cap or from the size of the file (lines 46-50) *)
Definition resolve_nframes : M session unit :=
  fi ← getitem "frames_include";
  uncapped ← lift (py_eq fi (VInt (-1)));
  if negb uncapped then
    n ← getitem "nframes";
    fi ← getitem "frames_include";
    m ← lift (py_min n fi);
    setitem "nframes" m
  else
    file ← source_path;
    nbytes ← path.getsize file;
    Ly ← getint "Ly";
    Lx ← getint "Lx";
    n ← lift (int_div nbytes (2 * Ly * Lx));
    setitem "nframes" (VInt n).

(* check number of frames and print warnings (lines 52-57) *)
Definition check_nframes : M session unit :=
  n ← getint "nframes";
  print (MsgRegistering n);;
  n ← getitem "nframes";
  few ← lift (py_lt n (VInt 50));
  if few : bool
  then raise (Exception_ "ERROR: the total number of frames should be at least 50 ")
  else
    n ← getitem "nframes";
    warn ← lift (py_lt n (VInt 200));
    if warn : bool then print MsgFewFrames else ret tt.

(* get binary file paths: is the raw stream there to be used? (lines 60-62) *)
Definition resolve_raw (raw : bool) : M session bool :=
  if raw then
    has_keep ← contains "keep_movie_raw";
    if has_keep : bool then
      keep ← test "keep_movie_raw";
      if keep : bool then
        has_file ← contains "raw_file";
        if has_file : bool then
          p ← getitem "raw_file"; p ← lift (str_of p); path.isfile p
        else ret false
      else ret false
    else ret false
  else ret false.

(* compute reference image (lines 66-76) *)
Definition reference_step (K : kernels) (refImg : val) (raw : bool) (paths : streams)
    : M session val :=
  refImg ← match refImg with
           | VNone =>
               rb ← (if raw
                     then compute_reference_image K (raw_file_align paths)
                     else compute_reference_image K (Some (reg_file_align paths)));
               setitem "bidiphase" (snd rb);;
               print MsgReferenceDone;;
               ret (fst rb)
           | _ =>
               print MsgUserReference;;
               ret refImg
           end;
  setitem "refImg" refImg;;
  ret refImg.

(* the body of the loop over the engine's batches (lines 92-102) *)
Definition register_body (K : kernels) (k : nat) (y : batch_yield) : M session unit :=
  tif ← test "reg_tif";
  (if tif : bool then
     fc ← getitem "functional_chan";
     ac ← getitem "align_by_chan";
     sp ← getitem "save_path";
     io.save_tiff (y_data y) (io.generate_tiff_filename K fc ac sp k true)
   else ret tt);;
  if (k mod 5 =? 0)%nat then
    n ← getint "nframes";
    print (MsgProgress (y_nfr y) n)
  else ret tt.

(* register binary to reference image (lines 79-102) *)
Definition register_step (K : kernels) (refImg : val) (paths : streams)
    : M session (option (nat * batch_yield)) :=
  refAndMasks ← prepare_refAndMasks K refImg;
  nbatch ← getint "batch_size";
  Ly ← getint "Ly";
  Lx ← getint "Lx";
  nframes ← getint "nframes";
  for_enumerate
    (register_binary_to_ref K nbatch Ly Lx nframes refAndMasks
       (reg_file_align paths) (raw_file_align paths))
    (register_body K).

(* 'meanImg' if ops['nchannels'] == 1 or
   ops['functional_chan'] == ops['align_by_chan'] else 'meanImage_chan2' *)
Definition mean_img_key : M session string :=
  nch ← getitem "nchannels";
  single ← lift (py_eq nch (VInt 1));
  same ← (if single : bool then ret true
          else fc ← getitem "functional_chan";
               ac ← getitem "align_by_chan";
               lift (py_eq fc ac));
  ret (if same : bool then "meanImg" else "meanImage_chan2").

(* mean image across all frames (lines 104-107); the loop variables are
   unbound when the engine yielded nothing *)
Definition mean_image_step (bound : option (nat * batch_yield)) : M session (list Q) :=
  match bound with
  | None => raise (UnboundLocalError "sum_img")
  | Some (_, y) =>
      n ← getint "nframes";
      let mean_img := np.divide (y_sum_img y) n in
      key ← mean_img_key;
      setitem key (VArr mean_img);;
      ret mean_img
  end.

(* the body of the loop over the replicator's batches (lines 127-136) *)
Definition shift_body (K : kernels) (k : nat) (y : list Q * list (list Z)) : M session unit :=
  tif ← test "reg_tif_chan2";
  if tif : bool then
    fc ← getitem "functional_chan";
    ac ← getitem "align_by_chan";
    sp ← getitem "save_path";
    io.save_tiff (snd y) (io.generate_tiff_filename K fc ac sp k false)
  else ret tt.

(* 'meanImag' if ops['functional_chan'] != ops['align_by_chan'] else 'meanImg_chan2' *)
Definition meanImg_key : M session string :=
  fc ← getitem "functional_chan";
  ac ← getitem "align_by_chan";
  same ← lift (py_eq fc ac);
  ret (if same : bool then "meanImg_chan2" else "meanImag").

(* the loop over the replicator's batches (lines 110-136); [k] and
   [mean_img] are the variables left by the first loop and by line 105,
   which the second loop rebinds at every yield *)
Definition alternate_loop (K : kernels) (paths : streams) (offsets : list val)
    (k : nat) (mean_img : list Q) : M session (nat * list Q) :=
  batch_size ← getint "batch_size";
  Ly ← getint "Ly";
  Lx ← getint "Lx";
  nframes ← getint "nframes";
  nr ← getitem "nonrigid";
  bp ← getitem "bidiphase";
  bc ← getitem "bidi_corrected";
  nb ← getitem "nblocks";
  xb ← getitem "xblock";
  yb ← getitem "yblock";
  bound ← for_enumerate
    (apply_shifts_to_binary K batch_size Ly Lx nframes
       (ShiftParams nr bp bc nb xb yb) offsets
       (reg_file_alt paths) (raw_file_alt paths))
    (shift_body K);
  ret (match bound with Some (k', _) => k' | None => k end,
       match bound with Some (_, y) => fst y | None => mean_img end).

(* the alternate channel (lines 109-140) *)
Definition second_channel_step (K : kernels) (paths : streams) (offsets : list val)
    (k : nat) (mean_img : list Q) : M session unit :=
  nch ← getitem "nchannels";
  multi ← lift (py_lt (VInt 1) nch);
  if multi : bool then
    km ← alternate_loop K paths offsets k mean_img;
    print MsgSecondChannelDone;;
    key ← meanImg_key;
    setitem key (VArr (np.divide (snd km) (Z.of_nat (fst km) + 1)))
  else ret tt.

(* ops[key] += offsets[i] *)
Definition iadd_item (key : string) (offsets : list val) (i : nat) : M session unit :=
  a ← getitem key;
  b ← lift (match offsets !! i with Some b => Ok b | None => Raise IndexError end);
  v ← lift (np.iadd a b);
  setitem key v.

(* ops[key] = np.zeros((ops['nframes'],), np.float32) *)
Definition init_history (key : string) : M session unit :=
  nframes ← getint "nframes";
  z ← lift (np.zeros nframes);
  setitem key (VArr z).

(* ops[key] = np.zeros((nframes, nb), np.float32) *)
Definition init_history2 (key : string) (nb : Z) : M session unit :=
  nframes ← getint "nframes";
  z ← lift (np.zeros2 nframes nb);
  setitem key (VArr2 z).

(* the arrays of the displacement history, created when the
   configuration has none (lines 142-151) *)
Definition history_init : M session unit :=
  has ← contains "yoff";
  if negb has then
    init_history "yoff";;
    init_history "xoff";;
    init_history "corrXY";;
    nr ← test "nonrigid";
    if nr : bool then
      nbl ← getitem "nblocks";
      n0 ← lift (int_at nbl 0);
      n1 ← lift (int_at nbl 1);
      init_history2 "yoff1" (n0 * n1);;
      init_history2 "xoff1" (n0 * n1);;
      init_history2 "corrXY1" (n0 * n1)
    else ret tt
  else ret tt.

(* the displacement history (lines 142-159) *)
Definition offset_history_step (offsets : list val) : M session unit :=
  history_init;;
  iadd_item "yoff" offsets 0;;
  iadd_item "xoff" offsets 1;;
  iadd_item "corrXY" offsets 2;;
  nr ← test "nonrigid";
  if nr : bool then
    iadd_item "yoff1" offsets 3;;
    iadd_item "xoff1" offsets 4;;
    iadd_item "corrXY1" offsets 5
  else ret tt.

Definition mask_of (v : val) : result (list bool) :=
  match v with
  | VBoolArr m => Ok m
  | _ => Raise TypeError
  end.

(* the bad-frame mask (lines 161-171) *)
Definition bad_frames_step (K : kernels) : M session unit :=
  nframes ← getint "nframes";
  z ← lift (np.zeros_bool nframes);
  setitem "badframes" (VBoolArr z);;
  has ← contains "data_path";
  given ← (if has : bool
           then dp ← getitem "data_path"; n ← lift (py_len dp); ret (0 <? n)
           else ret false);
  if given : bool then
    dp ← getitem "data_path";
    d ← lift (first_path dp);
    let badfrfile := abspath K (path.join d "bad_frames.npy") in
    print (MsgBadFramesPath badfrfile);;
    isf ← path.isfile badfrfile;
    if isf : bool then
      badframes ← np.load badfrfile;
      mask ← getitem "badframes";
      mask ← lift (mask_of mask);
      mask ← lift (np.put_true mask badframes);
      setitem "badframes" (VBoolArr mask);;
      mask ← getitem "badframes";
      mask ← lift (mask_of mask);
      print (MsgBadFramesCount (np.count_true mask))
    else ret tt
  else ret tt.

(* lines 176-180 *)
Definition finish_step (raw : bool) : M session unit :=
  (if negb raw then setitem "bidi_corrected" (VBool true) else ret tt);;
  has ← contains "ops_path";
  if has : bool then p ← getitem "ops_path"; np.save p else ret tt.

(* what the first loop leaves in its variables [k] and [offsets] *)
Definition bound_k (bound : option (nat * batch_yield)) : nat :=
  match bound with Some (k, _) => k | None => 0%nat end.

Definition bound_offsets (bound : option (nat * batch_yield)) : list val :=
  match bound with Some (_, y) => y_offsets y | None => [] end.

(** [register_binary(ops, refImg, raw)] for [ops] a dict (lines 42-181) *)
Definition register_dict (K : kernels) (refImg : val) (raw : bool) : M session unit :=
  make_blocks_step K;;
  resolve_nframes;;
  check_nframes;;
  raw ← resolve_raw raw;
  paths ← bin_paths K raw;
  refImg ← reference_step K refImg raw paths;
  bound ← register_step K refImg paths;
  mean_img ← mean_image_step bound;
  second_channel_step K paths (bound_offsets bound) (bound_k bound) mean_img;;
  offset_history_step (bound_offsets bound);;
  bad_frames_step K;;
  compute_crop K;;
  finish_step raw.

(** ** [register_binary] on a dict or on a list of dicts

    A list holds references to dicts that live in a heap; the call on a
    dict runs on the dict its reference points to and leaves the result
    there, whether the run returns or raises. *)

Inductive container := PyList | NdArray.

#[warnings="-register-all"]
Inductive pyobj :=
| Dict (r : nat)
| Seq (c : container) (id : nat) (items : list pyobj).

Record world := World {
  heap : gmap nat dict;
  w_disk : gmap string node;
  w_out : list event
}.

Definition on_dict {A} (r : nat) (m : M session A) : M world A :=
  λ w, match heap w !! r with
       | None => (Raise (InvalidReference r), w)
       | Some d =>
           let rs := m (Session d (w_disk w) (w_out w)) in
           (fst rs, World (<[r := config (snd rs)]> (heap w)) (disk (snd rs)) (out (snd rs)))
       end.

(* for op in items: op = f(op) *)
Fixpoint for_each {S A B} (f : A → M S B) (items : list A) : M S unit :=
  match items with
  | [] => ret tt
  | op :: items' => f op;; for_each f items'
  end.

Fixpoint register_binary (K : kernels) (ops : pyobj) (refImg : val) (raw : bool)
    : M world pyobj :=
  match ops with
  | Seq _ _ items =>
      (fix each (l : list pyobj) : M world unit :=
         match l with
         | [] => ret tt
         | op :: l' => register_binary K op VNone true;; each l'
         end) items;;
      ret ops
  | Dict r =>
      on_dict r (register_dict K refImg raw);;
      ret ops
  end.

(** [register_binary] on a dict up to the end of its first loop (lines
    42-102): what the loop leaves in its variables [k] and
    [(ops, offsets, sum_img, data, nfr)]. *)
Definition first_loop (K : kernels) (refImg : val) (raw : bool)
    : M session (option (nat * batch_yield)) :=
  make_blocks_step K;;
  resolve_nframes;;
  check_nframes;;
  raw ← resolve_raw raw;
  paths ← bin_paths K raw;
  refImg ← reference_step K refImg raw paths;
  register_step K refImg paths.

(** ** Sample collaborators and sessions *)

(** Kernels for running the model: the estimated displacement of a frame
    is read off its first sample, frames are left as they are, and the
    alternate channel is copied through. *)
Definition probe_kernels : kernels :=
  Kernels
    (λ _, Some ([2; 2], VIntList [0; 1], VIntList [0; 1]))
    (λ d raw,
       Ok (Streams "data.bin" (Some "data_chan2.bin")
             (if raw then Some "data_raw.bin" else None)
             (if raw then Some "data_chan2_raw.bin" else None)))
    (λ _ ws, (VArr (map inject_Z (take 1 ws)), VInt 0))
    (λ refImg _, refImg)
    (λ _ _ f,
       let q := inject_Z (default 0 (head f)) in
       (Shifts q (- q)%Q 1%Q [q; q; q; q] [q; q; q; q] [1%Q; 1%Q; 1%Q; 1%Q], f))
    (λ _ _ _ f, f)
    (λ _ _ _ k ichan, if ichan then "chan1.tif" else "chan2.tif")
    (λ p, "/" +:+ p)
    1.

(* a movie of one-pixel frames whose samples count up from [from] *)
Definition ramp (from : Z) (n : nat) : list Z := map (λ i, from + Z.of_nat i) (seq 0 n).

Definition movie (ws : list Z) : node := Node true (2 * Z.of_nat (length ws)) ws.

Definition base_config : dict :=
  list_to_map
    [("nonrigid", VBool false); ("frames_include", VInt (-1));
     ("reg_file", VStr "data.bin"); ("Ly", VInt 1); ("Lx", VInt 1);
     ("batch_size", VInt 20); ("reg_tif", VBool false);
     ("nchannels", VInt 1); ("functional_chan", VInt 1); ("align_by_chan", VInt 1)].

Definition base_disk : gmap string node :=
  list_to_map [("data.bin", movie (ramp 0 50))].

Definition base_session : session := Session base_config base_disk [].

(** ** Relations between the state before and after a computation *)

(** [m] relates every state it starts in to the state it ends in,
    whether it returns or raises. *)
Definition preserves {S A} (R : S → S → Prop) (m : M S A) : Prop :=
  ∀ s r s', m s = (r, s') → R s s'.

(** [m] does not change the state. *)
Definition reads {S A} (m : M S A) : Prop :=
  ∀ s r s', m s = (r, s') → s' = s.

(** Only the keys in [X] of the configuration may differ. *)
Definition writes_within (X : list string) (s s' : session) : Prop :=
  ∀ k, k ∉ X → config s' !! k = config s !! k.

(** The trace has grown by events that all satisfy [P]. *)
Definition emits_only (P : event → Prop) (s s' : session) : Prop :=
  ∃ evs, out s' = out s ++ evs ∧ Forall P evs.

Definition is_reference_event (e : event) : Prop :=
  match e with ComputeReference _ => True | _ => False end.

Definition is_correlation_event (e : event) : Prop :=
  match e with
  | ComputeReference _ | PrepareMasks | RegisterBatch _ _ | ShiftBatch _ _ => True
  | _ => False
  end.

Definition is_persist_event (e : event) : Prop :=
  match e with NpSave _ _ | SaveTiff _ _ => True | _ => False end.

(** [m] leaves the configuration as it is. *)
Definition keeps_config {A} (m : M session A) : Prop :=
  ∀ s r s', m s = (r, s') → config s' = config s.

(** [m] adds nothing to the trace. *)
Definition keeps_out {A} (m : M session A) : Prop :=
  ∀ s r s', m s = (r, s') → out s' = out s.

(** Every value [m] returns satisfies [Q]. *)
Definition returns {S A} (Q : A → Prop) (m : M S A) : Prop :=
  ∀ s a s', m s = (Ok a, s') → Q a.

(** The steps a run of [register_dict] that returned went through, with
    the states between them. *)
Inductive phases (K : kernels) (refImg : val) (raw : bool) (s s' : session) : Prop :=
| Phases (s1 s2 s3 s4 s5 s6 s7 s8 s9 s10 : session) (raw' : bool) (paths : streams)
    (ref : val) (bound : option (nat * batch_yield)) (mean : list Q) :
    make_blocks_step K s = (Ok tt, s1) →
    resolve_nframes s1 = (Ok tt, s2) →
    check_nframes s2 = (Ok tt, s3) →
    resolve_raw raw s3 = (Ok raw', s3) →
    bin_paths K raw' s3 = (Ok paths, s3) →
    reference_step K refImg raw' paths s3 = (Ok ref, s4) →
    register_step K ref paths s4 = (Ok bound, s5) →
    mean_image_step bound s5 = (Ok mean, s6) →
    second_channel_step K paths (bound_offsets bound) (bound_k bound) mean s6 = (Ok tt, s7) →
    offset_history_step (bound_offsets bound) s7 = (Ok tt, s8) →
    bad_frames_step K s8 = (Ok tt, s9) →
    compute_crop K s9 = (Ok tt, s10) →
    finish_step raw' s10 = (Ok tt, s') →
    phases K refImg raw s s'.

(** The files and the trace are as they were. *)
Definition same_world (s s' : session) : Prop :=
  disk s' = disk s ∧ out s' = out s.

(** Every key the function may write when the caller gives the
    reference image. *)
Definition keys_written_given_reference : list string :=
  ["nblocks"; "yblock"; "xblock"; "nframes"; "refImg"; "meanImg"; "meanImage_chan2";
   "meanImag"; "meanImg_chan2"; "yoff"; "xoff"; "corrXY"; "yoff1"; "xoff1"; "corrXY1";
   "badframes"; "yrange"; "xrange"; "bidi_corrected"].


Definition short_session : session :=
  Session (<["ops_path" := VStr "ops.npy"]> base_config)
    (list_to_map [("data.bin", movie (ramp 0 20))]) [].

Definition given_reference : val := VArr [7%Q].

Definition seeded_session : session :=
  Session (<["bidiphase" := VInt 3]> base_config) base_disk [].

(** The frames of a stream of [nframes] frames of [px] samples. *)
Definition stream_frames (px nframes : Z) (ws : list Z) : list (list Z) :=
  frames_of (Z.to_nat px) (Z.to_nat nframes) ws.

(** A yield of the engine reports the engine state [st]. *)
Definition reports (nonrigid : bool) (st : engine_state) (y : batch_yield) : Prop :=
  y_offsets y = offsets_of nonrigid st ∧ y_sum_img y = e_sum st ∧ y_nfr y = e_nfr st.

(** The unread part of the input stream, from frame [a] on, is as it was
    in [ws0]. *)
Definition tail_intact (src : string) (px a : nat) (ws0 : list Z) (s : session) : Prop :=
  ∃ f, disk s !! src = Some f ∧ drop (a * px) (n_words f) = drop (a * px) ws0.

(** A kernel keeps the geometry of the frames it corrects. *)
Definition keeps_geometry (K : kernels) : Prop :=
  ∀ m c f, length (snd (register_frame K m c f)) = length f.

(** The configuration and the files are as they were. *)
Definition same_store (s s' : session) : Prop :=
  config s' = config s ∧ disk s' = disk s.

(** A session on two channels: the alternate channel is dark for 30
    frames and bright for 20, and the batches hold 30 frames.  The
    functional channel is the alignment channel in the first, and differs
    from it in the second. *)
Definition two_channel_config : dict :=
  <["nchannels" := VInt 2]> (<["batch_size" := VInt 30]>
  (<["bidi_corrected" := VBool false]> (<["nblocks" := VIntList [1; 1]]>
  (<["xblock" := VIntList [0; 1]]> (<["yblock" := VIntList [0; 1]]>
  (<["reg_tif_chan2" := VBool false]> base_config)))))).

Definition alternate_movie : list Z := replicate 30 0 ++ replicate 20 50.

Definition two_channel_disk : gmap string node :=
  list_to_map [("data.bin", movie (ramp 0 50)); ("data_chan2.bin", movie alternate_movie)].

Definition two_channel_session : session :=
  Session two_channel_config two_channel_disk [].

Definition swapped_session : session :=
  Session (<["align_by_chan" := VInt 2]> two_channel_config) two_channel_disk [].

(** The mean image of a channel as the specification defines it: the
    sum of its frames divided by their number. *)
Definition mean_of_frames (px nframes : Z) (frames : list (list Z)) : list Q :=
  np.divide (foldl img_add (replicate (Z.to_nat px) 0%Q) frames) nframes.

(** A session that keeps its raw movie, registered from the raw stream. *)
Definition raw_session : session :=
  Session
    (<["keep_movie_raw" := VBool true]> (<["raw_file" := VStr "data_raw.bin"]>
       (<["bidi_corrected" := VBool false]> base_config)))
    (list_to_map [("data.bin", movie (ramp 0 50)); ("data_raw.bin", movie (ramp 0 50))])
    [].

(** How many times the reference image was computed in a trace. *)
Definition reference_calls (evs : list event) : nat :=
  length (filter (λ e, match e with ComputeReference _ => true | _ => false end = true) evs).

(** The files are as they were. *)
Definition same_disk (s s' : session) : Prop := disk s' = disk s.

(** The indices of the bad-frame file under the first data path, when
    there is a data path and the file is a regular file. *)
Definition override_indices (K : kernels) (s : session) : option (list Z) :=
  dp ← config s !! "data_path";
  d ← (match first_path dp with Ok d => Some d | Raise _ => None end);
  f ← disk s !! abspath K (path.join d "bad_frames.npy");
  if n_isfile f then Some (n_words f) else None.

(** There is no data path, or no regular bad-frame file under the
    first one. *)
Definition override_absent (K : kernels) (t : session) : Prop :=
  match config t !! "data_path" with
  | None => True
  | Some (VStrList []) => True
  | Some (VStrList (d :: _)) =>
      default false (n_isfile <$> disk t !! abspath K (path.join d "bad_frames.npy")) = false
  | Some _ => False
  end.

(** A session with two bad frames listed under its data path. *)
Definition flagged_session : session :=
  Session (<["data_path" := VStrList ["data"]]> base_config)
    (<["/data/bad_frames.npy" := Node true 144 [3; 7]]> base_disk) [].

(** The history array under [key] after a run, given the column [col] of
    this run's shifts, one entry per frame: on a first run (no 'yoff' on
    entry) it is the column itself; on a later run the column is added,
    entry by entry, to the array found on entry. *)
Definition accumulated (s s' : session) (key : string) (col : list Q) : Prop :=
  match config s !! "yoff" with
  | None => config s' !! key = Some (VArr col)
  | Some _ =>
      ∀ a, config s !! key = Some (VArr a) →
           length a = length col ∧ config s' !! key = Some (VArr (zip_with Qplus a col))
  end.

(** The same for the arrays of per-block shifts, one row per frame: each
    row of this run is added to a row of zeros on a first run, and to
    the row found on entry on a later run. *)
Definition accumulated2 (s s' : session) (key : string) (col : list (list Q)) : Prop :=
  ∃ rows,
    config s' !! key = Some (VArr2 rows) ∧ length rows = length col
    ∧ match config s !! "yoff" with
      | None =>
          ∃ nb : nat, Forall2 (λ row x, np.iadd1 (replicate nb 0%Q) x = Ok row) rows col
      | Some _ =>
          ∀ a, config s !! key = Some (VArr2 a) →
               length a = length col
               ∧ Forall2 (λ row ax, np.iadd1 (fst ax) (snd ax) = Ok row) rows (zip a col)
      end.

(** [ops[key] += offsets[i]] took the array under [key] in [s1] to the
    one under [key] in [s']. *)
Definition added (s1 s' : session) (offsets : list val) (key : string) (i : nat) : Prop :=
  ∃ a b v,
    config s1 !! key = Some a ∧ offsets !! i = Some b ∧ np.iadd a b = Ok v
    ∧ config s' !! key = Some v.

(** A session that was registered before and comes back with its
    displacement history. *)
Definition seasoned_session : session :=
  Session
    (<["yoff" := VArr (replicate 50 1%Q)]> (<["xoff" := VArr (replicate 50 2%Q)]>
       (<["corrXY" := VArr (replicate 50 3%Q)]> base_config)))
    base_disk [].

Definition nonrigid_session : session :=
  Session (<["nonrigid" := VBool true]> base_config) base_disk [].

(** ** Further vocabulary for whole runs *)

(** The keys every run reads, whatever the session. *)
Definition required_keys : list string :=
  ["nonrigid"; "frames_include"; "batch_size"; "Ly"; "Lx"; "reg_tif"; "nchannels"].

(** Sessions for the edge cases: frames without rows, a raw movie that
    is kept but not named, and a list whose second element is too short
    to register. *)
Definition flat_session : session :=
  Session (<["Ly" := VInt 0]> base_config) base_disk [].

Definition unnamed_raw_session : session :=
  Session (<["keep_movie_raw" := VBool true]> base_config) base_disk [].

Definition short_config : dict := <["reg_file" := VStr "short.bin"]> base_config.

Definition mixed_world : world :=
  World (list_to_map [(0%nat, base_config); (1%nat, short_config); (2%nat, base_config)])
    (<["short.bin" := movie (ramp 0 20)]> base_disk) [].

(** A session whose bad-frame file lists a frame that is not there. *)
Definition overflagged_session : session :=
  Session (<["nframes" := VInt 50]> (<["data_path" := VStrList ["data"]]> base_config))
    (<["/data/bad_frames.npy" := Node true 144 [3; 50]]> base_disk) [].


(** The events each step of a run can add to the trace; the last step
    adds nothing but the event of saving, [is_save_event]. *)
Definition from_check (e : event) : Prop :=
  match e with Print (MsgRegistering _) | Print MsgFewFrames => True | _ => False end.

Definition from_reference (e : event) : Prop :=
  match e with
  | Print MsgUserReference | Print MsgReferenceDone | ComputeReference _ => True
  | _ => False
  end.

Definition from_register (e : event) : Prop :=
  match e with
  | PrepareMasks | RegisterBatch _ _ | SaveTiff _ _ | Print (MsgProgress _ _) => True
  | _ => False
  end.

Definition from_second_channel (e : event) : Prop :=
  match e with
  | ShiftBatch _ _ | SaveTiff _ _ | Print MsgSecondChannelDone => True
  | _ => False
  end.

Definition from_bad_frames (e : event) : Prop :=
  match e with Print (MsgBadFramesPath _) | Print (MsgBadFramesCount _) => True | _ => False end.

Definition from_crop (e : event) : Prop :=
  match e with Print MsgCropDegenerate => True | _ => False end.

Definition is_save_event (e : event) : Prop :=
  match e with NpSave _ _ => True | _ => False end.

Definition is_warning_event (e : event) : Prop :=
  match e with Print MsgFewFrames => True | _ => False end.

Definition is_shift_event (e : event) : Prop :=
  match e with ShiftBatch _ _ => True | _ => False end.



Definition long_session : session :=
  Session base_config (list_to_map [("data.bin", movie (ramp 0 200))]) [].

(** Every key a run may write. *)
Definition keys_written : list string := "bidiphase" :: keys_written_given_reference.

(** The keys a rigid run may write: the block grid and the per-block
    history are not among them. *)
Definition rigid_keys : list string :=
  ["nframes"; "bidiphase"; "refImg"; "meanImg"; "meanImage_chan2"; "meanImag";
   "meanImg_chan2"; "yoff"; "xoff"; "corrXY"; "badframes"; "yrange"; "xrange";
   "bidi_corrected"].

(** The entry under [k] is not a true value: it is missing, false, or
    has no truth value. *)
Definition unset (k : string) (s : session) : Prop :=
  ∀ v, config s !! k = Some v → truthy v ≠ Ok true.

(** None of the entries under [ks] is a true value. *)
Definition all_unset (ks : list string) (s : session) : Prop :=
  Forall (λ k, unset k s) ks.

(** [R] relates the ends of a step that starts where [C] holds, and [C]
    holds again where the step ends. *)
Definition under (C : session → Prop) (R : session → session → Prop)
    (s s' : session) : Prop :=
  C s → C s' ∧ R s s'.

Definition is_tiff_event (e : event) : Prop :=
  match e with SaveTiff _ _ => True | _ => False end.

(** The names of the stacks handed to the image writer, in order. *)
Definition tiff_names (evs : list event) : list string :=
  omap (λ e, match e with SaveTiff f _ => Some f | _ => None end) evs.

(** The session asks for preview stacks of the first channel, and says
    what the image writer needs to name them. *)
Definition previews_asked (vt fc ac sp : val) (s : session) : Prop :=
  config s !! "reg_tif" = Some vt ∧ truthy vt = Ok true
  ∧ config s !! "functional_chan" = Some fc
  ∧ config s !! "align_by_chan" = Some ac ∧ config s !! "save_path" = Some sp.

(** A session that asks for preview stacks, and one whose frame cap is
    too low. *)
Definition preview_session : session :=
  Session (<["reg_tif" := VBool true]> (<["save_path" := VStr "out"]> base_config))
    base_disk [].

Definition low_cap_session : session :=
  Session (<["frames_include" := VInt 0]> (<["nframes" := VInt 300]> base_config))
    base_disk [].

(** The totals of the progress lines in a trace, in order: the second
    number of each line '%d/%d frames'. *)
Definition progress_totals (evs : list event) : list Z :=
  omap (λ e, match e with Print (MsgProgress _ n) => Some n | _ => None end) evs.

Definition is_progress_event (e : event) : Prop :=
  match e with Print (MsgProgress _ _) => True | _ => False end.

(** * Properties *)

(** ** Running the monad *)

Section Run.
Context {S : Type}.

Lemma bind_ok_inv {A B} (m : M S A) (f : A → M S B) s b s2 :
  (m ≫= f) s = (Ok b, s2) →
  ∃ a s1, m s = (Ok a, s1) ∧ f a s1 = (Ok b, s2).
Proof.
  unfold mbind, M_bind, bind. destruct (m s) as [[a|e] s1]; intros H.
  - eauto.
  - discriminate.
Qed.

Lemma bind_ok {A B} (m : M S A) (f : A → M S B) s a s1 :
  m s = (Ok a, s1) → (m ≫= f) s = f a s1.
Proof. unfold mbind, M_bind, bind. intros ->. reflexivity. Qed.

Lemma bind_raise {A B} (m : M S A) (f : A → M S B) s e s1 :
  m s = (Raise e, s1) → (m ≫= f) s = (Raise e, s1).
Proof. unfold mbind, M_bind, bind. intros ->. reflexivity. Qed.

Lemma ret_ok_inv {A} (a b : A) (s s' : S) :
  ret a s = (Ok b, s') → b = a ∧ s' = s.
Proof. unfold ret. intros [= -> ->]. auto. Qed.

Lemma lift_ok_inv {A} (r : result A) (b : A) (s s' : S) :
  lift r s = (Ok b, s') → r = Ok b ∧ s' = s.
Proof. unfold lift. intros [= -> ->]. auto. Qed.

Lemma raise_ok_inv {A} e (b : A) (s s' : S) :
  raise e s = (Ok b, s') → False.
Proof. unfold raise. discriminate. Qed.

Section Preserves.
Context (R : S → S → Prop) `{!PreOrder R}.

Lemma preserves_reads {A} (m : M S A) : reads m → preserves R m.
Proof. intros Hm s r s' H. rewrite (Hm _ _ _ H). reflexivity. Qed.

Lemma preserves_bind {A B} (m : M S A) (f : A → M S B) :
  preserves R m → (∀ a, preserves R (f a)) → preserves R (m ≫= f).
Proof.
  intros Hm Hf s r s'. unfold mbind, M_bind, bind.
  destruct (m s) as [[a|e] s1] eqn:E; intros H.
  - transitivity s1; [eapply Hm | eapply Hf]; eauto.
  - injection H as <- <-. eapply Hm; eauto.
Qed.

Lemma preserves_ret {A} (a : A) : preserves R (ret a).
Proof. intros s r s' [= <- <-]. reflexivity. Qed.

Lemma preserves_mret {A} (a : A) : preserves R (mret a : M S A).
Proof. apply preserves_ret. Qed.

Lemma preserves_raise {A} e : preserves R (raise e : M S A).
Proof. intros s r s' [= <- <-]. reflexivity. Qed.

Lemma preserves_lift {A} (r : result A) : preserves R (lift r).
Proof. intros s r' s' [= <- <-]. reflexivity. Qed.

Lemma preserves_for_each {A B} (f : A → M S B) items :
  (∀ a, preserves R (f a)) → preserves R (for_each f items).
Proof.
  intros Hf. induction items as [|a l IH]; simpl.
  - apply preserves_ret.
  - apply preserves_bind; auto.
Qed.
End Preserves.

Lemma reads_ret {A} (a : A) : reads (ret a : M S A).
Proof. intros s r s' [= <- <-]. reflexivity. Qed.

Lemma reads_raise {A} e : reads (raise e : M S A).
Proof. intros s r s' [= <- <-]. reflexivity. Qed.

Lemma reads_lift {A} (r : result A) : reads (lift r : M S A).
Proof. intros s r' s' [= <- <-]. reflexivity. Qed.

Lemma reads_bind {A B} (m : M S A) (f : A → M S B) :
  reads m → (∀ a, reads (f a)) → reads (m ≫= f).
Proof.
  intros Hm Hf s r s'. unfold mbind, M_bind, bind.
  destruct (m s) as [[a|e] s1] eqn:E; intros H.
  - apply Hm in E as ->. eapply Hf; eauto.
  - injection H as <- <-. eapply Hm; eauto.
Qed.
End Run.

#[global] Instance writes_within_preorder X : PreOrder (writes_within X).
Proof.
  split.
  - intros s k _. reflexivity.
  - intros s1 s2 s3 H12 H23 k Hk. rewrite H23, H12; auto.
Qed.

#[global] Instance emits_only_preorder P : PreOrder (emits_only P).
Proof.
  split.
  - intros s. exists []. split; [by rewrite app_nil_r | constructor].
  - intros s1 s2 s3 (e1 & H1 & F1) (e2 & H2 & F2). exists (e1 ++ e2). split.
    + by rewrite H2, H1, app_assoc.
    + by apply Forall_app.
Qed.

Lemma writes_within_mono X Y s s' :
  X ⊆ Y → writes_within X s s' → writes_within Y s s'.
Proof. intros HXY H k Hk. apply H. intros Hin. apply Hk, HXY, Hin. Qed.

Lemma emits_only_mono (P Q : event → Prop) s s' :
  (∀ e, P e → Q e) → emits_only P s s' → emits_only Q s s'.
Proof.
  intros HPQ (evs & H & F). exists evs. split; [done|].
  eapply Forall_impl; eauto.
Qed.

(** ** The primitive statements *)

Lemma getitem_ok_inv k v s s' :
  getitem k s = (Ok v, s') → config s !! k = Some v ∧ s' = s.
Proof. unfold getitem. destruct (config s !! k); intros [= <- <-]; auto. Qed.

Lemma getitem_ok k v s : config s !! k = Some v → getitem k s = (Ok v, s).
Proof. unfold getitem. by intros ->. Qed.

Lemma reads_getitem k : reads (getitem k).
Proof. intros s r s'. unfold getitem. by destruct (config s !! k); intros [= <- <-]. Qed.

Lemma reads_contains k : reads (contains k).
Proof. by intros s r s' [= <- <-]. Qed.

Lemma reads_dict_get k : reads (dict_get k).
Proof. by intros s r s' [= <- <-]. Qed.

Lemma reads_gets {A} (f : session → A) : reads (gets f).
Proof. by intros s r s' [= <- <-]. Qed.

Lemma reads_test k : reads (test k).
Proof. apply reads_bind; [apply reads_getitem | intros; apply reads_lift]. Qed.

Lemma reads_getint k : reads (getint k).
Proof. apply reads_bind; [apply reads_getitem | intros; apply reads_lift]. Qed.

Lemma reads_getarr1 k : reads (getarr1 k).
Proof. apply reads_bind; [apply reads_getitem | intros; apply reads_lift]. Qed.

Lemma reads_getarr2 k : reads (getarr2 k).
Proof. apply reads_bind; [apply reads_getitem | intros; apply reads_lift]. Qed.

Lemma reads_getsize p : reads (path.getsize p).
Proof. intros s r s'. unfold path.getsize. by destruct (disk s !! p); intros [= <- <-]. Qed.

Lemma reads_exists p : reads (path.exists_ p).
Proof. by intros s r s' [= <- <-]. Qed.

Lemma reads_isfile p : reads (path.isfile p).
Proof. by intros s r s' [= <- <-]. Qed.

Lemma reads_load p : reads (np.load p).
Proof. intros s r s'. unfold np.load. by destruct (disk s !! p); intros [= <- <-]. Qed.

Lemma reads_read_frames p px a b : reads (read_frames p px a b).
Proof.
  intros s r s'. unfold read_frames. destruct (disk s !! p); [|by intros [= <- <-]].
  by case_match; intros [= <- <-].
Qed.

Lemma reads_bin_paths K raw : reads (bin_paths K raw).
Proof. apply reads_bind; [apply reads_gets | intros; apply reads_lift]. Qed.

Create HintDb reads.
#[global] Hint Resolve reads_ret reads_raise reads_lift reads_getitem reads_contains
  reads_dict_get reads_gets reads_test reads_getint reads_getarr1 reads_getarr2
  reads_getsize reads_exists reads_isfile reads_load reads_read_frames
  reads_bin_paths : reads.

Lemma preserves_bind_returns {S A B} (R : S → S → Prop) `{!PreOrder R}
    (Q : A → Prop) (m : M S A) (f : A → M S B) :
  returns Q m → preserves R m → (∀ a, Q a → preserves R (f a)) →
  preserves R (m ≫= f).
Proof.
  intros HQ Hm Hf s r s'. unfold mbind, M_bind, bind.
  destruct (m s) as [[a|e] s1] eqn:E; intros H.
  - transitivity s1; [eapply Hm | eapply Hf]; eauto.
  - injection H as <- <-. eapply Hm; eauto.
Qed.

Lemma setitem_writes X k v : k ∈ X → preserves (writes_within X) (setitem k v).
Proof.
  intros Hk s r s' [= <- <-] k' Hk'. simpl.
  apply lookup_insert_ne. intros ->. auto.
Qed.

Lemma keeps_config_writes {A} X (m : M session A) :
  keeps_config m → preserves (writes_within X) m.
Proof. intros Hm s r s' H k _. by rewrite (Hm _ _ _ H). Qed.

Lemma keeps_out_emits {A} P (m : M session A) :
  keeps_out m → preserves (emits_only P) m.
Proof.
  intros Hm s r s' H. exists []. rewrite app_nil_r. split; [eauto | constructor].
Qed.

Lemma emit_emits (P : event → Prop) e : P e → preserves (emits_only P) (emit e).
Proof. intros He s r s' [= <- <-]. exists [e]. simpl. split; [done | by constructor]. Qed.

Lemma keeps_config_emit e : keeps_config (emit e).
Proof. by intros s r s' [= <- <-]. Qed.

Lemma keeps_config_save p : keeps_config (np.save p).
Proof. by intros s r s' [= <- <-]. Qed.

Lemma keeps_config_write_frames p px a fr : keeps_config (write_frames p px a fr).
Proof. by intros s r s' [= <- <-]. Qed.

Lemma keeps_config_reference K file : keeps_config (compute_reference_image K file).
Proof.
  intros s r s'. destruct file as [p|]; simpl; [|by intros [= <- <-]].
  by destruct (disk s !! p); intros [= <- <-].
Qed.

Lemma keeps_out_setitem k v : keeps_out (setitem k v).
Proof. by intros s r s' [= <- <-]. Qed.

Lemma keeps_out_write_frames p px a fr : keeps_out (write_frames p px a fr).
Proof. by intros s r s' [= <- <-]. Qed.

Lemma save_emits (P : event → Prop) p :
  (∀ d, P (NpSave p d)) → preserves (emits_only P) (np.save p).
Proof. intros HP s r s' [= <- <-]. exists [NpSave p (config s)]. split; [done | by constructor]. Qed.

Lemma reference_emits (P : event → Prop) K file :
  (∀ p, P (ComputeReference p)) → preserves (emits_only P) (compute_reference_image K file).
Proof.
  intros HP s r s'. destruct file as [p|]; simpl.
  - destruct (disk s !! p); intros [= <- <-].
    + exists [ComputeReference p]. split; [done | by constructor].
    + reflexivity.
  - intros [= <- <-]. reflexivity.
Qed.

(** Membership and inclusion among lists of literal keys, by evaluation. *)
Ltac notin_keys := refine (bool_decide_unpack _ _); vm_compute; exact I.

(** Stepping through a computation, statement by statement. *)
Ltac preserves_step :=
  first
    [ apply preserves_ret; typeclasses eauto
    | apply preserves_mret; typeclasses eauto
    | apply preserves_raise; typeclasses eauto
    | apply preserves_lift; typeclasses eauto
    | apply preserves_reads; [typeclasses eauto | solve [auto with reads]]
    | apply setitem_writes; solve [repeat constructor]
    | apply keeps_config_writes;
      solve [ apply keeps_config_emit | apply keeps_config_save
            | apply keeps_config_write_frames | apply keeps_config_reference ]
    | apply keeps_out_emits;
      solve [ apply keeps_out_setitem | apply keeps_out_write_frames ]
    | apply emit_emits; solve [simpl; auto]
    | apply save_emits; solve [simpl; auto]
    | apply reference_emits; solve [simpl; auto]
    | apply preserves_bind; [typeclasses eauto | | intros ?]
    | match goal with
      | |- preserves _ (if ?b then _ else _) => destruct b
      | |- preserves _ (match ?x with _ => _ end) => destruct x
      end ].

Ltac preserves_auto := repeat preserves_step.

Section Loops.
Context (R : session → session → Prop) `{!PreOrder R}.

Lemma preserves_for_from {St B Y} (next : St → B → M session (Y * St))
    (body : nat → Y → M session unit) bs k st bound :
  (∀ st b, preserves R (next st b)) →
  (∀ k y, preserves R (body k y)) →
  preserves R (for_from next body bs k st bound).
Proof.
  intros Hnext Hbody. revert k st bound.
  induction bs as [|b bs IH]; intros k st bound; simpl.
  - by apply preserves_mret.
  - apply preserves_bind; [done | apply Hnext |]. intros [y st'].
    apply preserves_bind; [done | apply Hbody |]. intros _. apply IH.
Qed.
End Loops.

(** ** What each step may write to the configuration *)

Section WriteSets.
Context (K : kernels).

Lemma make_blocks_writes :
  preserves (writes_within ["nblocks"; "yblock"; "xblock"]) (make_blocks_step K).
Proof. unfold make_blocks_step, nonrigid.make_blocks. preserves_auto. Qed.

Lemma resolve_nframes_writes : preserves (writes_within ["nframes"]) resolve_nframes.
Proof. unfold resolve_nframes, source_path. preserves_auto. Qed.

Lemma check_nframes_reads : preserves (writes_within []) check_nframes.
Proof. unfold check_nframes, print. preserves_auto. Qed.
End WriteSets.

Lemma preserves_writes_mono {A} X Y (m : M session A) :
  X ⊆ Y → preserves (writes_within X) m → preserves (writes_within Y) m.
Proof. intros HXY Hm s r s' H. eapply writes_within_mono; eauto. Qed.

Lemma preserves_emits_mono {A} (P Q : event → Prop) (m : M session A) :
  (∀ e, P e → Q e) → preserves (emits_only P) m → preserves (emits_only Q) m.
Proof. intros HPQ Hm s r s' H. eapply emits_only_mono; eauto. Qed.

(** ** Inverting a run that returned *)

Lemma setitem_ok_inv k v u s s' :
  setitem k v s = (Ok u, s') → s' = Session (<[k := v]> (config s)) (disk s) (out s).
Proof. by intros [= _ <-]. Qed.

Lemma emit_ok_inv e u s s' :
  emit e s = (Ok u, s') → s' = Session (config s) (disk s) (out s ++ [e]).
Proof. by intros [= _ <-]. Qed.

Lemma contains_ok_inv k b s s' :
  contains k s = (Ok b, s') → b = bool_decide (is_Some (config s !! k)) ∧ s' = s.
Proof. by intros [= <- <-]. Qed.

Lemma dict_get_ok_inv k v s s' :
  dict_get k s = (Ok v, s') → v = default VNone (config s !! k) ∧ s' = s.
Proof. by intros [= <- <-]. Qed.

Lemma gets_ok_inv {A} (f : session → A) a s s' :
  gets f s = (Ok a, s') → a = f s ∧ s' = s.
Proof. by intros [= <- <-]. Qed.

Lemma test_ok_inv k b s s' :
  test k s = (Ok b, s') → ∃ v, config s !! k = Some v ∧ truthy v = Ok b ∧ s' = s.
Proof.
  unfold test. intros H. apply bind_ok_inv in H as (v & s1 & H1 & H2).
  apply getitem_ok_inv in H1 as [H1 ->]. apply lift_ok_inv in H2 as [H2 ->]. eauto.
Qed.

Lemma getint_ok_inv k n s s' :
  getint k s = (Ok n, s') → ∃ v, config s !! k = Some v ∧ as_int v = Some n ∧ s' = s.
Proof.
  unfold getint. intros H. apply bind_ok_inv in H as (v & s1 & H1 & H2).
  apply getitem_ok_inv in H1 as [H1 ->]. apply lift_ok_inv in H2 as [H2 ->].
  exists v. unfold int_of in H2. destruct (as_int v); [|done]. by injection H2 as ->.
Qed.

Lemma getint_ok k n s : config s !! k = Some (VInt n) → getint k s = (Ok n, s).
Proof. intros H. unfold getint. by rewrite (bind_ok _ _ _ _ _ (getitem_ok _ _ _ H)). Qed.

Lemma getarr1_ok_inv k a s s' :
  getarr1 k s = (Ok a, s') → config s !! k = Some (VArr a) ∧ s' = s.
Proof.
  unfold getarr1. intros H. apply bind_ok_inv in H as (v & s1 & H1 & H2).
  apply getitem_ok_inv in H1 as [H1 ->]. apply lift_ok_inv in H2 as [H2 ->].
  destruct v; try discriminate. by injection H2 as ->.
Qed.

Lemma getarr2_ok_inv k a s s' :
  getarr2 k s = (Ok a, s') → config s !! k = Some (VArr2 a) ∧ s' = s.
Proof.
  unfold getarr2. intros H. apply bind_ok_inv in H as (v & s1 & H1 & H2).
  apply getitem_ok_inv in H1 as [H1 ->]. apply lift_ok_inv in H2 as [H2 ->].
  destruct v; try discriminate. by injection H2 as ->.
Qed.

Lemma isfile_ok_inv p b s s' :
  path.isfile p s = (Ok b, s') → b = default false (n_isfile <$> disk s !! p) ∧ s' = s.
Proof. by intros [= <- <-]. Qed.

Lemma exists_ok_inv p b s s' :
  path.exists_ p s = (Ok b, s') → b = bool_decide (is_Some (disk s !! p)) ∧ s' = s.
Proof. by intros [= <- <-]. Qed.

Lemma getsize_ok_inv p n s s' :
  path.getsize p s = (Ok n, s') → (∃ f, disk s !! p = Some f ∧ n = n_size f) ∧ s' = s.
Proof. unfold path.getsize. destruct (disk s !! p) eqn:E; intros [= <- <-]; eauto. Qed.

Lemma load_ok_inv p l s s' :
  np.load p s = (Ok l, s') → (∃ f, disk s !! p = Some f ∧ l = n_words f) ∧ s' = s.
Proof. unfold np.load. destruct (disk s !! p) eqn:E; intros [= <- <-]; eauto. Qed.

Lemma save_ok_inv p u s s' :
  np.save p s = (Ok u, s') → s' = Session (config s) (disk s) (out s ++ [NpSave p (config s)]).
Proof. by intros [= _ <-]. Qed.

(** Decompose the hypotheses that say a computation returned into the
    statements it went through. *)
Ltac run_inv :=
  repeat match goal with
  | H : (_ ≫= _) _ = (Ok _, _) |- _ =>
      let H1 := fresh "H" in apply bind_ok_inv in H as (? & ? & H1 & H)
  | H : ret _ _ = (Ok _, _) |- _ => apply ret_ok_inv in H as [? ?]; subst
  | H : mret _ _ = (Ok _, _) |- _ => apply ret_ok_inv in H as [? ?]; subst
  | H : lift _ _ = (Ok _, _) |- _ => apply lift_ok_inv in H as [H ?]; subst
  | H : raise _ _ = (Ok _, _) |- _ => by apply raise_ok_inv in H
  | H : getitem _ _ = (Ok _, _) |- _ => apply getitem_ok_inv in H as [H ?]; subst
  | H : setitem _ _ _ = (Ok _, _) |- _ => apply setitem_ok_inv in H; subst
  | H : emit _ _ = (Ok _, _) |- _ => apply emit_ok_inv in H; subst
  | H : print _ _ = (Ok _, _) |- _ => apply emit_ok_inv in H; subst
  | H : contains _ _ = (Ok _, _) |- _ => apply contains_ok_inv in H as [? ?]; subst
  | H : dict_get _ _ = (Ok _, _) |- _ => apply dict_get_ok_inv in H as [? ?]; subst
  | H : gets _ _ = (Ok _, _) |- _ => apply gets_ok_inv in H as [? ?]; subst
  | H : test _ _ = (Ok _, _) |- _ => apply test_ok_inv in H as (? & ? & H & ?); subst
  | H : getint _ _ = (Ok _, _) |- _ => apply getint_ok_inv in H as (? & ? & H & ?); subst
  | H : getarr1 _ _ = (Ok _, _) |- _ => apply getarr1_ok_inv in H as [H ?]; subst
  | H : getarr2 _ _ = (Ok _, _) |- _ => apply getarr2_ok_inv in H as [H ?]; subst
  | H : path.isfile _ _ = (Ok _, _) |- _ => apply isfile_ok_inv in H as [? ?]; subst
  | H : path.exists_ _ _ = (Ok _, _) |- _ => apply exists_ok_inv in H as [? ?]; subst
  | H : path.getsize _ _ = (Ok _, _) |- _ => apply getsize_ok_inv in H as [(? & H & ?) ?]; subst
  | H : np.load _ _ = (Ok _, _) |- _ => apply load_ok_inv in H as [(? & H & ?) ?]; subst
  | H : np.save _ _ = (Ok _, _) |- _ => apply save_ok_inv in H; subst
  | H : (if ?b then _ else _) _ = (Ok _, _) |- _ => destruct b eqn:?
  | H : (match ?x with _ => _ end) _ = (Ok _, _) |- _ => destruct x eqn:?
  end.

Lemma mean_img_key_returns : returns (λ key, key ∈ ["meanImg"; "meanImage_chan2"]) mean_img_key.
Proof.
  intros s key s' H. unfold mean_img_key in H. run_inv;
    repeat match goal with |- context [if ?b then _ else _] => destruct b end;
    repeat constructor.
Qed.

Lemma meanImg_key_returns : returns (λ key, key ∈ ["meanImag"; "meanImg_chan2"]) meanImg_key.
Proof.
  intros s key s' H. unfold meanImg_key in H. run_inv;
    repeat match goal with |- context [if ?b then _ else _] => destruct b end;
    repeat constructor.
Qed.

Lemma reads_mean_img_key : reads mean_img_key.
Proof.
  unfold mean_img_key.
  repeat first [ apply reads_bind; [| intros ?] | solve [auto with reads]
               | match goal with |- reads (if ?b then _ else _) => destruct b end ].
Qed.

Lemma reads_meanImg_key : reads meanImg_key.
Proof.
  unfold meanImg_key.
  repeat first [ apply reads_bind; [| intros ?] | solve [auto with reads] ].
Qed.

Lemma reads_resolve_raw raw : reads (resolve_raw raw).
Proof.
  unfold resolve_raw.
  repeat first [ apply reads_bind; [| intros ?] | solve [auto with reads]
               | match goal with |- reads (if ?b then _ else _) => destruct b end ].
Qed.

#[global] Hint Resolve reads_mean_img_key reads_meanImg_key reads_resolve_raw : reads.

(** Steps that bind the key they write are taken together with what
    is known of the key. *)
Ltac preserves_keys :=
  repeat first
    [ eapply preserves_bind_returns;
      [ typeclasses eauto
      | first [apply mean_img_key_returns | apply meanImg_key_returns]
      | | intros ? ? ]
    | apply setitem_writes; assumption
    | preserves_step ].

Section WriteSetsMore.
Context (K : kernels).

Lemma reference_writes refImg raw paths :
  preserves (writes_within ["bidiphase"; "refImg"]) (reference_step K refImg raw paths).
Proof. unfold reference_step, print. preserves_auto. Qed.

Lemma reference_given_writes refImg raw paths :
  refImg ≠ VNone →
  preserves (writes_within ["refImg"]) (reference_step K refImg raw paths).
Proof. intros Hr. unfold reference_step, print. destruct refImg; [done|..]; preserves_auto. Qed.

Lemma keeps_config_engine_step px masks reg raw st b :
  preserves (writes_within []) (engine_step K px masks reg raw st b).
Proof. unfold engine_step. preserves_auto. Qed.

Lemma register_body_reads k y : preserves (writes_within []) (register_body K k y).
Proof. unfold register_body, io.save_tiff, print. preserves_auto. Qed.

Lemma register_step_writes refImg paths :
  preserves (writes_within []) (register_step K refImg paths).
Proof.
  unfold register_step, prepare_refAndMasks, for_enumerate. preserves_auto.
  apply preserves_for_from; [typeclasses eauto | |].
  - intros. apply keeps_config_engine_step.
  - intros. apply register_body_reads.
Qed.

Lemma mean_image_writes bound :
  preserves (writes_within ["meanImg"; "meanImage_chan2"]) (mean_image_step bound).
Proof.
  unfold mean_image_step. destruct bound as [[k y]|]; preserves_keys.
Qed.

Lemma replicator_step_reads px params offsets reg raw st b :
  preserves (writes_within []) (replicator_step K px params offsets reg raw st b).
Proof. unfold replicator_step. preserves_auto. Qed.

Lemma shift_body_reads k y : preserves (writes_within []) (shift_body K k y).
Proof. unfold shift_body, io.save_tiff. preserves_auto. Qed.

Lemma second_channel_writes paths offsets k mean_img :
  preserves (writes_within ["meanImag"; "meanImg_chan2"])
    (second_channel_step K paths offsets k mean_img).
Proof.
  unfold second_channel_step, alternate_loop, for_enumerate, print. preserves_keys.
  apply preserves_for_from; [typeclasses eauto | |]; intros.
  - apply (preserves_writes_mono []); [notin_keys | apply replicator_step_reads].
  - apply (preserves_writes_mono []); [notin_keys | apply shift_body_reads].
Qed.

Lemma iadd_item_writes X key offsets i :
  key ∈ X → preserves (writes_within X) (iadd_item key offsets i).
Proof.
  intros Hk. unfold iadd_item. preserves_auto. by apply setitem_writes.
Qed.

Lemma init_history_writes X key :
  key ∈ X → preserves (writes_within X) (init_history key).
Proof.
  intros Hk. unfold init_history. preserves_auto. by apply setitem_writes.
Qed.

Lemma init_history2_writes X key nb :
  key ∈ X → preserves (writes_within X) (init_history2 key nb).
Proof.
  intros Hk. unfold init_history2. preserves_auto. by apply setitem_writes.
Qed.

Lemma offset_history_writes offsets :
  preserves (writes_within ["yoff"; "xoff"; "corrXY"; "yoff1"; "xoff1"; "corrXY1"])
    (offset_history_step offsets).
Proof.
  unfold offset_history_step, history_init.
  repeat first
    [ apply iadd_item_writes; solve [repeat constructor]
    | apply init_history_writes; solve [repeat constructor]
    | apply init_history2_writes; solve [repeat constructor]
    | preserves_step ].
Qed.

Lemma bad_frames_writes :
  preserves (writes_within ["badframes"]) (bad_frames_step K).
Proof. unfold bad_frames_step, print. preserves_auto. Qed.

Lemma compute_crop_writes :
  preserves (writes_within ["yrange"; "xrange"]) (compute_crop K).
Proof. unfold compute_crop, print. preserves_auto. Qed.

Lemma finish_writes raw :
  preserves (writes_within ["bidi_corrected"]) (finish_step raw).
Proof. unfold finish_step. preserves_auto. Qed.
End WriteSetsMore.

(** ** A run that returned, step by step *)



Lemma register_dict_phases K refImg raw s s' :
  register_dict K refImg raw s = (Ok tt, s') → phases K refImg raw s s'.
Proof.
  unfold register_dict. intros H.
  apply bind_ok_inv in H as ([] & s1 & H1 & H).
  apply bind_ok_inv in H as ([] & s2 & H2 & H).
  apply bind_ok_inv in H as ([] & s3 & H3 & H).
  apply bind_ok_inv in H as (raw' & s3' & H4 & H).
  pose proof (reads_resolve_raw _ _ _ _ H4) as ->.
  apply bind_ok_inv in H as (paths & s3' & H5 & H).
  pose proof (reads_bin_paths _ _ _ _ _ H5) as ->.
  apply bind_ok_inv in H as (ref & s4 & H6 & H).
  apply bind_ok_inv in H as (bound & s5 & H7 & H).
  apply bind_ok_inv in H as (mean & s6 & H8 & H).
  apply bind_ok_inv in H as ([] & s7 & H9 & H).
  apply bind_ok_inv in H as ([] & s8 & H10 & H).
  apply bind_ok_inv in H as ([] & s9 & H11 & H).
  apply bind_ok_inv in H as ([] & s10 & H12 & H).
  econstructor; eauto.
Qed.

(** ** Running a computation forward *)

Section Forward.
Context {S : Type}.

Lemma bind_lift_ok {A B} (a : A) (f : A → M S B) s : (lift (Ok a) ≫= f) s = f a s.
Proof. reflexivity. Qed.

Lemma bind_lift_raise {A B} e (f : A → M S B) s :
  (lift (Raise e) ≫= f) s = (Raise e, s).
Proof. reflexivity. Qed.

Lemma bind_ret {A B} (a : A) (f : A → M S B) s : (ret a ≫= f) s = f a s.
Proof. reflexivity. Qed.

Lemma bind_mret {A B} (a : A) (f : A → M S B) s : (mret a ≫= f) s = f a s.
Proof. reflexivity. Qed.

Lemma bind_raise_now {A B} e (f : A → M S B) s :
  ((raise e : M S A) ≫= f) s = (Raise e, s).
Proof. reflexivity. Qed.

Lemma bind_assoc {A B C} (m : M S A) (f : A → M S B) (g : B → M S C) s :
  ((m ≫= f) ≫= g) s = (m ≫= λ a, f a ≫= g) s.
Proof. unfold mbind, M_bind, bind. by destruct (m s) as [[a|e] s1]. Qed.
End Forward.

Lemma bind_setitem {B} k v (f : unit → M session B) s :
  (setitem k v ≫= f) s = f tt (Session (<[k := v]> (config s)) (disk s) (out s)).
Proof. reflexivity. Qed.

Lemma bind_emit {B} e (f : unit → M session B) s :
  (emit e ≫= f) s = f tt (Session (config s) (disk s) (out s ++ [e])).
Proof. reflexivity. Qed.

Lemma bind_print {B} m (f : unit → M session B) s :
  (print m ≫= f) s = f tt (Session (config s) (disk s) (out s ++ [Print m])).
Proof. reflexivity. Qed.

Lemma bind_contains {B} k (f : bool → M session B) s :
  (contains k ≫= f) s = f (bool_decide (is_Some (config s !! k))) s.
Proof. reflexivity. Qed.

Lemma bind_gets {A B} (g : session → A) (f : A → M session B) s :
  (gets g ≫= f) s = f (g s) s.
Proof. reflexivity. Qed.

Lemma bind_getitem {B} k v (f : val → M session B) s :
  config s !! k = Some v → (getitem k ≫= f) s = f v s.
Proof. intros H. apply bind_ok, getitem_ok, H. Qed.

Lemma bind_getint {B} k v n (f : Z → M session B) s :
  config s !! k = Some v → as_int v = Some n → (getint k ≫= f) s = f n s.
Proof.
  intros H Hn. apply bind_ok. unfold getint.
  rewrite (bind_getitem _ _ _ _ H). unfold int_of. by rewrite Hn.
Qed.

Lemma bind_test {B} k v b (f : bool → M session B) s :
  config s !! k = Some v → truthy v = Ok b → (test k ≫= f) s = f b s.
Proof.
  intros H Hb. apply bind_ok. unfold test.
  rewrite (bind_getitem _ _ _ _ H). by rewrite Hb.
Qed.

(** ** The frame count *)

Lemma source_path_reads : reads source_path.
Proof.
  unfold source_path.
  repeat first [ apply reads_bind; [| intros ?] | solve [auto with reads]
               | match goal with |- reads (if ?b then _ else _) => destruct b end ].
Qed.



(** ** Too few frames *)

#[global] Instance same_world_preorder : PreOrder same_world.
Proof.
  split.
  - by intros s.
  - intros s1 s2 s3 [H1 H2] [H3 H4]. split; congruence.
Qed.

Lemma setitem_same_world k v : preserves same_world (setitem k v).
Proof. by intros s r s' [= <- <-]. Qed.

Lemma make_blocks_same_world K : preserves same_world (make_blocks_step K).
Proof.
  unfold make_blocks_step, nonrigid.make_blocks.
  repeat first [apply setitem_same_world | preserves_step].
Qed.

Lemma resolve_nframes_same_world : preserves same_world resolve_nframes.
Proof.
  unfold resolve_nframes, source_path.
  repeat first [apply setitem_same_world | preserves_step].
Qed.

(** C2. When the resolved frame count is below 50, [register_binary]
    raises its configuration error; the only thing it has done by then
    is to print the frame count: no reference image was built, no
    correlation work was done, and nothing was persisted. *)
Theorem too_few_frames K refImg raw (s s0 s1 : session) (n : Z) :
  make_blocks_step K s = (Ok tt, s0) →
  resolve_nframes s0 = (Ok tt, s1) →
  config s1 !! "nframes" = Some (VInt n) →
  n < 50 →
  ∃ s2,
    register_dict K refImg raw s
    = (Raise (Exception_ "ERROR: the total number of frames should be at least 50 "), s2)
    ∧ out s2 = out s ++ [Print (MsgRegistering n)]
    ∧ disk s2 = disk s
    ∧ emits_only (λ e, ¬ is_correlation_event e ∧ ¬ is_persist_event e) s s2.
Proof.
  intros H0 H1 Hn Hlt.
  destruct (make_blocks_same_world K _ _ _ H0) as [Hd0 Ho0].
  destruct (resolve_nframes_same_world _ _ _ H1) as [Hd1 Ho1].
  exists (Session (config s1) (disk s1) (out s1 ++ [Print (MsgRegistering n)])).
  assert (check_nframes s1
          = (Raise (Exception_ "ERROR: the total number of frames should be at least 50 "),
             Session (config s1) (disk s1) (out s1 ++ [Print (MsgRegistering n)]))) as Hc.
  { unfold check_nframes.
    rewrite (bind_getint _ _ _ _ _ Hn eq_refl), bind_print.
    erewrite bind_getitem by (simpl; exact Hn).
    unfold py_lt. cbn [as_int]. rewrite bind_lift_ok.
    destruct (n <? 50) eqn:E; [reflexivity | lia]. }
  split; [|split; [|split]].
  - unfold register_dict.
    rewrite (bind_ok _ _ _ _ _ H0), (bind_ok _ _ _ _ _ H1).
    by rewrite (bind_raise _ _ _ _ _ Hc).
  - simpl. congruence.
  - simpl. congruence.
  - exists [Print (MsgRegistering n)]. split.
    + simpl. congruence.
    + constructor; [|constructor]. simpl. tauto.
Qed.

Lemma too_few_frames_witness :
  ∃ s2,
    register_dict probe_kernels VNone true short_session
    = (Raise (Exception_ "ERROR: the total number of frames should be at least 50 "), s2)
    ∧ out s2 = out short_session ++ [Print (MsgRegistering 20)]
    ∧ disk s2 = disk short_session
    ∧ emits_only (λ e, ¬ is_correlation_event e ∧ ¬ is_persist_event e) short_session s2.
Proof.
  apply (too_few_frames probe_kernels VNone true short_session short_session
           (Session (<["nframes" := VInt 20]> (config short_session))
              (disk short_session) [])).
  - vm_compute; reflexivity.
  - vm_compute; reflexivity.
  - vm_compute; reflexivity.
  - lia.
Defined.

(** ** A reference image given by the caller *)

Section Emits.
Context (K : kernels) (P : event → Prop).
Context (HP : ∀ e, ¬ is_reference_event e → P e).

Local Ltac emits_auto :=
  repeat first
    [ apply emit_emits; apply HP; simpl; tauto
    | apply save_emits; intros; apply HP; simpl; tauto
    | preserves_step ].

Lemma make_blocks_emits : preserves (emits_only P) (make_blocks_step K).
Proof. unfold make_blocks_step, nonrigid.make_blocks. emits_auto. Qed.

Lemma resolve_nframes_emits : preserves (emits_only P) resolve_nframes.
Proof. unfold resolve_nframes, source_path. emits_auto. Qed.

Lemma check_nframes_emits : preserves (emits_only P) check_nframes.
Proof. unfold check_nframes, print. emits_auto. Qed.

Lemma reference_given_emits refImg raw paths :
  refImg ≠ VNone → preserves (emits_only P) (reference_step K refImg raw paths).
Proof. intros Hr. unfold reference_step, print. destruct refImg; [done|..]; emits_auto. Qed.

Lemma register_step_emits refImg paths :
  preserves (emits_only P) (register_step K refImg paths).
Proof.
  unfold register_step, prepare_refAndMasks, for_enumerate. emits_auto.
  apply preserves_for_from; [typeclasses eauto | |]; intros.
  - cbn [g_next register_binary_to_ref]. unfold engine_step. emits_auto.
  - unfold register_body, io.save_tiff, print. emits_auto.
Qed.

Lemma mean_image_emits bound : preserves (emits_only P) (mean_image_step bound).
Proof. unfold mean_image_step, mean_img_key. destruct bound as [[k y]|]; emits_auto. Qed.

Lemma second_channel_emits paths offsets k mean_img :
  preserves (emits_only P) (second_channel_step K paths offsets k mean_img).
Proof.
  unfold second_channel_step, alternate_loop, for_enumerate, print, meanImg_key.
  emits_auto.
  apply preserves_for_from; [typeclasses eauto | |]; intros.
  - cbn [g_next apply_shifts_to_binary]. unfold replicator_step. emits_auto.
  - unfold shift_body, io.save_tiff. emits_auto.
Qed.

Lemma offset_history_emits offsets : preserves (emits_only P) (offset_history_step offsets).
Proof.
  unfold offset_history_step, history_init, init_history, init_history2, iadd_item.
  emits_auto.
Qed.

Lemma bad_frames_emits : preserves (emits_only P) (bad_frames_step K).
Proof. unfold bad_frames_step, print. emits_auto. Qed.

Lemma compute_crop_emits : preserves (emits_only P) (compute_crop K).
Proof. unfold compute_crop, print. emits_auto. Qed.

Lemma finish_emits raw : preserves (emits_only P) (finish_step raw).
Proof. unfold finish_step. emits_auto. Qed.

Lemma register_dict_given_emits refImg raw :
  refImg ≠ VNone → preserves (emits_only P) (register_dict K refImg raw).
Proof.
  intros Hr. unfold register_dict.
  repeat first
    [ apply make_blocks_emits | apply resolve_nframes_emits | apply check_nframes_emits
    | by apply reference_given_emits | apply register_step_emits
    | apply mean_image_emits | apply second_channel_emits | apply offset_history_emits
    | apply bad_frames_emits | apply compute_crop_emits | apply finish_emits
    | apply preserves_reads; [typeclasses eauto | solve [auto with reads]]
    | apply preserves_bind; [typeclasses eauto | | intros ?] ].
Qed.
End Emits.

Lemma register_dict_given_writes K refImg raw :
  refImg ≠ VNone →
  preserves (writes_within keys_written_given_reference) (register_dict K refImg raw).
Proof.
  intros Hr. unfold register_dict, keys_written_given_reference.
  repeat first
    [ apply preserves_reads; [typeclasses eauto | solve [auto with reads]]
    | eapply preserves_writes_mono;
      [| first [ apply make_blocks_writes | apply resolve_nframes_writes
               | apply check_nframes_reads | by apply reference_given_writes
               | apply register_step_writes | apply mean_image_writes
               | apply second_channel_writes | apply offset_history_writes
               | apply bad_frames_writes | apply compute_crop_writes
               | apply finish_writes ] ];
      notin_keys
    | apply preserves_bind; [typeclasses eauto | | intros ?] ].
Qed.

(** C6. When the caller supplies a reference image, [register_binary]
    never calls [compute_reference_image] and leaves the 'bidiphase'
    entry of the configuration as it found it, whether the run returns
    or raises. *)
Theorem given_reference_skips_estimation K (refImg : val) raw (s s' : session) r :
  refImg ≠ VNone →
  register_dict K refImg raw s = (r, s') →
  config s' !! "bidiphase" = config s !! "bidiphase"
  ∧ emits_only (λ e, ¬ is_reference_event e) s s'.
Proof.
  intros Hr H. split.
  - apply (register_dict_given_writes K refImg raw Hr _ _ _ H). notin_keys.
  - apply (register_dict_given_emits K _ (λ e He, He) refImg raw Hr _ _ _ H).
Qed.

Lemma given_reference_skips_estimation_witness :
  config (snd (register_dict probe_kernels given_reference true seeded_session)) !! "bidiphase"
  = config seeded_session !! "bidiphase"
  ∧ emits_only (λ e, ¬ is_reference_event e) seeded_session
      (snd (register_dict probe_kernels given_reference true seeded_session)).
Proof.
  apply (given_reference_skips_estimation probe_kernels given_reference true seeded_session _
           (fst (register_dict probe_kernels given_reference true seeded_session))).
  - discriminate.
  - apply surjective_pairing.
Defined.

(** ** Streams, frames and batches *)

Lemma frames_of_length px n ws : length (frames_of px n ws) = n.
Proof. revert ws. induction n as [|n IH]; intros ws; simpl; [done | by rewrite IH]. Qed.

Lemma frames_of_add px a n ws :
  frames_of px (a + n) ws = frames_of px a ws ++ frames_of px n (drop (a * px) ws).
Proof.
  revert ws. induction a as [|a IH]; intros ws; simpl; [done|].
  by rewrite IH, drop_drop.
Qed.

Lemma frames_of_take px a N ws :
  (a ≤ N)%nat → take a (frames_of px N ws) = frames_of px a ws.
Proof.
  intros H. replace N with (a + (N - a))%nat by lia.
  rewrite frames_of_add, take_app_length'; [done | by rewrite frames_of_length].
Qed.

Lemma frames_of_batch px a n N ws :
  (a + n ≤ N)%nat →
  frames_of px n (drop (a * px) ws) = take n (drop a (frames_of px N ws)).
Proof.
  intros H.
  rewrite take_drop_commute, frames_of_take by lia.
  rewrite frames_of_add, drop_app_length'; [done | by rewrite frames_of_length].
Qed.

Lemma frames_of_full px n ws :
  (n * px ≤ length ws)%nat → Forall (λ f, length f = px) (frames_of px n ws).
Proof.
  revert ws. induction n as [|n IH]; intros ws H; simpl in *; constructor.
  - rewrite length_take. generalize dependent (n * px)%nat. intros; lia.
  - apply IH. rewrite length_drop. lia.
Qed.

Lemma splice_tail ws pos new :
  (pos ≤ length ws)%nat →
  drop (pos + length new) (splice ws pos new) = drop (pos + length new) ws.
Proof.
  intros H. unfold splice.
  replace (pos - length ws)%nat with 0%nat by lia. simpl.
  rewrite app_assoc. apply drop_app_length'.
  rewrite length_app, length_take. lia.
Qed.

Lemma to_nat_mul a px : 0 ≤ a → Z.to_nat (a * px) = (Z.to_nat a * Z.to_nat px)%nat.
Proof.
  intros Ha. destruct (Z.le_gt_cases 0 px).
  - by apply Z2Nat.inj_mul.
  - replace (Z.to_nat px) with 0%nat by lia. rewrite Nat.mul_0_r. nia.
Qed.

Lemma enough_words (len : nat) n px :
  0 ≤ n → (Z.of_nat len <? n * px) = false → (Z.to_nat n * Z.to_nat px ≤ len)%nat.
Proof.
  intros Hn H. apply Z.ltb_ge in H. rewrite <- to_nat_mul by done. lia.
Qed.

Lemma engine_record_app st l1 l2 :
  engine_record (engine_record st l1) l2 = engine_record st (l1 ++ l2).
Proof.
  unfold engine_record. simpl.
  rewrite !map_app, !foldl_app, !length_app, <- !app_assoc. f_equal. lia.
Qed.

Lemma engine_record_nil st : engine_record st [] = st.
Proof.
  destruct st. unfold engine_record. simpl. rewrite !app_nil_r. f_equal. lia.
Qed.

#[global] Instance same_store_preorder : PreOrder same_store.
Proof.
  split.
  - by intros s.
  - intros s1 s2 s3 [H1 H2] [H3 H4]. split; congruence.
Qed.

Lemma emit_same_store e : preserves same_store (emit e).
Proof. by intros s r s' [= <- <-]. Qed.

Lemma register_body_same_store K k y : preserves same_store (register_body K k y).
Proof.
  unfold register_body, io.save_tiff, print.
  repeat first [apply emit_same_store | preserves_step].
Qed.

Lemma shift_body_same_store K k y : preserves same_store (shift_body K k y).
Proof.
  unfold shift_body, io.save_tiff.
  repeat first [apply emit_same_store | preserves_step].
Qed.

Lemma read_frames_ok_inv p px a n fr s s' :
  read_frames p px a n s = (Ok fr, s') →
  ∃ f, disk s !! p = Some f
       ∧ (Z.of_nat (length (drop (Z.to_nat (a * px)) (n_words f))) <? n * px) = false
       ∧ fr = frames_of (Z.to_nat px) (Z.to_nat n) (drop (Z.to_nat (a * px)) (n_words f))
       ∧ s' = s.
Proof.
  unfold read_frames. destruct (disk s !! p) as [f|]; [|discriminate].
  destruct (_ <? _) eqn:E; [discriminate|]. intros [= <- <-]. eauto.
Qed.

Lemma write_frames_ok_inv p px a fr u s s' :
  write_frames p px a fr s = (Ok u, s') →
  config s' = config s ∧ out s' = out s ∧
  ∃ f, disk s' = <[p := f]> (disk s)
       ∧ n_words f = splice (n_words (default (Node true 0 []) (disk s !! p)))
                       (Z.to_nat (a * px)) (concat fr).
Proof. intros [= _ <-]. simpl. eauto. Qed.

(** One batch of the engine. *)
Lemma engine_step_ok_inv K px masks reg raw st a n s y st' s' :
  engine_step K px masks reg raw st (a, n) s = (Ok (y, st'), s') →
  ∃ v nr f,
    config s !! "nonrigid" = Some v ∧ truthy v = Ok nr
    ∧ disk s !! default reg raw = Some f
    ∧ (Z.of_nat (length (drop (Z.to_nat (a * px)) (n_words f))) <? n * px) = false
    ∧ st' = engine_record st
              (map (register_frame K masks (config s))
                 (frames_of (Z.to_nat px) (Z.to_nat n) (drop (Z.to_nat (a * px)) (n_words f))))
    ∧ reports nr st' y
    ∧ config s' = config s
    ∧ ∃ g, disk s' = <[reg := g]> (disk s)
           ∧ n_words g
             = splice (n_words (default (Node true 0 []) (disk s !! reg)))
                 (Z.to_nat (a * px))
                 (concat (map snd (map (register_frame K masks (config s))
                    (frames_of (Z.to_nat px) (Z.to_nat n)
                       (drop (Z.to_nat (a * px)) (n_words f)))))).
Proof.
  unfold engine_step. cbn [fst snd]. intros H.
  apply bind_ok_inv in H as (nr & s1 & Hnr & H).
  apply test_ok_inv in Hnr as (v & Hv & Hnr & ->).
  apply bind_ok_inv in H as (fr & s1 & Hfr & H).
  apply read_frames_ok_inv in Hfr as (f & Hf & Hlen & -> & ->).
  apply bind_ok_inv in H as (cfg & s1 & Hcfg & H).
  apply gets_ok_inv in Hcfg as [-> ->].
  apply bind_ok_inv in H as ([] & s1 & Hw & H).
  apply write_frames_ok_inv in Hw as (Hc1 & Ho1 & g & Hg & Hwords).
  apply bind_ok_inv in H as ([] & s2 & He & H).
  apply emit_ok_inv in He as ->.
  apply ret_ok_inv in H as [[= -> ->] ->].
  exists v, nr, f. repeat split; try done.
  exists g. split; [done|]. exact Hwords.
Qed.

(** ** The engine's loop *)

Lemma corrected_length K m c px (l : list (list Z)) :
  keeps_geometry K →
  Forall (λ f, length f = px) l →
  length (concat (map snd (map (register_frame K m c) l))) = (length l * px)%nat.
Proof.
  intros Hgeo Hl. induction Hl as [|fr frs Hfr _ IH]; simpl; [done|].
  by rewrite length_app, IH, Hgeo, Hfr.
Qed.

Section EngineLoop.
Context (K : kernels) (px : Z) (masks : val) (reg : string) (raw : option string).
Context (cfg : dict) (vnr : val) (nr : bool) (ws0 : list Z) (N nbatch : Z).
Context (Hgeo : keeps_geometry K) (Hnb : 0 < nbatch).
Context (Hv : cfg !! "nonrigid" = Some vnr) (Hnr : truthy vnr = Ok nr).

Let F := frames_of (Z.to_nat px) (Z.to_nat N) ws0.
Let regf := register_frame K masks cfg.
Let final := engine_record (engine_init px) (map regf F).

Lemma engine_loop_done a st (bound : option (nat * batch_yield)) :
  a = N → 0 < N →
  st = engine_record (engine_init px) (map regf (take (Z.to_nat a) F)) →
  (0 < a → ∃ k0 y0, bound = Some (k0, y0) ∧ reports nr st y0) →
  ∃ k' y', bound = Some (k', y') ∧ reports nr final y'.
Proof.
  intros -> HN Hst Hb. destruct Hb as (k0 & y0 & -> & Hy); [done|].
  exists k0, y0. split; [done|]. subst st.
  rewrite take_ge in Hy; [done|]. unfold F. by rewrite frames_of_length.
Qed.

Lemma engine_loop fuel :
  ∀ a st s k bound res s',
    0 ≤ a ≤ N → (Z.to_nat (N - a) ≤ fuel)%nat →
    config s = cfg →
    tail_intact (default reg raw) (Z.to_nat px) (Z.to_nat a) ws0 s →
    st = engine_record (engine_init px) (map regf (take (Z.to_nat a) F)) →
    (0 < a → ∃ k0 y0, bound = Some (k0, y0) ∧ reports nr st y0) →
    for_from (engine_step K px masks reg raw) (register_body K)
      (batch_ranges fuel nbatch a N) k st bound s = (Ok res, s') →
    0 < N →
    (∃ k' y', res = Some (k', y') ∧ reports nr final y') ∧ config s' = cfg.
Proof.
  induction fuel as [|fuel IH]; intros a st s k bound res s' Ha Hfuel Hcfg Htail Hst Hb H HN.
  - simpl in H. apply ret_ok_inv in H as [-> ->]. split; [|done].
    apply (engine_loop_done a st); auto. lia.
  - simpl in H. destruct ((a <? N) && (0 <? nbatch)) eqn:E.
    2: { apply ret_ok_inv in H as [-> ->]. split; [|done].
         apply (engine_loop_done a st); auto.
         apply andb_false_iff in E as [E|E]; [apply Z.ltb_ge in E | apply Z.ltb_ge in E]; lia. }
    apply andb_true_iff in E as [E _]. apply Z.ltb_lt in E.
    set (n := Z.min nbatch (N - a)) in *.
    assert (0 < n ∧ a + n ≤ N) as [Hn Han] by (subst n; lia).
    cbn [for_from] in H.
    apply bind_ok_inv in H as ([y st'] & s1 & Hstep & H).
    apply bind_ok_inv in H as ([] & s2 & Hbody & H).
    apply engine_step_ok_inv in Hstep
      as (v & nr' & f & Hv' & Hnr' & Hf & Hlen & Hst' & Hy & Hc1 & g & Hd1 & Hg).
    rewrite Hcfg, Hv in Hv'. injection Hv' as <-.
    rewrite Hnr in Hnr'. injection Hnr' as <-.
    destruct (register_body_same_store K _ _ _ _ _ Hbody) as [Hc2 Hd2].
    destruct Htail as (f0 & Hf0 & Htl). rewrite Hf in Hf0. injection Hf0 as <-.
    rewrite to_nat_mul in Hlen, Hst', Hg by lia.
    apply enough_words in Hlen; [|lia].
    rewrite Htl in Hst'.
    rewrite (frames_of_batch _ _ _ (Z.to_nat N)) in Hst' by lia.
    fold F in Hst'. rewrite Hcfg in Hst'. fold regf in Hst'.
    assert (st' = engine_record (engine_init px) (map regf (take (Z.to_nat (a + n)) F)))
      as Hst''.
    { rewrite Hst', Hst, engine_record_app, <- map_app.
      rewrite take_take_drop. do 3 f_equal. lia. }
    eapply (IH (a + n) st' s2 (S k) (Some (k, y)) res s'); try done.
    + lia.
    + lia.
    + congruence.
    + (* the unread tail *)
      assert (length (concat (map snd (map (register_frame K masks (config s))
                (frames_of (Z.to_nat px) (Z.to_nat n)
                   (drop (Z.to_nat a * Z.to_nat px) (n_words f))))))
              = (Z.to_nat n * Z.to_nat px)%nat) as Hnew.
      { rewrite (corrected_length K _ _ (Z.to_nat px)), frames_of_length; [done..|].
        by apply frames_of_full. }
      assert (Z.to_nat (a + n) * Z.to_nat px
              = Z.to_nat a * Z.to_nat px + Z.to_nat n * Z.to_nat px)%nat as Hsplit.
      { replace (Z.to_nat (a + n)) with (Z.to_nat a + Z.to_nat n)%nat by lia. lia. }
      unfold tail_intact. rewrite Hd2, Hd1.
      destruct (decide (default reg raw = reg)) as [Heq|Hne].
      * rewrite Heq, lookup_insert_eq. exists g. split; [done|].
        rewrite Heq in Hf. rewrite Hf in Hg. simpl in Hg.
        rewrite Hg, Hsplit, <- Hnew, splice_tail.
        -- rewrite Hnew, <- !drop_drop. by rewrite Htl.
        -- rewrite length_drop in Hlen.
           destruct (Z.to_nat px) as [|p'] eqn:Ep; [lia|].
           assert (1 ≤ Z.to_nat n)%nat by lia. nia.
      * rewrite lookup_insert_ne by done. exists f. split; [done|].
        rewrite Hsplit, <- !drop_drop. by rewrite Htl.
    + intros _. eauto.
Qed.
End EngineLoop.

Lemma batch_ranges_nil fuel nbatch a N :
  N ≤ a ∨ nbatch ≤ 0 → batch_ranges fuel nbatch a N = [].
Proof.
  intros H. destruct fuel; simpl; [done|].
  destruct ((a <? N) && (0 <? nbatch)) eqn:E; [|done].
  apply andb_true_iff in E as [E1 E2]. apply Z.ltb_lt in E1, E2. lia.
Qed.

(** The loop over the engine's batches: when it leaves its variables
    bound, the last yield reports the engine state reached by
    registering every frame of the input stream, in order. *)
Lemma register_step_ok_inv K ref paths s k y s' :
  keeps_geometry K →
  register_step K ref paths s = (Ok (Some (k, y)), s') →
  ∃ vb nbatch vy Ly vx Lx vn N vnr nr f,
    config s !! "batch_size" = Some vb ∧ as_int vb = Some nbatch
    ∧ config s !! "Ly" = Some vy ∧ as_int vy = Some Ly
    ∧ config s !! "Lx" = Some vx ∧ as_int vx = Some Lx
    ∧ config s !! "nframes" = Some vn ∧ as_int vn = Some N
    ∧ config s !! "nonrigid" = Some vnr ∧ truthy vnr = Ok nr
    ∧ 0 < N
    ∧ disk s !! default (reg_file_align paths) (raw_file_align paths) = Some f
    ∧ reports nr
        (engine_record (engine_init (Ly * Lx))
           (map (register_frame K (masks_of K ref (config s)) (config s))
              (stream_frames (Ly * Lx) N (n_words f))))
        y
    ∧ config s' = config s.
Proof.
  intros Hgeo H. unfold register_step, prepare_refAndMasks in H.
  rewrite bind_assoc, bind_gets, bind_assoc, bind_emit, bind_mret in H.
  set (s1 := Session (config s) (disk s) (out s ++ [PrepareMasks])) in *.
  apply bind_ok_inv in H as (nbatch & s2 & Hb & H).
  apply getint_ok_inv in Hb as (vb & Hvb & Hnb & ->).
  apply bind_ok_inv in H as (Ly & s2 & Hy & H).
  apply getint_ok_inv in Hy as (vy & Hvy & HLy & ->).
  apply bind_ok_inv in H as (Lx & s2 & Hx & H).
  apply getint_ok_inv in Hx as (vx & Hvx & HLx & ->).
  apply bind_ok_inv in H as (N & s2 & Hn & H).
  apply getint_ok_inv in Hn as (vn & Hvn & HN & ->).
  unfold for_enumerate in H. cbn [g_next g_batches g_init register_binary_to_ref] in H.
  destruct (Z.le_gt_cases N 0) as [HN0|HN0].
  { rewrite batch_ranges_nil in H by lia. by apply ret_ok_inv in H as [? _]. }
  destruct (Z.le_gt_cases nbatch 0) as [Hb0|Hb0].
  { rewrite batch_ranges_nil in H by lia. by apply ret_ok_inv in H as [? _]. }
  (* the first batch tells what the engine reads *)
  pose proof H as H1.
  destruct (Z.to_nat N) as [|fuel] eqn:Efuel; [lia|].
  cbn [batch_ranges] in H1.
  replace ((0 <? N) && (0 <? nbatch)) with true in H1
    by (symmetry; apply andb_true_iff; split; apply Z.ltb_lt; lia).
  cbn [for_from] in H1.
  apply bind_ok_inv in H1 as ([y1 st1] & s2 & Hstep & _).
  apply engine_step_ok_inv in Hstep
    as (vnr & nr & f & Hvnr & Hnr & Hf & _).
  rewrite <- Efuel in H.
  eapply (engine_loop K (Ly * Lx) (masks_of K ref (config s)) _ _ (config s) vnr nr
            (n_words f) N nbatch Hgeo Hb0 Hvnr Hnr (Z.to_nat N) 0) in H;
    [ | lia | lia | done | by exists f | by rewrite take_0, engine_record_nil | lia | done ].
  destruct H as [(k' & y' & [= <- <-] & Hy') Hc].
  exists vb, nbatch, vy, Ly, vx, Lx, vn, N, vnr, nr, f.
  repeat split; try done; apply Hy'.
Qed.

(** ** The steps, one by one *)

Lemma resolve_nframes_ok_inv s s' :
  resolve_nframes s = (Ok tt, s') → ∃ n, config s' !! "nframes" = Some (VInt n).
Proof.
  unfold resolve_nframes. intros H. run_inv.
  - match goal with H : py_min _ _ = Ok ?v |- _ =>
      unfold py_min in H; repeat case_match; try discriminate; injection H as <- end.
    eexists. simpl. apply lookup_insert_eq.
  - eexists. simpl. apply lookup_insert_eq.
Qed.

Lemma check_nframes_ok_inv s s' :
  check_nframes s = (Ok tt, s') →
  ∃ v n, config s !! "nframes" = Some v ∧ as_int v = Some n ∧ 50 ≤ n
         ∧ config s' = config s ∧ disk s' = disk s.
Proof.
  unfold check_nframes. intros H.
  apply bind_ok_inv in H as (n & s1 & Hn & H).
  apply getint_ok_inv in Hn as (v & Hv & Hn & ->).
  rewrite bind_print in H.
  erewrite bind_getitem in H by (simpl; exact Hv).
  unfold py_lt in H. rewrite Hn in H. cbn [as_int] in H. rewrite bind_lift_ok in H.
  destruct (n <? 50) eqn:E; [by apply raise_ok_inv in H|].
  apply Z.ltb_ge in E. exists v, n. repeat split; try done.
  - run_inv; done.
  - run_inv; done.
Qed.

Lemma mean_img_key_ext s1 s2 :
  config s1 !! "nchannels" = config s2 !! "nchannels" →
  config s1 !! "functional_chan" = config s2 !! "functional_chan" →
  config s1 !! "align_by_chan" = config s2 !! "align_by_chan" →
  ∀ key, mean_img_key s1 = (Ok key, s1) → mean_img_key s2 = (Ok key, s2).
Proof.
  intros Hn Hf Ha key H. unfold mean_img_key in *.
  apply bind_ok_inv in H as (nch & s & H1 & H).
  apply getitem_ok_inv in H1 as [H1 ->]. rewrite Hn in H1.
  rewrite (bind_getitem _ _ _ _ H1).
  apply bind_ok_inv in H as (single & s & H2 & H).
  apply lift_ok_inv in H2 as [H2 ->]. rewrite H2, bind_lift_ok.
  destruct single.
  - rewrite bind_ret in H |- *. by apply ret_ok_inv in H as [-> _].
  - rewrite !bind_assoc in H |- *.
    apply bind_ok_inv in H as (fc & s & H3 & H).
    apply getitem_ok_inv in H3 as [H3 ->]. rewrite Hf in H3.
    rewrite (bind_getitem _ _ _ _ H3).
    rewrite !bind_assoc in H |- *.
    apply bind_ok_inv in H as (ac & s & H4 & H).
    apply getitem_ok_inv in H4 as [H4 ->]. rewrite Ha in H4.
    rewrite (bind_getitem _ _ _ _ H4).
    apply bind_ok_inv in H as (same & s & H5 & H).
    apply lift_ok_inv in H5 as [H5 ->]. rewrite H5, bind_lift_ok.
    by apply ret_ok_inv in H as [-> _].
Qed.

Lemma mean_image_step_ok_inv bound mean s s' :
  mean_image_step bound s = (Ok mean, s') →
  ∃ k y v n key,
    bound = Some (k, y)
    ∧ config s !! "nframes" = Some v ∧ as_int v = Some n
    ∧ mean_img_key s = (Ok key, s)
    ∧ mean = np.divide (y_sum_img y) n
    ∧ s' = Session (<[key := VArr mean]> (config s)) (disk s) (out s).
Proof.
  unfold mean_image_step. destruct bound as [[k y]|]; [|intros H; by apply raise_ok_inv in H].
  intros H.
  apply bind_ok_inv in H as (n & s1 & Hn & H).
  apply getint_ok_inv in Hn as (v & Hv & Hn & ->).
  apply bind_ok_inv in H as (key & s1 & Hk & H).
  pose proof (reads_mean_img_key _ _ _ Hk) as ->.
  apply bind_ok_inv in H as ([] & s2 & Hset & H).
  apply setitem_ok_inv in Hset as ->.
  apply ret_ok_inv in H as [-> ->].
  exists k, y, v, n, key. repeat split; done.
Qed.

Lemma register_dict_first_loop K refImg raw s s' :
  register_dict K refImg raw s = (Ok tt, s') →
  ∃ bound s5, first_loop K refImg raw s = (Ok bound, s5).
Proof.
  intros H. apply register_dict_phases in H
    as [s1 s2 s3 s4 s5 s6 s7 s8 s9 s10 raw' paths ref bound mean
        H1 H2 H3 H4 H5 H6 H7 H8 H9 H10 H11 H12 H13].
  exists bound, s5. unfold first_loop.
  rewrite (bind_ok _ _ _ _ _ H1), (bind_ok _ _ _ _ _ H2), (bind_ok _ _ _ _ _ H3).
  rewrite (bind_ok _ _ _ _ _ H4), (bind_ok _ _ _ _ _ H5), (bind_ok _ _ _ _ _ H6).
  exact H7.
Qed.

(** Split a run that returned into its steps, with what each step may
    have written. *)
Ltac phases_of H :=
  apply register_dict_phases in H
    as [s1 s2 s3 s4 s5 s6 s7 s8 s9 s10 raw' paths ref bound mean
        H1 H2 H3 H4 H5 H6 H7 H8 H9 H10 H11 H12 H13];
  pose proof (make_blocks_writes _ _ _ _ H1) as W1;
  pose proof (resolve_nframes_writes _ _ _ H2) as W2;
  pose proof (check_nframes_reads _ _ _ H3) as W3;
  pose proof (reference_writes _ _ _ _ _ _ _ H6) as W6;
  pose proof (register_step_writes _ _ _ _ _ _ H7) as W7;
  pose proof (mean_image_writes _ _ _ _ H8) as W8;
  pose proof (second_channel_writes _ _ _ _ _ _ _ _ H9) as W9;
  pose proof (offset_history_writes _ _ _ _ H10) as W10;
  pose proof (bad_frames_writes _ _ _ _ H11) as W11;
  pose proof (compute_crop_writes _ _ _ _ H12) as W12;
  pose proof (finish_writes _ _ _ _ H13) as W13.

(** Follow an entry of the configuration back through the steps that
    cannot have written it. *)
Ltac back_through :=
  repeat match goal with
  | W : writes_within _ ?a ?b |- context [config ?b !! ?k] =>
      rewrite (W k) by notin_keys
  end.

(** The frame count is fixed once it is resolved and checked. *)
Lemma phases_nframes K refImg raw s s' :
  register_dict K refImg raw s = (Ok tt, s') →
  ∃ n, 50 ≤ n ∧ config s' !! "nframes" = Some (VInt n).
Proof.
  intros H. phases_of H.
  apply resolve_nframes_ok_inv in H2 as (n & Hn).
  apply check_nframes_ok_inv in H3 as (v & n' & Hv & Hn' & Hge & _).
  rewrite Hn in Hv. injection Hv as <-. injection Hn' as <-.
  exists n. split; [done|]. back_through. exact Hn.
Qed.

(** ** The mean image of the alignment channel *)

(** C4. The mean image of the alignment channel in the returned
    configuration is the running sum image of the engine's last yield
    divided by the resolved frame count; it is stored under the key that
    line 106 selects. *)
Theorem alignment_mean_image K refImg raw (s s' : session) :
  register_dict K refImg raw s = (Ok tt, s') →
  ∃ n key k y s5,
    first_loop K refImg raw s = (Ok (Some (k, y)), s5)
    ∧ config s' !! "nframes" = Some (VInt n) ∧ 50 ≤ n
    ∧ mean_img_key s' = (Ok key, s')
    ∧ config s' !! key = Some (VArr (np.divide (y_sum_img y) n)).
Proof.
  intros H.
  destruct (phases_nframes _ _ _ _ _ H) as (n & Hge & Hn).
  destruct (register_dict_first_loop _ _ _ _ _ H) as (bound0 & s50 & Hloop).
  phases_of H.
  assert (bound0 = bound ∧ s50 = s5) as [-> ->].
  { unfold first_loop in Hloop.
    rewrite (bind_ok _ _ _ _ _ H1), (bind_ok _ _ _ _ _ H2), (bind_ok _ _ _ _ _ H3) in Hloop.
    rewrite (bind_ok _ _ _ _ _ H4), (bind_ok _ _ _ _ _ H5), (bind_ok _ _ _ _ _ H6) in Hloop.
    rewrite H7 in Hloop. by injection Hloop as <- <-. }
  apply mean_image_step_ok_inv in H8 as (k & y & v & n' & key & -> & Hv & Hn' & Hkey & -> & Hs6).
  assert (n' = n) as ->.
  { assert (config s5 !! "nframes" = config s' !! "nframes") as E.
    { symmetry. back_through. reflexivity. }
    rewrite E, Hn in Hv. injection Hv as <-. by injection Hn' as <-. }
  exists n, key, k, y, s5. repeat split; try done.
  - apply (mean_img_key_ext s5 s'); [| | | done]; symmetry; back_through; reflexivity.
  - pose proof (mean_img_key_returns _ _ _ Hkey) as Hin.
    assert (config s6 !! key = Some (VArr (np.divide (y_sum_img y) n))) as E.
    { rewrite Hs6. simpl. apply lookup_insert_eq. }
    rewrite <- E.
    apply elem_of_cons in Hin as [->|Hin];
      [| apply elem_of_cons in Hin as [->|Hin]; [| by apply elem_of_nil in Hin] ];
      back_through; reflexivity.
Qed.

Lemma alignment_mean_image_witness :
  ∃ n key k y s5,
    first_loop probe_kernels VNone true base_session = (Ok (Some (k, y)), s5)
    ∧ config (snd (register_dict probe_kernels VNone true base_session)) !! "nframes"
      = Some (VInt n) ∧ 50 ≤ n
    ∧ mean_img_key (snd (register_dict probe_kernels VNone true base_session))
      = (Ok key, snd (register_dict probe_kernels VNone true base_session))
    ∧ config (snd (register_dict probe_kernels VNone true base_session)) !! key
      = Some (VArr (np.divide (y_sum_img y) n)).
Proof.
  apply (alignment_mean_image probe_kernels VNone true base_session).
  vm_compute; reflexivity.
Defined.

(** ** The alternate channel *)

Lemma writes_within_nil s s' : writes_within [] s s' → config s' = config s.
Proof. intros H. apply map_eq. intros k. apply H. apply not_elem_of_nil. Qed.

Lemma alternate_loop_keeps K paths offsets k mean :
  preserves (writes_within []) (alternate_loop K paths offsets k mean).
Proof.
  unfold alternate_loop, for_enumerate. preserves_auto.
  apply preserves_for_from; [typeclasses eauto | |]; intros.
  - apply replicator_step_reads.
  - apply shift_body_reads.
Qed.

Lemma meanImg_key_ok_inv key s s' :
  meanImg_key s = (Ok key, s') →
  ∃ fc ac same,
    config s !! "functional_chan" = Some fc ∧ config s !! "align_by_chan" = Some ac
    ∧ py_eq fc ac = Ok same
    ∧ key = (if same then "meanImg_chan2" else "meanImag") ∧ s' = s.
Proof.
  unfold meanImg_key. intros H.
  apply bind_ok_inv in H as (fc & s1 & H1 & H). apply getitem_ok_inv in H1 as [H1 ->].
  apply bind_ok_inv in H as (ac & s1 & H2 & H). apply getitem_ok_inv in H2 as [H2 ->].
  apply bind_ok_inv in H as (same & s1 & H3 & H). apply lift_ok_inv in H3 as [H3 ->].
  apply ret_ok_inv in H as [-> ->]. by exists fc, ac, same.
Qed.

Lemma mean_img_key_ok_inv key s s' :
  mean_img_key s = (Ok key, s') →
  ∃ nch single,
    config s !! "nchannels" = Some nch ∧ py_eq nch (VInt 1) = Ok single
    ∧ (if single then key = "meanImg"
       else ∃ fc ac same,
           config s !! "functional_chan" = Some fc ∧ config s !! "align_by_chan" = Some ac
           ∧ py_eq fc ac = Ok same
           ∧ key = (if same then "meanImg" else "meanImage_chan2")).
Proof.
  unfold mean_img_key. intros H.
  apply bind_ok_inv in H as (nch & s1 & H1 & H). apply getitem_ok_inv in H1 as [H1 ->].
  apply bind_ok_inv in H as (single & s1 & H2 & H). apply lift_ok_inv in H2 as [H2 ->].
  exists nch, single. split; [done|]. split; [done|].
  destruct single.
  - rewrite bind_ret in H. by apply ret_ok_inv in H as [-> _].
  - rewrite !bind_assoc in H.
    apply bind_ok_inv in H as (fc & s1 & H3 & H). apply getitem_ok_inv in H3 as [H3 ->].
    rewrite !bind_assoc in H.
    apply bind_ok_inv in H as (ac & s1 & H4 & H). apply getitem_ok_inv in H4 as [H4 ->].
    apply bind_ok_inv in H as (same & s1 & H5 & H). apply lift_ok_inv in H5 as [H5 ->].
    apply ret_ok_inv in H as [-> _]. by exists fc, ac, same.
Qed.

(** Line 140 stores the image left by the second loop divided by the
    number of batches the loop went through. *)
Lemma second_channel_step_ok_inv K paths offsets k mean s s' :
  second_channel_step K paths offsets k mean s = (Ok tt, s') →
  ∃ nch multi,
    config s !! "nchannels" = Some nch ∧ py_lt (VInt 1) nch = Ok multi
    ∧ if multi : bool then
        ∃ k2 m2 sl fc ac same,
          alternate_loop K paths offsets k mean s = (Ok (k2, m2), sl)
          ∧ config s !! "functional_chan" = Some fc
          ∧ config s !! "align_by_chan" = Some ac
          ∧ py_eq fc ac = Ok same
          ∧ config s'
            = <[(if same then "meanImg_chan2" else "meanImag")
                := VArr (np.divide m2 (Z.of_nat k2 + 1))]> (config s)
      else s' = s.
Proof.
  unfold second_channel_step. intros H.
  apply bind_ok_inv in H as (nch & s1 & H1 & H). apply getitem_ok_inv in H1 as [H1 ->].
  apply bind_ok_inv in H as (multi & s1 & H2 & H). apply lift_ok_inv in H2 as [H2 ->].
  exists nch, multi. split; [done|]. split; [done|].
  destruct multi; [|by apply ret_ok_inv in H as [_ ->]].
  apply bind_ok_inv in H as ([k2 m2] & sl & Hloop & H).
  pose proof (writes_within_nil _ _ (alternate_loop_keeps _ _ _ _ _ _ _ _ Hloop)) as Hc.
  rewrite bind_print in H.
  apply bind_ok_inv in H as (key & s2 & Hkey & H).
  apply meanImg_key_ok_inv in Hkey as (fc & ac & same & Hfc & Hac & Hsame & -> & ->).
  apply setitem_ok_inv in H as ->. simpl in *.
  exists k2, m2, sl, fc, ac, same. rewrite Hc in Hfc, Hac. rewrite Hc. done.
Qed.

Lemma py_lt_one_not_single nch : py_lt (VInt 1) nch = Ok true → py_eq nch (VInt 1) = Ok false.
Proof.
  unfold py_lt, py_eq. cbn [as_int].
  destruct nch; cbn; try discriminate; intros [= H]; f_equal.
  - destruct b; cbn in *; [done..].
  - apply Z.ltb_lt in H. apply Z.eqb_neq. lia.
Qed.

(** ** The keys of the two mean images *)

(** C10. On more than one channel, when the functional channel is not
    the alignment channel, the mean image of the alignment channel is
    stored under 'meanImage_chan2' and that of the alternate channel
    under 'meanImag'; 'meanImg' and 'meanImg_chan2' are left as they
    were.  When the two channels coincide the keys are 'meanImg' and
    'meanImg_chan2', and the other two are left as they were. *)
Theorem mean_image_keys K refImg raw (s s' : session) (nch fc ac : val) (same : bool) :
  register_dict K refImg raw s = (Ok tt, s') →
  config s !! "nchannels" = Some nch →
  py_lt (VInt 1) nch = Ok true →
  config s !! "functional_chan" = Some fc →
  config s !! "align_by_chan" = Some ac →
  py_eq fc ac = Ok same →
  ∃ n k y s5 paths s6 k2 m2 sl,
    first_loop K refImg raw s = (Ok (Some (k, y)), s5)
    ∧ config s' !! "nframes" = Some (VInt n)
    ∧ alternate_loop K paths (y_offsets y) k (np.divide (y_sum_img y) n) s6
      = (Ok (k2, m2), sl)
    ∧ if same then
        config s' !! "meanImg" = Some (VArr (np.divide (y_sum_img y) n))
        ∧ config s' !! "meanImg_chan2" = Some (VArr (np.divide m2 (Z.of_nat k2 + 1)))
        ∧ config s' !! "meanImage_chan2" = config s !! "meanImage_chan2"
        ∧ config s' !! "meanImag" = config s !! "meanImag"
      else
        config s' !! "meanImage_chan2" = Some (VArr (np.divide (y_sum_img y) n))
        ∧ config s' !! "meanImag" = Some (VArr (np.divide m2 (Z.of_nat k2 + 1)))
        ∧ config s' !! "meanImg" = config s !! "meanImg"
        ∧ config s' !! "meanImg_chan2" = config s !! "meanImg_chan2".
Proof.
  intros H Hnch Hmulti Hfc Hac Hsame.
  destruct (phases_nframes _ _ _ _ _ H) as (n & Hge & Hn).
  destruct (register_dict_first_loop _ _ _ _ _ H) as (bound0 & s50 & Hloop).
  phases_of H.
  assert (bound0 = bound ∧ s50 = s5) as [-> ->].
  { unfold first_loop in Hloop.
    rewrite (bind_ok _ _ _ _ _ H1), (bind_ok _ _ _ _ _ H2), (bind_ok _ _ _ _ _ H3) in Hloop.
    rewrite (bind_ok _ _ _ _ _ H4), (bind_ok _ _ _ _ _ H5), (bind_ok _ _ _ _ _ H6) in Hloop.
    rewrite H7 in Hloop. by injection Hloop as <- <-. }
  assert (config s5 !! "nchannels" = Some nch) as Hnch5
    by (back_through; exact Hnch).
  assert (config s5 !! "functional_chan" = Some fc) as Hfc5
    by (back_through; exact Hfc).
  assert (config s5 !! "align_by_chan" = Some ac) as Hac5
    by (back_through; exact Hac).
  assert (config s5 !! "nframes" = Some (VInt n)) as Hn5.
  { rewrite <- Hn. symmetry. back_through. reflexivity. }
  apply mean_image_step_ok_inv in H8
    as (k & y & v & n' & key & -> & Hv & Hn' & Hkey & -> & Hs6).
  rewrite Hn5 in Hv. injection Hv as <-. injection Hn' as <-.
  apply mean_img_key_ok_inv in Hkey as (nch' & single & Hnch' & Hsingle & Hkey).
  rewrite Hnch5 in Hnch'. injection Hnch' as <-.
  rewrite (py_lt_one_not_single _ Hmulti) in Hsingle. injection Hsingle as <-.
  destruct Hkey as (fc' & ac' & same' & Hfc' & Hac' & Hsame' & ->).
  rewrite Hfc5 in Hfc'. injection Hfc' as <-.
  rewrite Hac5 in Hac'. injection Hac' as <-.
  rewrite Hsame in Hsame'. injection Hsame' as <-.
  assert (config s6 = <[(if same then "meanImg" else "meanImage_chan2")
                        := VArr (np.divide (y_sum_img y) n)]> (config s5)) as E6
    by (by rewrite Hs6).
  clear Hs6.
  apply second_channel_step_ok_inv in H9 as (nch' & multi & Hnch6 & Hmulti' & H9).
  assert (config s6 !! "nchannels" = Some nch) as Hnch6'.
  { rewrite E6. destruct same; by rewrite lookup_insert_ne. }
  rewrite Hnch6' in Hnch6. injection Hnch6 as <-.
  rewrite Hmulti in Hmulti'. injection Hmulti' as <-.
  destruct H9 as (k2 & m2 & sl & fc' & ac' & same' & Halt & Hfc6 & Hac6 & Hsame6 & E7).
  assert (config s6 !! "functional_chan" = Some fc) as Hfc6'.
  { rewrite E6. destruct same; by rewrite lookup_insert_ne. }
  assert (config s6 !! "align_by_chan" = Some ac) as Hac6'.
  { rewrite E6. destruct same; by rewrite lookup_insert_ne. }
  rewrite Hfc6' in Hfc6. injection Hfc6 as <-.
  rewrite Hac6' in Hac6. injection Hac6 as <-.
  rewrite Hsame in Hsame6. injection Hsame6 as <-.
  exists n, k, y, s5, paths, s6, k2, m2, sl.
  split; [done|]. split; [done|]. split; [exact Halt|].
  assert (∀ key, key ∈ ["meanImg"; "meanImg_chan2"; "meanImage_chan2"; "meanImag"] →
                 config s' !! key = config s7 !! key) as Hfwd.
  { intros key Hk.
    repeat (apply elem_of_cons in Hk as [->|Hk];
            [rewrite (W13 _), (W12 _), (W11 _), (W10 _) by notin_keys; reflexivity|]).
    by apply elem_of_nil in Hk. }
  assert (∀ key, key ∈ ["meanImg"; "meanImg_chan2"; "meanImage_chan2"; "meanImag"] →
                 config s5 !! key = config s !! key) as Hbwd.
  { intros key Hk.
    repeat (apply elem_of_cons in Hk as [->|Hk];
            [rewrite (W7 _), (W6 _), (W3 _), (W2 _), (W1 _) by notin_keys; reflexivity|]).
    by apply elem_of_nil in Hk. }
  destruct same; repeat split.
  all: rewrite Hfwd by (repeat constructor).
  all: rewrite E7, E6.
  all: repeat first [rewrite lookup_insert_eq | rewrite lookup_insert_ne by done].
  all: try reflexivity.
  all: apply Hbwd; repeat constructor.
Qed.

Lemma mean_image_keys_witness :
  ∃ n k y s5 paths s6 k2 m2 sl,
    first_loop probe_kernels VNone true swapped_session = (Ok (Some (k, y)), s5)
    ∧ config (snd (register_dict probe_kernels VNone true swapped_session)) !! "nframes"
      = Some (VInt n)
    ∧ alternate_loop probe_kernels paths (y_offsets y) k (np.divide (y_sum_img y) n) s6
      = (Ok (k2, m2), sl)
    ∧ config (snd (register_dict probe_kernels VNone true swapped_session)) !! "meanImage_chan2"
      = Some (VArr (np.divide (y_sum_img y) n))
    ∧ config (snd (register_dict probe_kernels VNone true swapped_session)) !! "meanImag"
      = Some (VArr (np.divide m2 (Z.of_nat k2 + 1)))
    ∧ config (snd (register_dict probe_kernels VNone true swapped_session)) !! "meanImg"
      = config swapped_session !! "meanImg"
    ∧ config (snd (register_dict probe_kernels VNone true swapped_session)) !! "meanImg_chan2"
      = config swapped_session !! "meanImg_chan2".
Proof.
  apply (mean_image_keys probe_kernels VNone true swapped_session _
           (VInt 2) (VInt 1) (VInt 2) false).
  - vm_compute; reflexivity.
  - vm_compute; reflexivity.
  - vm_compute; reflexivity.
  - vm_compute; reflexivity.
  - vm_compute; reflexivity.
  - vm_compute; reflexivity.
Defined.

(** C3. On the two-channel sample session the run returns, and the
    image it stores for the alternate channel is the replicator's last
    yield divided by the number of batches (two): 10 per pixel, where
    the sum of the channel's frames divided by the frame count is 20. *)
Theorem alternate_mean_divided_by_batches :
  ∃ s' m c,
    register_dict probe_kernels VNone true two_channel_session = (Ok tt, s')
    ∧ config s' !! "nframes" = Some (VInt 50)
    ∧ config s' !! "meanImg_chan2" = Some (VArr [m])
    ∧ mean_of_frames 1 50 (stream_frames 1 50 alternate_movie) = [c]
    ∧ (m == 10)%Q ∧ (c == 20)%Q ∧ ¬ (m == c)%Q.
Proof.
  eexists _, _, _. split; [vm_compute; reflexivity|].
  split; [vm_compute; reflexivity|].
  split; [vm_compute; reflexivity|].
  split; [vm_compute; reflexivity|].
  split; [reflexivity|]. split; [reflexivity|]. discriminate.
Qed.

(** ** The bidiphase-corrected flag *)

Lemma resolve_raw_ext raw s1 s2 :
  config s1 !! "keep_movie_raw" = config s2 !! "keep_movie_raw" →
  config s1 !! "raw_file" = config s2 !! "raw_file" →
  disk s1 = disk s2 →
  ∀ b, resolve_raw raw s1 = (Ok b, s1) → resolve_raw raw s2 = (Ok b, s2).
Proof.
  intros Hk Hf Hd b H. unfold resolve_raw in *. destruct raw; [|by apply ret_ok_inv in H as [-> _]].
  rewrite bind_contains in H |- *. rewrite <- Hk.
  destruct (bool_decide (is_Some (config s1 !! "keep_movie_raw"))); [|by apply ret_ok_inv in H as [-> _]].
  apply bind_ok_inv in H as (keep & s & H1 & H).
  apply test_ok_inv in H1 as (v & Hv & Hkeep & ->). rewrite Hk in Hv.
  rewrite (bind_test _ _ _ _ _ Hv Hkeep).
  destruct keep; [|by apply ret_ok_inv in H as [-> _]].
  rewrite bind_contains in H |- *. rewrite <- Hf.
  destruct (bool_decide (is_Some (config s1 !! "raw_file"))); [|by apply ret_ok_inv in H as [-> _]].
  apply bind_ok_inv in H as (p & s & H2 & H).
  apply getitem_ok_inv in H2 as [H2 ->]. rewrite Hf in H2.
  rewrite (bind_getitem _ _ _ _ H2).
  apply bind_ok_inv in H as (p' & s & H3 & H).
  apply lift_ok_inv in H3 as [H3 ->]. rewrite H3, bind_lift_ok.
  apply isfile_ok_inv in H as [-> _]. unfold path.isfile. by rewrite Hd.
Qed.

Lemma finish_step_ok_inv raw s s' :
  finish_step raw s = (Ok tt, s') →
  config s' = (if raw then config s else <["bidi_corrected" := VBool true]> (config s))
  ∧ disk s' = disk s.
Proof.
  unfold finish_step. intros H. destruct raw; cbn [negb] in H.
  - rewrite bind_ret, bind_contains in H.
    destruct (bool_decide _); [|by apply ret_ok_inv in H as [_ ->]].
    apply bind_ok_inv in H as (p & s1 & H1 & H). apply getitem_ok_inv in H1 as [_ ->].
    by apply save_ok_inv in H as ->.
  - rewrite bind_setitem, bind_contains in H.
    destruct (bool_decide _); [|by apply ret_ok_inv in H as [_ ->]].
    apply bind_ok_inv in H as (p & s1 & H1 & H). apply getitem_ok_inv in H1 as [_ ->].
    by apply save_ok_inv in H as ->.
Qed.

(** C8, as the code has it.  A run that returns marks the session as
    bidiphase-corrected when it registered the processed stream (the raw
    stream was not asked for, not kept, or not there); when it
    registered the raw stream it leaves the flag as it found it. *)
Theorem bidi_corrected_after_run K refImg raw (s s' : session) (use_raw : bool) :
  register_dict K refImg raw s = (Ok tt, s') →
  resolve_raw raw s = (Ok use_raw, s) →
  if use_raw then config s' !! "bidi_corrected" = config s !! "bidi_corrected"
  else config s' !! "bidi_corrected" = Some (VBool true).
Proof.
  intros H Hraw. phases_of H.
  destruct (make_blocks_same_world K _ _ _ H1) as [Hd1 _].
  destruct (resolve_nframes_same_world _ _ _ H2) as [Hd2 _].
  apply check_nframes_ok_inv in H3 as (_ & _ & _ & _ & _ & Hc3 & Hd3).
  assert (resolve_raw raw s3 = (Ok use_raw, s3)) as Hraw3.
  { apply (resolve_raw_ext raw s s3); [| | congruence | done].
    - symmetry. back_through. reflexivity.
    - symmetry. back_through. reflexivity. }
  rewrite Hraw3 in H4. injection H4 as <-.
  apply finish_step_ok_inv in H13 as [Hc13 _]. rewrite Hc13.
  destruct use_raw.
  - back_through. reflexivity.
  - apply lookup_insert_eq.
Qed.

Lemma bidi_corrected_after_run_witness :
  config (snd (register_dict probe_kernels VNone true raw_session)) !! "bidi_corrected"
  = config raw_session !! "bidi_corrected"
  ∧ config (snd (register_dict probe_kernels VNone true base_session)) !! "bidi_corrected"
    = Some (VBool true).
Proof.
  assert (register_dict probe_kernels VNone true raw_session
          = (Ok tt, snd (register_dict probe_kernels VNone true raw_session))) as R1
    by (vm_compute; reflexivity).
  assert (resolve_raw true raw_session = (Ok true, raw_session)) as R2
    by (vm_compute; reflexivity).
  assert (register_dict probe_kernels VNone true base_session
          = (Ok tt, snd (register_dict probe_kernels VNone true base_session))) as R3
    by (vm_compute; reflexivity).
  assert (resolve_raw true base_session = (Ok false, base_session)) as R4
    by (vm_compute; reflexivity).
  exact (conj (bidi_corrected_after_run _ _ _ _ _ true R1 R2)
              (bidi_corrected_after_run _ _ _ _ _ false R3 R4)).
Defined.

(** C8, as stated, fails: the sample session that keeps its raw movie
    runs to completion and its flag is still false. *)
Lemma bidi_corrected_not_always_set :
  ¬ (∀ K refImg raw (s s' : session),
       register_dict K refImg raw s = (Ok tt, s') →
       config s' !! "bidi_corrected" = Some (VBool true)).
Proof.
  intros H.
  specialize (H probe_kernels VNone true raw_session
                (snd (register_dict probe_kernels VNone true raw_session))).
  assert (register_dict probe_kernels VNone true raw_session
          = (Ok tt, snd (register_dict probe_kernels VNone true raw_session))) as Hrun
    by (vm_compute; reflexivity).
  specialize (H Hrun).
  assert (config (snd (register_dict probe_kernels VNone true raw_session)) !! "bidi_corrected"
          = Some (VBool false)) as E by (vm_compute; reflexivity).
  rewrite E in H. clear Hrun E. discriminate H.
Qed.

(** ** A list of configurations *)

Lemma register_each_for_each K items :
  ∀ w,
    (fix each (l : list pyobj) : M world unit :=
       match l with
       | [] => ret tt
       | op :: l' => register_binary K op VNone true;; each l'
       end) items w
    = for_each (λ op, register_binary K op VNone true) items w.
Proof.
  induction items as [|op items IH]; intros w; [done|].
  cbn [for_each]. unfold mbind, M_bind, bind.
  destruct (register_binary K op VNone true w) as [[r|e] w1]; [apply IH | done].
Qed.

Lemma bind_ext_l {S A B} (m1 m2 : M S A) (f : A → M S B) s :
  (∀ s, m1 s = m2 s) → (m1 ≫= f) s = (m2 ≫= f) s.
Proof. intros H. unfold mbind, M_bind, bind. by rewrite H. Qed.


Example register_list_run :
  let w := World (list_to_map [(0%nat, base_config); (1%nat, base_config)]) base_disk [] in
  let ops := Seq PyList 7 [Dict 0; Dict 1] in
  let rw := register_binary probe_kernels ops given_reference false w in
  fst rw = Ok ops
  ∧ reference_calls (w_out (snd rw)) = 2%nat
  ∧ (heap (snd rw) !! 1%nat) ≫= (λ d, d !! "nframes") = Some (VInt 50).
Proof. vm_compute. repeat split; reflexivity. Qed.

(** ** The bad-frame mask *)

#[global] Instance same_disk_preorder : PreOrder same_disk.
Proof. split; [by intros s | intros s1 s2 s3 H1 H2; unfold same_disk in *; congruence]. Qed.

Lemma setitem_same_disk k v : preserves same_disk (setitem k v).
Proof. by intros s r s' [= <- <-]. Qed.

Lemma emit_same_disk e : preserves same_disk (emit e).
Proof. by intros s r s' [= <- <-]. Qed.

Lemma save_same_disk p : preserves same_disk (np.save p).
Proof. by intros s r s' [= <- <-]. Qed.

Ltac same_disk_auto :=
  repeat first [ apply setitem_same_disk | apply emit_same_disk | apply save_same_disk
               | preserves_step ].

Lemma compute_crop_same_disk K : preserves same_disk (compute_crop K).
Proof. unfold compute_crop, print. same_disk_auto. Qed.

Lemma finish_same_disk raw : preserves same_disk (finish_step raw).
Proof. unfold finish_step. same_disk_auto. Qed.

Lemma bad_frames_same_disk K : preserves same_disk (bad_frames_step K).
Proof. unfold bad_frames_step, print. same_disk_auto. Qed.

Lemma index_lt n i j : np.index n i = Some j → (j < n)%nat.
Proof.
  unfold np.index. repeat case_match; intros [= <-]; lia.
Qed.

Lemma index_nonneg n i j : 0 ≤ i → np.index n i = Some j → j = Z.to_nat i.
Proof.
  unfold np.index. repeat case_match; intros Hi [= <-]; lia.
Qed.

Lemma index_of_nat n j : (j < n)%nat → np.index n (Z.of_nat j) = Some j.
Proof.
  intros H. unfold np.index.
  destruct ((0 <=? Z.of_nat j) && (Z.of_nat j <? Z.of_nat n)) eqn:E.
  - f_equal. lia.
  - apply andb_false_iff in E as [E|E]; [apply Z.leb_gt in E | apply Z.ltb_ge in E]; lia.
Qed.

Lemma foldl_set_true (js : list nat) :
  ∀ (m : list bool) j,
    foldl (λ m j, <[j := true]> m) m js !! j = Some true
    ↔ m !! j = Some true ∨ (j ∈ js ∧ (j < length m)%nat).
Proof.
  induction js as [|j0 js IH]; intros m j; simpl.
  - split; [auto | intros [H|[H _]]; [done | by apply elem_of_nil in H]].
  - rewrite IH, length_insert. split.
    + intros [H|[H Hlt]].
      * destruct (decide (j0 = j)) as [->|Hne].
        -- right. split; [left|]. by apply lookup_lt_Some in H; rewrite length_insert in H.
        -- rewrite list_lookup_insert_ne in H by done. by left.
      * right. split; [by right | done].
    + intros [H|[H Hlt]].
      * destruct (decide (j0 = j)) as [->|Hne].
        -- left. apply list_lookup_insert_eq. by apply lookup_lt_Some in H.
        -- left. by rewrite list_lookup_insert_ne.
      * apply elem_of_cons in H as [->|H].
        -- left. by apply list_lookup_insert_eq.
        -- right. done.
Qed.

Lemma foldl_set_true_length (js : list nat) :
  ∀ m : list bool, length (foldl (λ m j, <[j := true]> m) m js) = length m.
Proof.
  induction js as [|j0 js IH]; intros m; simpl; [done|]. by rewrite IH, length_insert.
Qed.

(** [mask[idx] = True] sets exactly the positions the indices address. *)
Lemma put_true_spec (m mask : list bool) (idx : list Z) :
  np.put_true m idx = Ok mask →
  length mask = length m
  ∧ (∀ i, i ∈ idx → is_Some (np.index (length m) i))
  ∧ ∀ j, mask !! j = Some true
         ↔ m !! j = Some true ∨ ∃ i, i ∈ idx ∧ np.index (length m) i = Some j.
Proof.
  unfold np.put_true. destruct (mapM _ idx) as [js|] eqn:E; [|discriminate].
  intros [= <-]. split; [apply foldl_set_true_length|].
  apply mapM_Some in E. split.
  { intros i Hin. apply list_elem_of_lookup in Hin as (p & Hp).
    destruct (Forall2_lookup_l _ _ _ _ _ E Hp) as (j' & _ & Hij'). eauto. }
  intros j. rewrite foldl_set_true.
  split; (intros [H|H]; [by left | right]).
  - destruct H as [Hin _].
    apply list_elem_of_lookup in Hin as (p & Hp).
    destruct (Forall2_lookup_r _ _ _ _ _ E Hp) as (i & Hi & Hij).
    exists i. split; [|done]. apply list_elem_of_lookup. eauto.
  - destruct H as (i & Hin & Hij).
    apply list_elem_of_lookup in Hin as (p & Hp).
    destruct (Forall2_lookup_l _ _ _ _ _ E Hp) as (j' & Hj' & Hij').
    rewrite Hij in Hij'. injection Hij' as <-.
    split; [| by eapply index_lt]. apply list_elem_of_lookup. eauto.
Qed.

Lemma zeros_bool_ok_inv n z : np.zeros_bool n = Ok z → 0 ≤ n ∧ z = replicate (Z.to_nat n) false.
Proof.
  unfold np.zeros_bool. destruct (n <? 0) eqn:E; [discriminate|].
  apply Z.ltb_ge in E. by intros [= <-].
Qed.

Lemma first_path_len dp d : first_path dp = Ok d → ∃ n, py_len dp = Ok n ∧ 0 < n.
Proof.
  destruct dp as [| | |[|c t]| | | |[|p l]|]; try discriminate; intros _; simpl;
    eexists; (split; [reflexivity | lia]).
Qed.

(** The bad-frame step: an all-false mask of [nframes] entries, with the
    listed indices set when the override file is there. *)
Lemma bad_frames_step_ok_inv K s s' :
  bad_frames_step K s = (Ok tt, s') →
  ∃ v n mask,
    config s !! "nframes" = Some v ∧ as_int v = Some n ∧ 0 ≤ n
    ∧ config s' = <["badframes" := VBoolArr mask]> (config s)
    ∧ match override_indices K s with
      | None => mask = replicate (Z.to_nat n) false
      | Some idx => np.put_true (replicate (Z.to_nat n) false) idx = Ok mask
      end.
Proof.
  unfold bad_frames_step. intros H.
  apply bind_ok_inv in H as (n & s1 & Hn & H).
  apply getint_ok_inv in Hn as (v & Hv & Hn & ->).
  apply bind_ok_inv in H as (z & s1 & Hz & H).
  apply lift_ok_inv in Hz as [Hz ->]. apply zeros_bool_ok_inv in Hz as [Hn0 ->].
  rewrite bind_setitem, bind_contains in H. cbn [config] in H.
  exists v, n. unfold override_indices.
  rewrite lookup_insert_ne in H by done.
  destruct (config s !! "data_path") as [dp|] eqn:Edp; cbn [bool_decide decide_rel] in H |- *.
  2: { rewrite bool_decide_eq_false_2 in H by (by intros [? ?]).
       rewrite bind_ret in H. apply ret_ok_inv in H as [_ ->].
       eexists. repeat split; try done. }
  rewrite bool_decide_eq_true_2 in H by eauto.
  rewrite !bind_assoc in H.
  erewrite bind_getitem in H by (simpl; rewrite lookup_insert_ne by done; exact Edp).
  rewrite !bind_assoc in H.
  apply bind_ok_inv in H as (len & s1 & Hlen & H).
  apply lift_ok_inv in Hlen as [Hlen ->].
  rewrite bind_ret in H.
  destruct (0 <? len) eqn:Epos.
  2: { apply ret_ok_inv in H as [_ ->]. apply Z.ltb_ge in Epos.
       exists (replicate (Z.to_nat n) false). repeat split; try done.
       simpl. destruct (first_path dp) as [d|e] eqn:Ed; [|done].
       apply first_path_len in Ed as (len' & Hlen' & Hpos).
       rewrite Hlen in Hlen'. injection Hlen' as <-. lia. }
  erewrite bind_getitem in H by (simpl; rewrite lookup_insert_ne by done; exact Edp).
  apply bind_ok_inv in H as (d & s1 & Hd & H).
  apply lift_ok_inv in Hd as [Hd ->]. simpl. rewrite Hd. simpl.
  rewrite bind_print in H.
  apply bind_ok_inv in H as (isf & s1 & Hisf & H).
  apply isfile_ok_inv in Hisf as [-> ->]. cbn [disk] in H.
  destruct (disk s !! abspath K (path.join d "bad_frames.npy")) as [f|] eqn:Ef; simpl in H |- *.
  2: { apply ret_ok_inv in H as [_ ->]. eexists. repeat split; try done. }
  destruct (n_isfile f).
  2: { apply ret_ok_inv in H as [_ ->]. eexists. repeat split; try done. }
  apply bind_ok_inv in H as (idx & s1 & Hidx & H).
  apply load_ok_inv in Hidx as [(f' & Hf' & ->) ->]. cbn [disk] in Hf'.
  rewrite Ef in Hf'. injection Hf' as <-.
  erewrite bind_getitem in H by (simpl; apply lookup_insert_eq).
  cbn [mask_of] in H. rewrite bind_lift_ok in H.
  apply bind_ok_inv in H as (mask & s1 & Hmask & H).
  apply lift_ok_inv in Hmask as [Hmask ->].
  rewrite bind_setitem in H. cbn [config disk out] in H.
  erewrite bind_getitem in H by (simpl; apply lookup_insert_eq).
  cbn [mask_of] in H. rewrite bind_lift_ok in H.
  apply emit_ok_inv in H as ->. cbn [config].
  exists mask. repeat split; try done. by rewrite insert_insert_eq.
Qed.

Lemma override_indices_ext K s1 s2 :
  config s1 !! "data_path" = config s2 !! "data_path" →
  disk s1 = disk s2 →
  override_indices K s1 = override_indices K s2.
Proof. intros Hc Hd. unfold override_indices. by rewrite Hc, Hd. Qed.

Lemma bad_frames_step_absent K (t : session) (n : Z) :
  config t !! "nframes" = Some (VInt n) → 0 ≤ n →
  override_absent K t →
  ∃ t', bad_frames_step K t = (Ok tt, t')
        ∧ config t' = <["badframes" := VBoolArr (replicate (Z.to_nat n) false)]> (config t).
Proof.
  intros Hn Hn0 Habs. unfold bad_frames_step.
  rewrite (bind_getint _ _ _ _ _ Hn eq_refl).
  unfold np.zeros_bool. destruct (n <? 0) eqn:E; [apply Z.ltb_lt in E; lia|].
  rewrite bind_lift_ok, bind_setitem, bind_contains. cbn [config].
  rewrite lookup_insert_ne by done.
  unfold override_absent in Habs.
  destruct (config t !! "data_path") as [dp|] eqn:Edp.
  2: { rewrite bool_decide_eq_false_2 by (by intros [? ?]).
       rewrite bind_ret. eexists. split; reflexivity. }
  rewrite bool_decide_eq_true_2 by eauto.
  destruct dp as [| | | | | | |[|d rest]|]; try done.
  - rewrite !bind_assoc.
    erewrite bind_getitem by (simpl; rewrite lookup_insert_ne by done; exact Edp).
    rewrite !bind_assoc. cbn [py_len]. rewrite bind_lift_ok, !bind_ret.
    cbn. eexists. split; reflexivity.
  - rewrite !bind_assoc.
    erewrite bind_getitem by (simpl; rewrite lookup_insert_ne by done; exact Edp).
    rewrite !bind_assoc. cbn [py_len]. rewrite bind_lift_ok, !bind_ret.
    replace (0 <? Z.of_nat (length (d :: rest))) with true
      by (symmetry; apply Z.ltb_lt; simpl; lia).
    erewrite bind_getitem by (simpl; rewrite lookup_insert_ne by done; exact Edp).
    cbn [first_path]. rewrite bind_lift_ok, bind_print.
    unfold path.isfile at 1. unfold mbind at 1, M_bind, bind. cbn [disk].
    rewrite Habs. eexists. split; reflexivity.
Qed.

(** C7. The bad-frame mask of the returned configuration is a boolean
    array of [nframes] entries; it is all false when there is no data
    path or no bad-frame file under the first data path, and otherwise
    true exactly at the frames the file lists.  A missing file or data
    path is not an error: the step that builds the mask returns. *)
Theorem bad_frame_mask K refImg raw (s s' : session) :
  (register_dict K refImg raw s = (Ok tt, s') →
   ∃ n mask,
     config s' !! "nframes" = Some (VInt n)
     ∧ config s' !! "badframes" = Some (VBoolArr mask)
     ∧ length mask = Z.to_nat n
     ∧ match override_indices K s' with
       | None => mask = replicate (Z.to_nat n) false
       | Some idx =>
           (∀ j, mask !! j = Some true
                 ↔ ∃ i, i ∈ idx ∧ np.index (Z.to_nat n) i = Some j)
           ∧ (Forall (λ i, 0 ≤ i) idx →
              ∀ j, mask !! j = Some true ↔ Z.of_nat j ∈ idx)
       end)
  ∧ (∀ (t : session) (n : Z),
       config t !! "nframes" = Some (VInt n) → 0 ≤ n →
       override_absent K t →
       ∃ t', bad_frames_step K t = (Ok tt, t')
             ∧ config t' !! "badframes" = Some (VBoolArr (replicate (Z.to_nat n) false))).
Proof.
  split.
  2: { intros t n Hn Hn0 Habs.
       destruct (bad_frames_step_absent K t n Hn Hn0 Habs) as (t' & Hrun & Hc).
       exists t'. split; [done|]. rewrite Hc. apply lookup_insert_eq. }
  intros H.
  destruct (phases_nframes _ _ _ _ _ H) as (n & Hge & Hn).
  phases_of H.
  pose proof (bad_frames_same_disk K _ _ _ H11) as D11.
  pose proof (compute_crop_same_disk K _ _ _ H12) as D12.
  pose proof (finish_same_disk _ _ _ _ H13) as D13.
  unfold same_disk in *.
  apply bad_frames_step_ok_inv in H11 as (v & n' & mask & Hv & Hn' & Hn0 & Hc9 & Hmask).
  assert (config s8 !! "nframes" = Some (VInt n)) as Hn8.
  { rewrite <- Hn. symmetry. rewrite (W13 _), (W12 _), (W11 _) by notin_keys. done. }
  rewrite Hn8 in Hv. injection Hv as <-. injection Hn' as <-.
  rewrite (override_indices_ext K s' s8).
  2: { rewrite (W13 _), (W12 _), (W11 _) by notin_keys. done. }
  2: { congruence. }
  exists n, mask. split; [done|]. split.
  { rewrite (W13 _), (W12 _) by notin_keys. rewrite Hc9. apply lookup_insert_eq. }
  destruct (override_indices K s8) as [idx|].
  - apply put_true_spec in Hmask as (Hlen & Hall & Hspec).
    rewrite length_replicate in Hlen, Hall, Hspec.
    assert (∀ j, mask !! j = Some true
                 ↔ ∃ i, i ∈ idx ∧ np.index (Z.to_nat n) i = Some j) as Hspec'.
    { intros j. rewrite Hspec. split; [|by right].
      intros [Hj|Hj]; [|done]. apply lookup_replicate in Hj as [? _]. done. }
    split; [done|]. split; [done|].
    intros Hpos j. rewrite Hspec'. split.
    + intros (i & Hin & Hij).
      rewrite Forall_forall in Hpos.
      rewrite (index_nonneg _ _ _ (Hpos _ Hin) Hij).
      rewrite Z2Nat.id; [done|]. by apply Hpos.
    + intros Hin. exists (Z.of_nat j). split; [done|].
      destruct (Hall _ Hin) as (j' & Hj').
      rewrite Hj'. f_equal. apply index_nonneg in Hj'; lia.
  - subst mask. by rewrite length_replicate.
Qed.

Lemma bad_frame_mask_witness :
  ∃ n mask,
    config (snd (register_dict probe_kernels VNone true flagged_session)) !! "nframes"
    = Some (VInt n)
    ∧ config (snd (register_dict probe_kernels VNone true flagged_session)) !! "badframes"
      = Some (VBoolArr mask)
    ∧ length mask = Z.to_nat n
    ∧ match override_indices probe_kernels
              (snd (register_dict probe_kernels VNone true flagged_session)) with
      | None => mask = replicate (Z.to_nat n) false
      | Some idx =>
          (∀ j, mask !! j = Some true
                ↔ ∃ i, i ∈ idx ∧ np.index (Z.to_nat n) i = Some j)
          ∧ (Forall (λ i, 0 ≤ i) idx →
             ∀ j, mask !! j = Some true ↔ Z.of_nat j ∈ idx)
      end.
Proof.
  apply (proj1 (bad_frame_mask probe_kernels VNone true flagged_session _)).
  vm_compute; reflexivity.
Defined.

(** ** The displacement history *)

Lemma Qplus_0_l_eq (x : Q) : (0 + x)%Q = x.
Proof. destruct x as [n d]. unfold Qplus. simpl. f_equal. lia. Qed.

Lemma zip_with_zeros (col : list Q) :
  zip_with Qplus (replicate (length col) 0%Q) col = col.
Proof.
  induction col as [|x col IH]; simpl; [done|]. by rewrite IH, Qplus_0_l_eq.
Qed.

Lemma iadd1_ok_inv (a b r : list Q) :
  np.iadd1 a b = Ok r → length b ≠ 1%nat →
  length a = length b ∧ r = zip_with Qplus a b.
Proof.
  unfold np.iadd1. destruct (Nat.eqb_spec (length b) (length a)) as [E|E].
  - intros [= <-] _. done.
  - destruct b as [|q [|q' b]]; try discriminate. intros _ Hb. done.
Qed.

Lemma collect_ok_inv {A} (l : list (result A)) (r : list A) :
  collect l = Ok r → Forall2 (λ y x, x = Ok y) r l.
Proof.
  revert r. induction l as [|x l IH]; intros r; simpl.
  - intros [= <-]. constructor.
  - destruct x as [a|e]; [|discriminate]. simpl.
    destruct (collect l) as [r'|e]; [|discriminate]. simpl.
    intros [= <-]. constructor; [done | by apply IH].
Qed.

Lemma Forall2_zip_with_l {A B C D} (P : D → C → Prop) (f : A → B → C)
    (r : list D) (a : list A) (b : list B) :
  Forall2 P r (zip_with f a b) → Forall2 (λ y ab, P y (f (fst ab) (snd ab))) r (zip a b).
Proof.
  revert r b. induction a as [|x a IH]; intros r b H; simpl in *.
  - inversion H. constructor.
  - destruct b as [|y b]; simpl in *; inversion H; subst; constructor; auto.
Qed.

Lemma iadd2_ok_inv (a b r : list (list Q)) :
  np.iadd2 a b = Ok r → length b ≠ 1%nat →
  length a = length b ∧ length r = length b
  ∧ Forall2 (λ row ax, np.iadd1 (fst ax) (snd ax) = Ok row) r (zip a b).
Proof.
  unfold np.iadd2. destruct (Nat.eqb_spec (length b) (length a)) as [E|E].
  - intros H _. apply collect_ok_inv in H.
    split; [done|]. split.
    + apply Forall2_length in H. rewrite H, length_zip_with. lia.
    + by apply Forall2_zip_with_l in H.
  - destruct b as [|q [|q' b]]; try discriminate. intros _ Hb. done.
Qed.

Lemma Forall2_zip_replicate (P : list Q → list Q → list Q → Prop) (z : list Q)
    (r col : list (list Q)) :
  Forall2 (λ row ax, P row (fst ax) (snd ax)) r (zip (replicate (length col) z) col) →
  Forall2 (λ row x, P row z x) r col.
Proof.
  revert r. induction col as [|x col IH]; intros r H; simpl in *.
  - inversion H. constructor.
  - inversion H; subst. constructor; auto.
Qed.

Lemma iadd_item_ok_inv key offsets i s s' :
  iadd_item key offsets i s = (Ok tt, s') →
  ∃ a b v,
    config s !! key = Some a ∧ offsets !! i = Some b ∧ np.iadd a b = Ok v
    ∧ s' = Session (<[key := v]> (config s)) (disk s) (out s).
Proof.
  unfold iadd_item. intros H.
  apply bind_ok_inv in H as (a & s1 & Ha & H). apply getitem_ok_inv in Ha as [Ha ->].
  apply bind_ok_inv in H as (b & s1 & Hb & H). apply lift_ok_inv in Hb as [Hb ->].
  apply bind_ok_inv in H as (v & s1 & Hv & H). apply lift_ok_inv in Hv as [Hv ->].
  apply setitem_ok_inv in H as ->.
  exists a, b, v. repeat split; try done.
  destruct (offsets !! i); [by injection Hb as -> | discriminate].
Qed.

Lemma init_history_ok_inv key s s' :
  init_history key s = (Ok tt, s') →
  ∃ v n, config s !! "nframes" = Some v ∧ as_int v = Some n ∧ 0 ≤ n
         ∧ s' = Session (<[key := VArr (replicate (Z.to_nat n) 0%Q)]> (config s))
                  (disk s) (out s).
Proof.
  unfold init_history. intros H.
  apply bind_ok_inv in H as (n & s1 & Hn & H).
  apply getint_ok_inv in Hn as (v & Hv & Hn & ->).
  apply bind_ok_inv in H as (z & s1 & Hz & H). apply lift_ok_inv in Hz as [Hz ->].
  apply setitem_ok_inv in H as ->.
  unfold np.zeros in Hz. destruct (n <? 0) eqn:E; [discriminate|].
  injection Hz as <-. apply Z.ltb_ge in E. by exists v, n.
Qed.

Lemma init_history2_ok_inv key nb s s' :
  init_history2 key nb s = (Ok tt, s') →
  ∃ v n, config s !! "nframes" = Some v ∧ as_int v = Some n ∧ 0 ≤ n
         ∧ s' = Session
                  (<[key := VArr2 (replicate (Z.to_nat n) (replicate (Z.to_nat nb) 0%Q))]>
                     (config s))
                  (disk s) (out s).
Proof.
  unfold init_history2. intros H.
  apply bind_ok_inv in H as (n & s1 & Hn & H).
  apply getint_ok_inv in Hn as (v & Hv & Hn & ->).
  apply bind_ok_inv in H as (z & s1 & Hz & H). apply lift_ok_inv in Hz as [Hz ->].
  apply setitem_ok_inv in H as ->.
  unfold np.zeros2 in Hz. destruct ((n <? 0) || (nb <? 0)) eqn:E; [discriminate|].
  injection Hz as <-. apply orb_false_iff in E as [E _]. apply Z.ltb_ge in E.
  by exists v, n.
Qed.

Lemma history_init_writes :
  preserves (writes_within ["yoff"; "xoff"; "corrXY"; "yoff1"; "xoff1"; "corrXY1"])
    history_init.
Proof.
  unfold history_init.
  repeat first
    [ apply init_history_writes; solve [repeat constructor]
    | apply init_history2_writes; solve [repeat constructor]
    | preserves_step ].
Qed.

(** Lines 142-151: with a history on entry nothing is done; without
    one, the arrays are created as zeros, one entry (or row) per frame. *)
Lemma history_init_ok_inv (s s' : session) (n : Z) :
  config s !! "nframes" = Some (VInt n) →
  history_init s = (Ok tt, s') →
  match config s !! "yoff" with
  | Some _ => s' = s
  | None =>
      0 ≤ n
      ∧ config s' !! "yoff" = Some (VArr (replicate (Z.to_nat n) 0%Q))
      ∧ config s' !! "xoff" = Some (VArr (replicate (Z.to_nat n) 0%Q))
      ∧ config s' !! "corrXY" = Some (VArr (replicate (Z.to_nat n) 0%Q))
      ∧ ∀ vnr, config s !! "nonrigid" = Some vnr → truthy vnr = Ok true →
          ∃ nb : nat,
            config s' !! "yoff1"
            = Some (VArr2 (replicate (Z.to_nat n) (replicate nb 0%Q)))
            ∧ config s' !! "xoff1"
              = Some (VArr2 (replicate (Z.to_nat n) (replicate nb 0%Q)))
            ∧ config s' !! "corrXY1"
              = Some (VArr2 (replicate (Z.to_nat n) (replicate nb 0%Q)))
  end.
Proof.
  intros Hn H. unfold history_init in H. rewrite bind_contains in H.
  destruct (config s !! "yoff") as [y0|] eqn:Ey.
  { rewrite bool_decide_eq_true_2 in H by eauto. by apply ret_ok_inv in H as [_ ->]. }
  rewrite bool_decide_eq_false_2 in H by (by intros [? ?]). cbn [negb] in H.
  apply bind_ok_inv in H as ([] & s1 & I1 & H).
  apply init_history_ok_inv in I1 as (v1 & n1 & Hv1 & Hn1 & Hpos & ->).
  rewrite Hn in Hv1. injection Hv1 as <-. injection Hn1 as <-.
  apply bind_ok_inv in H as ([] & s2 & I2 & H).
  apply init_history_ok_inv in I2 as (v2 & n2 & Hv2 & Hn2 & _ & ->).
  cbn [config disk out] in *. rewrite lookup_insert_ne in Hv2 by done.
  rewrite Hn in Hv2. injection Hv2 as <-. injection Hn2 as <-.
  apply bind_ok_inv in H as ([] & s3 & I3 & H).
  apply init_history_ok_inv in I3 as (v3 & n3 & Hv3 & Hn3 & _ & ->).
  cbn [config disk out] in *. rewrite !lookup_insert_ne in Hv3 by done.
  rewrite Hn in Hv3. injection Hv3 as <-. injection Hn3 as <-.
  apply bind_ok_inv in H as (nr & s4 & Hnr & H).
  apply test_ok_inv in Hnr as (vnr & Hvnr & Hnr & ->).
  cbn [config] in Hvnr. rewrite !lookup_insert_ne in Hvnr by done.
  split; [done|].
  destruct nr.
  - apply bind_ok_inv in H as (nbl & s4 & Hnbl & H). apply getitem_ok_inv in Hnbl as [_ ->].
    apply bind_ok_inv in H as (n0 & s4 & Hn0 & H). apply lift_ok_inv in Hn0 as [_ ->].
    apply bind_ok_inv in H as (n1 & s4 & Hn1 & H). apply lift_ok_inv in Hn1 as [_ ->].
    apply bind_ok_inv in H as ([] & s4 & J1 & H).
    apply init_history2_ok_inv in J1 as (v4 & n4 & Hv4 & Hn4 & _ & ->).
    cbn [config disk out] in *. rewrite !lookup_insert_ne in Hv4 by done.
    rewrite Hn in Hv4. injection Hv4 as <-. injection Hn4 as <-.
    apply bind_ok_inv in H as ([] & s5 & J2 & H).
    apply init_history2_ok_inv in J2 as (v5 & n5 & Hv5 & Hn5 & _ & ->).
    cbn [config disk out] in *. rewrite !lookup_insert_ne in Hv5 by done.
    rewrite Hn in Hv5. injection Hv5 as <-. injection Hn5 as <-.
    apply init_history2_ok_inv in H as (v6 & n6 & Hv6 & Hn6 & _ & ->).
    cbn [config disk out] in *. rewrite !lookup_insert_ne in Hv6 by done.
    rewrite Hn in Hv6. injection Hv6 as <-. injection Hn6 as <-.
    repeat split.
    1-3: repeat first [ rewrite lookup_insert_eq | rewrite lookup_insert_ne by done ]; done.
    intros _ _ _. exists (Z.to_nat (n0 * n1)).
    repeat split;
      repeat first [ rewrite lookup_insert_eq | rewrite lookup_insert_ne by done ]; done.
  - apply ret_ok_inv in H as [_ ->]. cbn [config].
    repeat split.
    1-3: repeat first [ rewrite lookup_insert_eq | rewrite lookup_insert_ne by done ]; done.
    intros vnr' Hv' Ht'. rewrite Hvnr in Hv'. injection Hv' as <-.
    rewrite Hnr in Ht'. discriminate.
Qed.

(** Lines 153-159: every array of the history receives the column of
    the offsets at its own position. *)
Lemma offset_history_step_ok_inv offsets (s s' : session) :
  offset_history_step offsets s = (Ok tt, s') →
  ∃ s1 vnr nr,
    history_init s = (Ok tt, s1)
    ∧ config s !! "nonrigid" = Some vnr ∧ truthy vnr = Ok nr
    ∧ added s1 s' offsets "yoff" 0
    ∧ added s1 s' offsets "xoff" 1
    ∧ added s1 s' offsets "corrXY" 2
    ∧ (nr = true →
       added s1 s' offsets "yoff1" 3
       ∧ added s1 s' offsets "xoff1" 4
       ∧ added s1 s' offsets "corrXY1" 5).
Proof.
  unfold offset_history_step. intros H.
  apply bind_ok_inv in H as ([] & s1 & Hinit & H).
  pose proof (history_init_writes _ _ _ Hinit) as Winit.
  apply bind_ok_inv in H as ([] & s2 & A1 & H).
  apply iadd_item_ok_inv in A1 as (a1 & b1 & v1 & Ha1 & Hb1 & Hv1 & ->).
  apply bind_ok_inv in H as ([] & s3 & A2 & H).
  apply iadd_item_ok_inv in A2 as (a2 & b2 & v2 & Ha2 & Hb2 & Hv2 & ->).
  apply bind_ok_inv in H as ([] & s4 & A3 & H).
  apply iadd_item_ok_inv in A3 as (a3 & b3 & v3 & Ha3 & Hb3 & Hv3 & ->).
  apply bind_ok_inv in H as (nr & s5 & Hnr & H).
  apply test_ok_inv in Hnr as (vnr & Hvnr & Hnr & ->).
  cbn [config disk out] in *.
  repeat (rewrite lookup_insert_ne in Ha2 by done).
  repeat (rewrite lookup_insert_ne in Ha3 by done).
  repeat (rewrite lookup_insert_ne in Hvnr by done).
  rewrite (Winit "nonrigid") in Hvnr by notin_keys.
  exists s1, vnr, nr. split; [done|]. split; [done|]. split; [done|].
  destruct nr.
  - apply bind_ok_inv in H as ([] & s5 & B1 & H).
    apply iadd_item_ok_inv in B1 as (c1 & d1 & w1 & Hc1 & Hd1 & Hw1 & ->).
    apply bind_ok_inv in H as ([] & s6 & B2 & H).
    apply iadd_item_ok_inv in B2 as (c2 & d2 & w2 & Hc2 & Hd2 & Hw2 & ->).
    apply iadd_item_ok_inv in H as (c3 & d3 & w3 & Hc3 & Hd3 & Hw3 & ->).
    cbn [config disk out] in *.
    repeat (rewrite lookup_insert_ne in Hc1 by done).
    repeat (rewrite lookup_insert_ne in Hc2 by done).
    repeat (rewrite lookup_insert_ne in Hc3 by done).
    unfold added. cbn [config].
    split; [|split; [|split]].
    + exists a1, b1, v1. repeat split; try done.
      repeat first [ rewrite lookup_insert_eq | rewrite lookup_insert_ne by done ]; done.
    + exists a2, b2, v2. repeat split; try done.
      repeat first [ rewrite lookup_insert_eq | rewrite lookup_insert_ne by done ]; done.
    + exists a3, b3, v3. repeat split; try done.
      repeat first [ rewrite lookup_insert_eq | rewrite lookup_insert_ne by done ]; done.
    + intros _. split; [|split].
      * exists c1, d1, w1. repeat split; try done.
        repeat first [ rewrite lookup_insert_eq | rewrite lookup_insert_ne by done ]; done.
      * exists c2, d2, w2. repeat split; try done.
        repeat first [ rewrite lookup_insert_eq | rewrite lookup_insert_ne by done ]; done.
      * exists c3, d3, w3. repeat split; try done.
        repeat first [ rewrite lookup_insert_eq | rewrite lookup_insert_ne by done ]; done.
  - apply ret_ok_inv in H as [_ ->]. unfold added. cbn [config].
    split; [|split; [|split]].
    + exists a1, b1, v1. repeat split; try done.
      repeat first [ rewrite lookup_insert_eq | rewrite lookup_insert_ne by done ]; done.
    + exists a2, b2, v2. repeat split; try done.
      repeat first [ rewrite lookup_insert_eq | rewrite lookup_insert_ne by done ]; done.
    + exists a3, b3, v3. repeat split; try done.
      repeat first [ rewrite lookup_insert_eq | rewrite lookup_insert_ne by done ]; done.
    + discriminate.
Qed.

Lemma accumulated_of_added (s s7 s71 s8 s' : session) key i (col : list Q) offsets (n : Z) :
  config s7 !! "yoff" = config s !! "yoff" →
  config s7 !! key = config s !! key →
  match config s7 !! "yoff" with
  | Some _ => s71 = s7
  | None => config s71 !! key = Some (VArr (replicate (Z.to_nat n) 0%Q))
  end →
  added s71 s8 offsets key i →
  offsets !! i = Some (VArr col) →
  length col = Z.to_nat n → (1 < length col)%nat →
  config s' !! key = config s8 !! key →
  accumulated s s' key col.
Proof.
  intros Hy Hk Hinit (a & b & v & Ha & Hb & Hv & Hv8) Hoff Hlen Hbig Hfwd.
  rewrite Hoff in Hb. injection Hb as <-.
  unfold accumulated. rewrite <- Hy. rewrite Hfwd, Hv8.
  destruct (config s7 !! "yoff") as [y0|].
  - subst s71. intros a0 Ha0. rewrite <- Hk, Ha in Ha0. injection Ha0 as ->.
    cbn [np.iadd] in Hv. destruct (np.iadd1 a0 col) as [r|e] eqn:E; [|discriminate].
    injection Hv as <-. apply iadd1_ok_inv in E as [E1 ->]; [done | lia].
  - rewrite Hinit in Ha. injection Ha as <-.
    cbn [np.iadd] in Hv. destruct (np.iadd1 _ col) as [r|e] eqn:E; [|discriminate].
    injection Hv as <-. apply iadd1_ok_inv in E as [_ ->]; [|lia].
    by rewrite <- Hlen, zip_with_zeros.
Qed.

Lemma accumulated2_of_added (s s7 s71 s8 s' : session) key i (col : list (list Q))
    offsets (n : Z) :
  config s7 !! "yoff" = config s !! "yoff" →
  config s7 !! key = config s !! key →
  match config s7 !! "yoff" with
  | Some _ => s71 = s7
  | None =>
      ∃ nb : nat,
        config s71 !! key = Some (VArr2 (replicate (Z.to_nat n) (replicate nb 0%Q)))
  end →
  added s71 s8 offsets key i →
  offsets !! i = Some (VArr2 col) →
  length col = Z.to_nat n → (1 < length col)%nat →
  config s' !! key = config s8 !! key →
  accumulated2 s s' key col.
Proof.
  intros Hy Hk Hinit (a & b & v & Ha & Hb & Hv & Hv8) Hoff Hlen Hbig Hfwd.
  rewrite Hoff in Hb. injection Hb as <-.
  unfold accumulated2. rewrite <- Hy. rewrite Hfwd, Hv8.
  destruct (config s7 !! "yoff") as [y0|].
  - subst s71. destruct a; cbn [np.iadd] in Hv; try discriminate.
    + injection Hv as <-. eexists. split; [done|]. split; [by rewrite length_map|].
      intros a0 Ha0. rewrite <- Hk, Ha in Ha0. discriminate.
    + injection Hv as <-. eexists. split; [done|]. split; [by rewrite length_map|].
      intros a0 Ha0. rewrite <- Hk, Ha in Ha0. discriminate.
    + destruct (np.iadd2 a col) as [r|e] eqn:E; [|discriminate].
      injection Hv as <-. apply iadd2_ok_inv in E as (E1 & E2 & E3); [|lia].
      exists r. split; [done|]. split; [done|].
      intros a0 Ha0. rewrite <- Hk, Ha in Ha0. by injection Ha0 as <-.
  - destruct Hinit as (nb & Hinit). rewrite Hinit in Ha. injection Ha as <-.
    cbn [np.iadd] in Hv. destruct (np.iadd2 _ col) as [r|e] eqn:E; [|discriminate].
    injection Hv as <-. apply iadd2_ok_inv in E as (E1 & E2 & E3); [|lia].
    exists r. split; [done|]. split; [done|]. exists nb.
    rewrite <- Hlen in E3.
    exact (Forall2_zip_replicate (λ row a x, np.iadd1 a x = Ok row) _ _ _ E3).
Qed.

Lemma reference_same_disk K file : preserves same_disk (compute_reference_image K file).
Proof.
  intros s r s'. destruct file as [p|]; simpl; [|by intros [= <- <-]].
  by destruct (disk s !! p); intros [= <- <-].
Qed.

Lemma reference_step_same_disk K refImg raw paths :
  preserves same_disk (reference_step K refImg raw paths).
Proof.
  unfold reference_step, print.
  repeat first [ apply reference_same_disk | apply setitem_same_disk | apply emit_same_disk
               | preserves_step ].
Qed.

Lemma test_ok k v b s : config s !! k = Some v → truthy v = Ok b → test k s = (Ok b, s).
Proof. intros Hv Hb. unfold test. rewrite (bind_getitem _ _ _ _ Hv). by rewrite Hb. Qed.

(** C1. After a run that returned, every array of the displacement
    history has one entry (or row) per frame, [nframes] in all, and the
    entry at each index is the shift estimated for the frame of the
    input stream at that index: the shift itself on a first run, and the
    shift added once to the entry found there when the configuration
    came with a history. *)
Theorem displacement_history K refImg raw (s s' : session) :
  keeps_geometry K →
  register_dict K refImg raw s = (Ok tt, s') →
  ∃ (n px : Z) (streams : streams) (f : node) (masks : val) (cfg : dict) (nr : bool),
    let frames := stream_frames px n (n_words f) in
    let sh := map (λ fr, fst (register_frame K masks cfg fr)) frames in
    config s' !! "nframes" = Some (VInt n)
    ∧ disk s !! default (reg_file_align streams) (raw_file_align streams) = Some f
    ∧ length sh = Z.to_nat n
    ∧ test "nonrigid" s = (Ok nr, s)
    ∧ accumulated s s' "yoff" (map s_yoff sh)
    ∧ accumulated s s' "xoff" (map s_xoff sh)
    ∧ accumulated s s' "corrXY" (map s_corr sh)
    ∧ (nr = true →
       accumulated2 s s' "yoff1" (map s_yoff1 sh)
       ∧ accumulated2 s s' "xoff1" (map s_xoff1 sh)
       ∧ accumulated2 s s' "corrXY1" (map s_corr1 sh)).
Proof.
  intros Hgeo H.
  destruct (phases_nframes _ _ _ _ _ H) as (n & Hge & Hn).
  phases_of H.
  pose proof (proj1 (make_blocks_same_world K _ _ _ H1)) as D1.
  pose proof (proj1 (resolve_nframes_same_world _ _ _ H2)) as D2.
  pose proof (reference_step_same_disk K _ _ _ _ _ _ H6) as D6. unfold same_disk in D6.
  apply check_nframes_ok_inv in H3 as (_ & _ & _ & _ & _ & _ & D3).
  destruct bound as [[k y]|]; [|by apply raise_ok_inv in H8].
  apply (register_step_ok_inv K ref paths s4 k y s5 Hgeo) in H7
    as (vb & nbatch & vy & Ly & vx & Lx & vn & N & vnr & nr & f
        & _ & _ & _ & _ & _ & _ & Hvn & HN & Hvnr & Hnr & HNpos & Hf & (Hoffs & _ & _) & _).
  (* the frame count the engine ran on is the resolved one *)
  assert (config s4 !! "nframes" = Some (VInt n)) as Hn4.
  { rewrite <- Hn. symmetry. back_through. reflexivity. }
  rewrite Hn4 in Hvn. injection Hvn as <-. injection HN as <-.
  assert (config s7 !! "nframes" = Some (VInt n)) as Hn7.
  { rewrite <- Hn. symmetry. back_through. reflexivity. }
  assert (config s !! "nonrigid" = Some vnr) as Hvnr0.
  { rewrite <- Hvnr. symmetry. back_through. reflexivity. }
  cbn [bound_offsets] in H10. rewrite Hoffs in H10.
  apply offset_history_step_ok_inv in H10
    as (s71 & vnr' & nr' & Hinit & Hvnr' & Hnr' & A1 & A2 & A3 & A456).
  assert (config s7 !! "nonrigid" = Some vnr) as Hvnr7.
  { rewrite <- Hvnr0. back_through. reflexivity. }
  rewrite Hvnr7 in Hvnr'. injection Hvnr' as <-.
  rewrite Hnr in Hnr'. injection Hnr' as <-.
  pose proof (history_init_ok_inv _ _ _ Hn7 Hinit) as HI.
  set (frames := stream_frames (Ly * Lx) n (n_words f)) in *.
  set (regf := register_frame K (masks_of K ref (config s4)) (config s4)) in *.
  assert (length frames = Z.to_nat n) as Hlenf by apply frames_of_length.
  exists n, (Ly * Lx), paths, f, (masks_of K ref (config s4)), (config s4), nr.
  cbn zeta. fold frames. fold regf.
  set (sh := map (λ fr, fst (regf fr)) frames).
  assert (length sh = Z.to_nat n) as Hlens by (unfold sh; by rewrite length_map).
  assert (∀ (c : shifts → Q), map (c ∘ fst) (map regf frames) = map c sh) as Hcol1.
  { intros c. unfold sh. by rewrite !map_map. }
  assert (∀ (c : shifts → list Q), map (c ∘ fst) (map regf frames) = map c sh) as Hcol2.
  { intros c. unfold sh. by rewrite !map_map. }
  assert (∀ key, key ∈ ["yoff"; "xoff"; "corrXY"; "yoff1"; "xoff1"; "corrXY1"] →
                 config s7 !! key = config s !! key) as Hbwd.
  { intros key Hk.
    repeat (apply elem_of_cons in Hk as [->|Hk]; [back_through; reflexivity|]).
    by apply elem_of_nil in Hk. }
  assert (∀ key, key ∈ ["yoff"; "xoff"; "corrXY"; "yoff1"; "xoff1"; "corrXY1"] →
                 config s' !! key = config s8 !! key) as Hfwd.
  { intros key Hk.
    repeat (apply elem_of_cons in Hk as [->|Hk];
            [rewrite (W13 _), (W12 _), (W11 _) by notin_keys; reflexivity|]).
    by apply elem_of_nil in Hk. }
  split; [done|]. split; [congruence|]. split; [done|].
  split; [by apply (test_ok _ vnr)|].
  split; [|split; [|split]].
  - match type of A1 with added _ _ ?o _ _ =>
      apply (accumulated_of_added s s7 s71 s8 s' "yoff" 0 _ o n) end; try done.
    + apply Hbwd. repeat constructor.
    + apply Hbwd. repeat constructor.
    + destruct (config s7 !! "yoff"); [done | apply HI].
    + cbn. by rewrite Hcol1.
    + by rewrite length_map.
    + rewrite length_map. lia.
    + apply Hfwd. repeat constructor.
  - match type of A2 with added _ _ ?o _ _ =>
      apply (accumulated_of_added s s7 s71 s8 s' "xoff" 1 _ o n) end; try done.
    + apply Hbwd. repeat constructor.
    + apply Hbwd. repeat constructor.
    + destruct (config s7 !! "yoff"); [done | apply HI].
    + cbn. by rewrite Hcol1.
    + by rewrite length_map.
    + rewrite length_map. lia.
    + apply Hfwd. repeat constructor.
  - match type of A3 with added _ _ ?o _ _ =>
      apply (accumulated_of_added s s7 s71 s8 s' "corrXY" 2 _ o n) end; try done.
    + apply Hbwd. repeat constructor.
    + apply Hbwd. repeat constructor.
    + destruct (config s7 !! "yoff"); [done | apply HI].
    + cbn. by rewrite Hcol1.
    + by rewrite length_map.
    + rewrite length_map. lia.
    + apply Hfwd. repeat constructor.
  - intros ->. destruct (A456 eq_refl) as (A4 & A5 & A6).
    assert (match config s7 !! "yoff" with
            | Some _ => s71 = s7
            | None =>
                ∃ nb : nat,
                  config s71 !! "yoff1"
                  = Some (VArr2 (replicate (Z.to_nat n) (replicate nb 0%Q)))
                  ∧ config s71 !! "xoff1"
                    = Some (VArr2 (replicate (Z.to_nat n) (replicate nb 0%Q)))
                  ∧ config s71 !! "corrXY1"
                    = Some (VArr2 (replicate (Z.to_nat n) (replicate nb 0%Q)))
            end) as HI2.
    { destruct (config s7 !! "yoff"); [done|].
      destruct HI as (_ & _ & _ & _ & HI). by apply (HI vnr). }
    split; [|split].
    + match type of A4 with added _ _ ?o _ _ =>
        apply (accumulated2_of_added s s7 s71 s8 s' "yoff1" 3 _ o n) end; try done.
      * apply Hbwd. repeat constructor.
      * apply Hbwd. repeat constructor.
      * destruct (config s7 !! "yoff"); [done|]. destruct HI2 as (nb & ? & ? & ?). eauto.
      * cbn. by rewrite Hcol2.
      * by rewrite length_map.
      * rewrite length_map. lia.
      * apply Hfwd. repeat constructor.
    + match type of A5 with added _ _ ?o _ _ =>
        apply (accumulated2_of_added s s7 s71 s8 s' "xoff1" 4 _ o n) end; try done.
      * apply Hbwd. repeat constructor.
      * apply Hbwd. repeat constructor.
      * destruct (config s7 !! "yoff"); [done|]. destruct HI2 as (nb & ? & ? & ?). eauto.
      * cbn. by rewrite Hcol2.
      * by rewrite length_map.
      * rewrite length_map. lia.
      * apply Hfwd. repeat constructor.
    + match type of A6 with added _ _ ?o _ _ =>
        apply (accumulated2_of_added s s7 s71 s8 s' "corrXY1" 5 _ o n) end; try done.
      * apply Hbwd. repeat constructor.
      * apply Hbwd. repeat constructor.
      * destruct (config s7 !! "yoff"); [done|]. destruct HI2 as (nb & ? & ? & ?). eauto.
      * cbn. by rewrite Hcol2.
      * by rewrite length_map.
      * rewrite length_map. lia.
      * apply Hfwd. repeat constructor.
Qed.

Lemma probe_kernels_keep_geometry : keeps_geometry probe_kernels.
Proof. intros m c f. reflexivity. Qed.

Lemma displacement_history_witness :
  ∃ (n px : Z) (streams : streams) (f : node) (masks : val) (cfg : dict) (nr : bool),
    let frames := stream_frames px n (n_words f) in
    let sh := map (λ fr, fst (register_frame probe_kernels masks cfg fr)) frames in
    config (snd (register_dict probe_kernels VNone true nonrigid_session)) !! "nframes"
    = Some (VInt n)
    ∧ disk nonrigid_session !! default (reg_file_align streams) (raw_file_align streams)
      = Some f
    ∧ length sh = Z.to_nat n
    ∧ test "nonrigid" nonrigid_session = (Ok nr, nonrigid_session)
    ∧ accumulated nonrigid_session
        (snd (register_dict probe_kernels VNone true nonrigid_session)) "yoff"
        (map s_yoff sh)
    ∧ accumulated nonrigid_session
        (snd (register_dict probe_kernels VNone true nonrigid_session)) "xoff"
        (map s_xoff sh)
    ∧ accumulated nonrigid_session
        (snd (register_dict probe_kernels VNone true nonrigid_session)) "corrXY"
        (map s_corr sh)
    ∧ (nr = true →
       accumulated2 nonrigid_session
         (snd (register_dict probe_kernels VNone true nonrigid_session)) "yoff1"
         (map s_yoff1 sh)
       ∧ accumulated2 nonrigid_session
           (snd (register_dict probe_kernels VNone true nonrigid_session)) "xoff1"
           (map s_xoff1 sh)
       ∧ accumulated2 nonrigid_session
           (snd (register_dict probe_kernels VNone true nonrigid_session)) "corrXY1"
           (map s_corr1 sh)).
Proof.
  apply (displacement_history probe_kernels VNone true nonrigid_session).
  - intros m c f. reflexivity.
  - vm_compute; reflexivity.
Defined.

(** A second run adds its shifts to the history it finds: every entry
    was 1, and frame [i] moved by [i]. *)
Example history_accumulates :
  config (snd (register_dict probe_kernels VNone true seasoned_session)) !! "yoff"
  = Some (VArr (map (λ i, (1 + inject_Z (Z.of_nat i))%Q) (seq 0 50))).
Proof. vm_compute. reflexivity. Qed.

(** * Further properties of [register_binary] *)

(** ** The keys a run needs *)

Lemma for_from_bound_inv {St B Y} (next : St → B → M session (Y * St))
    (body : nat → Y → M session unit) bs st k y s s' :
  for_from next body bs 0%nat st None s = (Ok (Some (k, y)), s') →
  ∃ b bs' y0 st' sa sb,
    bs = b :: bs' ∧ next st b s = (Ok (y0, st'), sa) ∧ body 0%nat y0 sa = (Ok tt, sb).
Proof.
  destruct bs as [|b bs']; simpl; intros H.
  - apply ret_ok_inv in H as [H _]. discriminate.
  - apply bind_ok_inv in H as ([y0 st'] & sa & Hn & H).
    apply bind_ok_inv in H as ([] & sb & Hb & H). eauto 10.
Qed.

(** X1. A run that returns found every key of [required_keys] in the
    configuration it was given: the function reads each of them on
    every path (lines 43, 46, 83-85, 92 and 106), and nothing it calls
    could have put them there. *)
Theorem required_keys_present K refImg raw (s s' : session) :
  register_dict K refImg raw s = (Ok tt, s') →
  Forall (λ k, is_Some (config s !! k)) required_keys.
Proof.
  intros H. phases_of H.
  assert (is_Some (config s !! "nonrigid")) as K1.
  { unfold make_blocks_step in H1. apply bind_ok_inv in H1 as (nr & s0 & Ht & _).
    apply test_ok_inv in Ht as (v & Hv & _). eauto. }
  assert (is_Some (config s !! "frames_include")) as K2.
  { unfold resolve_nframes in H2. apply bind_ok_inv in H2 as (fi & s0 & Hg & _).
    apply getitem_ok_inv in Hg as [Hg _]. rewrite (W1 _) in Hg by notin_keys. eauto. }
  apply mean_image_step_ok_inv in H8 as (k & y & v & n & key & -> & _ & _ & Hkey & _ & _).
  apply mean_img_key_ok_inv in Hkey as (nch & _ & Hnch & _).
  assert (is_Some (config s !! "nchannels")) as K7.
  { assert (config s5 !! "nchannels" = config s !! "nchannels") as <-
      by (back_through; reflexivity).
    eauto. }
  unfold register_step, prepare_refAndMasks in H7.
  rewrite bind_assoc, bind_gets, bind_assoc, bind_emit, bind_mret in H7.
  apply bind_ok_inv in H7 as (nbatch & sx & Hb & H7).
  apply getint_ok_inv in Hb as (vb & Hvb & _ & ->).
  apply bind_ok_inv in H7 as (Ly & sx & Hy & H7).
  apply getint_ok_inv in Hy as (vy & Hvy & _ & ->).
  apply bind_ok_inv in H7 as (Lx & sx & Hx & H7).
  apply getint_ok_inv in Hx as (vx & Hvx & _ & ->).
  apply bind_ok_inv in H7 as (N & sx & Hn & H7).
  apply getint_ok_inv in Hn as (vn & _ & _ & ->).
  unfold for_enumerate in H7. cbn [g_next g_batches g_init register_binary_to_ref] in H7.
  apply for_from_bound_inv in H7 as (b & bs' & y0 & st' & sa & sb & _ & Hstep & Hbody).
  pose proof (writes_within_nil _ _ (keeps_config_engine_step _ _ _ _ _ _ _ _ _ _ Hstep)) as Hc.
  unfold register_body in Hbody.
  apply bind_ok_inv in Hbody as (tif & sx & Ht & _).
  apply test_ok_inv in Ht as (vt & Hvt & _).
  rewrite Hc in Hvt. cbn [config] in *.
  assert (config s4 !! "batch_size" = config s !! "batch_size") as E3
    by (back_through; reflexivity).
  assert (config s4 !! "Ly" = config s !! "Ly") as E4 by (back_through; reflexivity).
  assert (config s4 !! "Lx" = config s !! "Lx") as E5 by (back_through; reflexivity).
  assert (config s4 !! "reg_tif" = config s !! "reg_tif") as E6 by (back_through; reflexivity).
  rewrite E3 in Hvb. rewrite E4 in Hvy. rewrite E5 in Hvx. rewrite E6 in Hvt.
  unfold required_keys. repeat constructor; eauto.
Qed.

Lemma required_keys_present_witness :
  Forall (λ k, is_Some (config base_session !! k)) required_keys.
Proof.
  apply (required_keys_present probe_kernels VNone true base_session
           (snd (register_dict probe_kernels VNone true base_session))).
  vm_compute; reflexivity.
Defined.

(** ** Errors while the frame count is resolved *)

(** X2. Frames of no pixels: when the count is to be derived from the
    file size and [Ly * Lx] is zero, line 50 divides by zero.  The call
    raises [ZeroDivisionError] before it has printed anything, touched a
    file or recorded a frame count. *)
Theorem zero_frame_size K refImg raw (s s0 : session) file f (Ly Lx : Z) :
  make_blocks_step K s = (Ok tt, s0) →
  config s0 !! "frames_include" = Some (VInt (-1)) →
  source_path s0 = (Ok file, s0) →
  disk s0 !! file = Some f →
  config s0 !! "Ly" = Some (VInt Ly) →
  config s0 !! "Lx" = Some (VInt Lx) →
  Ly * Lx = 0 →
  register_dict K refImg raw s = (Raise ZeroDivisionError, s0)
  ∧ same_world s s0
  ∧ config s0 !! "nframes" = config s !! "nframes".
Proof.
  intros H0 Hfi Hsrc Hf HLy HLx Hz.
  split; [|split].
  - unfold register_dict. rewrite (bind_ok _ _ _ _ _ H0).
    apply bind_raise. unfold resolve_nframes.
    rewrite (bind_getitem _ _ _ _ Hfi).
    change (py_eq (VInt (-1)) (VInt (-1))) with (Ok true : result bool).
    rewrite bind_lift_ok. cbn [negb].
    rewrite (bind_ok _ _ _ _ _ Hsrc).
    assert (path.getsize file s0 = (Ok (n_size f), s0)) as Hg.
    { unfold path.getsize. by rewrite Hf. }
    rewrite (bind_ok _ _ _ _ _ Hg).
    rewrite (bind_getint _ _ _ _ _ HLy eq_refl), (bind_getint _ _ _ _ _ HLx eq_refl).
    unfold int_div. replace (2 * Ly * Lx) with 0 by lia. reflexivity.
  - apply (make_blocks_same_world K _ _ _ H0).
  - apply (make_blocks_writes K _ _ _ H0). notin_keys.
Qed.

Lemma zero_frame_size_witness :
  register_dict probe_kernels VNone true flat_session = (Raise ZeroDivisionError, flat_session)
  ∧ same_world flat_session flat_session
  ∧ config flat_session !! "nframes" = config flat_session !! "nframes".
Proof.
  apply (zero_frame_size probe_kernels VNone true flat_session flat_session
           "data.bin" (movie (ramp 0 50)) 0 1).
  - vm_compute; reflexivity.
  - vm_compute; reflexivity.
  - vm_compute; reflexivity.
  - vm_compute; reflexivity.
  - vm_compute; reflexivity.
  - vm_compute; reflexivity.
  - lia.
Defined.

Lemma bind_dict_get {B} k (f : val → M session B) s :
  (dict_get k ≫= f) s = f (default VNone (config s !! k)) s.
Proof. reflexivity. Qed.

(** X3. A raw movie that is kept but not named: with a true
    'keep_movie_raw' and no 'raw_file' key, lines 61-62 test for the key
    and settle on the registered stream, while line 49 reads the key
    outright.  So the call raises [KeyError] on 'raw_file' exactly when
    the frame count has to come from the file size. *)
Theorem missing_raw_file (raw : bool) (t : session) (keep : val) :
  config t !! "keep_movie_raw" = Some keep →
  truthy keep = Ok true →
  config t !! "raw_file" = None →
  resolve_raw raw t = (Ok false, t)
  ∧ ∀ K refImg s,
      make_blocks_step K s = (Ok tt, t) →
      config t !! "frames_include" = Some (VInt (-1)) →
      register_dict K refImg raw s = (Raise (KeyError "raw_file"), t).
Proof.
  intros Hk Ht Hr. split.
  - unfold resolve_raw. destruct raw; [|done].
    rewrite bind_contains, Hk. rewrite bool_decide_eq_true_2 by eauto.
    rewrite (bind_test _ _ _ _ _ Hk Ht). rewrite bind_contains, Hr.
    rewrite bool_decide_eq_false_2 by (by intros [? ?]). done.
  - intros K refImg s H0 Hfi. unfold register_dict. rewrite (bind_ok _ _ _ _ _ H0).
    apply bind_raise. unfold resolve_nframes.
    rewrite (bind_getitem _ _ _ _ Hfi).
    change (py_eq (VInt (-1)) (VInt (-1))) with (Ok true : result bool).
    rewrite bind_lift_ok. cbn [negb].
    apply bind_raise. unfold source_path.
    rewrite bind_dict_get, Hk. cbn [default from_option id].
    rewrite Ht, bind_lift_ok.
    apply bind_raise, bind_raise. unfold getitem. by rewrite Hr.
Qed.

Lemma missing_raw_file_witness :
  resolve_raw true unnamed_raw_session = (Ok false, unnamed_raw_session)
  ∧ ∀ K refImg s,
      make_blocks_step K s = (Ok tt, unnamed_raw_session) →
      config unnamed_raw_session !! "frames_include" = Some (VInt (-1)) →
      register_dict K refImg true s = (Raise (KeyError "raw_file"), unnamed_raw_session).
Proof.
  apply (missing_raw_file true unnamed_raw_session (VBool true)).
  - vm_compute; reflexivity.
  - reflexivity.
  - vm_compute; reflexivity.
Defined.

(** ** Which stream is registered *)




(** ** A list with an element that fails *)

Lemma register_seq_for_each K c id items refImg raw w :
  register_binary K (Seq c id items) refImg raw w
  = (for_each (λ op, register_binary K op VNone true) items
       ≫= λ _, ret (Seq c id items)) w.
Proof. cbn [register_binary]. apply bind_ext_l, register_each_for_each. Qed.

Lemma for_each_app {S A B} (f : A → M S B) l1 l2 s :
  for_each f (l1 ++ l2) s = (for_each f l1 ≫= λ _, for_each f l2) s.
Proof.
  revert s. induction l1 as [|a l1 IH]; intros s; [done|].
  cbn [app for_each]. rewrite bind_assoc. unfold mbind, M_bind, bind.
  destruct (f a s) as [[b|e] s1]; [apply IH | done].
Qed.

(** X5. The loop of line 38 has no handler: when an element of the list
    raises, the call raises the same exception on the spot.  The
    elements before it stay registered, the element itself is left as
    its own run left it, and the elements after it are never reached. *)
Theorem list_stops_at_first_error K (c : container) (id : nat) (l1 l2 : list pyobj)
    (op : pyobj) (refImg : val) (raw : bool) (w w1 w2 : world) (r1 : pyobj) (e : exn) :
  register_binary K (Seq c id l1) VNone true w = (Ok r1, w1) →
  register_binary K op VNone true w1 = (Raise e, w2) →
  register_binary K (Seq c id (l1 ++ op :: l2)) refImg raw w = (Raise e, w2).
Proof.
  intros H1 H2. rewrite register_seq_for_each in H1 |- *.
  apply bind_ok_inv in H1 as ([] & w1' & H1 & Hr). apply ret_ok_inv in Hr as [_ ->].
  apply bind_raise. rewrite for_each_app, (bind_ok _ _ _ _ _ H1).
  cbn [for_each]. by apply bind_raise.
Qed.

Lemma list_stops_at_first_error_witness :
  register_binary probe_kernels (Seq PyList 9 ([Dict 0] ++ Dict 1 :: [Dict 2])) VNone true
    mixed_world
  = (Raise (Exception_ "ERROR: the total number of frames should be at least 50 "),
     snd (register_binary probe_kernels (Dict 1) VNone true
            (snd (register_binary probe_kernels (Seq PyList 9 [Dict 0]) VNone true
                    mixed_world)))).
Proof.
  apply (list_stops_at_first_error probe_kernels PyList 9 [Dict 0] [Dict 2] (Dict 1)
           VNone true mixed_world
           (snd (register_binary probe_kernels (Seq PyList 9 [Dict 0]) VNone true mixed_world))
           _ (Seq PyList 9 [Dict 0])).
  - vm_compute; reflexivity.
  - vm_compute; reflexivity.
Defined.

(** The element after the failing one is as it was. *)
Example list_stops_before_the_rest :
  heap (snd (register_binary probe_kernels (Seq PyList 9 [Dict 0; Dict 1; Dict 2]) VNone true
               mixed_world)) !! 2%nat
  = Some base_config.
Proof. vm_compute. reflexivity. Qed.

(** ** Bad-frame indices out of range *)

Lemma index_is_Some n i : is_Some (np.index n i) ↔ - Z.of_nat n ≤ i < Z.of_nat n.
Proof.
  unfold np.index.
  destruct (0 <=? i) eqn:E1; destruct (i <? Z.of_nat n) eqn:E2;
    destruct (- Z.of_nat n <=? i) eqn:E3; destruct (i <? 0) eqn:E4; cbn [andb];
    try apply Z.leb_le in E1; try apply Z.leb_gt in E1;
    try apply Z.ltb_lt in E2; try apply Z.ltb_ge in E2;
    try apply Z.leb_le in E3; try apply Z.leb_gt in E3;
    try apply Z.ltb_lt in E4; try apply Z.ltb_ge in E4;
    (split; [intros [j Hj]; first [lia | discriminate] | intros; first [by eexists | lia]]).
Qed.

Lemma put_true_out_of_range (m : list bool) (idx : list Z) :
  ¬ Forall (λ i, - Z.of_nat (length m) ≤ i < Z.of_nat (length m)) idx →
  np.put_true m idx = Raise IndexError.
Proof.
  intros Hbad. unfold np.put_true.
  destruct (mapM (np.index (length m)) idx) as [js|] eqn:E; [|done].
  exfalso. apply Hbad.
  assert (is_Some (mapM (np.index (length m)) idx)) as HS by eauto.
  apply mapM_is_Some in HS. eapply Forall_impl; [exact HS|].
  intros i Hi. by apply index_is_Some.
Qed.

Lemma bind_isfile {B} p (f : bool → M session B) s :
  (path.isfile p ≫= f) s = f (default false (n_isfile <$> disk s !! p)) s.
Proof. reflexivity. Qed.

Lemma bind_load {B} p nd (f : list Z → M session B) s :
  disk s !! p = Some nd → (np.load p ≫= f) s = f (n_words nd) s.
Proof. intros H. apply bind_ok. unfold np.load. by rewrite H. Qed.

Lemma override_indices_inv K t idx :
  override_indices K t = Some idx →
  ∃ dp d f,
    config t !! "data_path" = Some dp ∧ first_path dp = Ok d
    ∧ disk t !! abspath K (path.join d "bad_frames.npy") = Some f
    ∧ n_isfile f = true ∧ idx = n_words f.
Proof.
  unfold override_indices. intros H.
  destruct (config t !! "data_path") as [dp|] eqn:E1; [|done]. cbn in H.
  destruct (first_path dp) as [d|] eqn:E2; [|done]. cbn in H.
  destruct (disk t !! abspath K (path.join d "bad_frames.npy")) as [f|] eqn:E3; [|done].
  cbn in H. destruct (n_isfile f) eqn:Ef; [|done]. injection H as <-.
  by exists dp, d, f.
Qed.

(** X6. Line 170 indexes the mask with the numbers of the bad-frame
    file: a number outside [-nframes, nframes) raises [IndexError] there,
    with the all-false mask already stored.  So a run that returns had
    every listed index in range. *)
Theorem bad_frame_indices_in_range K refImg raw (s s' : session) :
  (register_dict K refImg raw s = (Ok tt, s') →
   ∀ idx, override_indices K s' = Some idx →
   ∃ n, config s' !! "nframes" = Some (VInt n) ∧ Forall (λ i, - n ≤ i < n) idx)
  ∧ (∀ (t : session) (n : Z) idx,
       config t !! "nframes" = Some (VInt n) → 0 ≤ n →
       override_indices K t = Some idx →
       ¬ Forall (λ i, - n ≤ i < n) idx →
       ∃ t', bad_frames_step K t = (Raise IndexError, t')
             ∧ config t' !! "badframes" = Some (VBoolArr (replicate (Z.to_nat n) false))).
Proof.
  split.
  - intros H idx Hidx.
    destruct (phases_nframes _ _ _ _ _ H) as (n & Hge & Hn).
    phases_of H.
    pose proof (bad_frames_same_disk K _ _ _ H11) as D11.
    pose proof (compute_crop_same_disk K _ _ _ H12) as D12.
    pose proof (finish_same_disk _ _ _ _ H13) as D13.
    unfold same_disk in *.
    apply bad_frames_step_ok_inv in H11 as (v & n' & mask & Hv & Hn' & Hn0 & Hc9 & Hmask).
    assert (config s8 !! "nframes" = Some (VInt n)) as Hn8.
    { rewrite <- Hn. symmetry. rewrite (W13 _), (W12 _), (W11 _) by notin_keys. done. }
    rewrite Hn8 in Hv. injection Hv as <-. injection Hn' as <-.
    rewrite (override_indices_ext K s' s8) in Hidx.
    2: { rewrite (W13 _), (W12 _), (W11 _) by notin_keys. done. }
    2: { congruence. }
    rewrite Hidx in Hmask.
    apply put_true_spec in Hmask as (_ & Hall & _).
    rewrite length_replicate in Hall.
    exists n. split; [done|]. apply Forall_forall. intros i Hi.
    apply Hall, index_is_Some in Hi. lia.
  - intros t n idx Hn Hn0 Hidx Hbad.
    apply override_indices_inv in Hidx as (dp & d & f & Hdp & Hd & Hf & Hisf & ->).
    destruct (first_path_len _ _ Hd) as (len & Hlen & Hpos).
    unfold bad_frames_step.
    rewrite (bind_getint _ _ _ _ _ Hn eq_refl).
    unfold np.zeros_bool. destruct (n <? 0) eqn:E; [apply Z.ltb_lt in E; lia|].
    rewrite bind_lift_ok, bind_setitem, bind_contains. cbn [config].
    rewrite lookup_insert_ne by done. rewrite Hdp.
    rewrite bool_decide_eq_true_2 by eauto.
    rewrite !bind_assoc.
    erewrite bind_getitem by (simpl; rewrite lookup_insert_ne by done; exact Hdp).
    rewrite !bind_assoc. rewrite Hlen, bind_lift_ok, !bind_ret.
    replace (0 <? len) with true by (symmetry; apply Z.ltb_lt; lia).
    erewrite bind_getitem by (simpl; rewrite lookup_insert_ne by done; exact Hdp).
    rewrite Hd, bind_lift_ok, bind_print.
    rewrite bind_isfile. cbn [disk].
    rewrite Hf. cbn [fmap option_fmap option_map default from_option id]. rewrite Hisf.
    erewrite bind_load by (cbn [disk]; exact Hf).
    erewrite bind_getitem by (simpl; apply lookup_insert_eq).
    cbn [mask_of]. rewrite bind_lift_ok.
    rewrite put_true_out_of_range.
    2: { rewrite length_replicate, Z2Nat.id by done. exact Hbad. }
    eexists. split; [reflexivity|]. cbn [config]. apply lookup_insert_eq.
Qed.

Lemma bad_frame_indices_in_range_witness :
  (∀ idx, override_indices probe_kernels
            (snd (register_dict probe_kernels VNone true flagged_session)) = Some idx →
     ∃ n, config (snd (register_dict probe_kernels VNone true flagged_session)) !! "nframes"
          = Some (VInt n)
          ∧ Forall (λ i, - n ≤ i < n) idx)
  ∧ ∃ t', bad_frames_step probe_kernels overflagged_session = (Raise IndexError, t')
          ∧ config t' !! "badframes" = Some (VBoolArr (replicate (Z.to_nat 50) false)).
Proof.
  split.
  - apply (proj1 (bad_frame_indices_in_range probe_kernels VNone true flagged_session _)).
    vm_compute; reflexivity.
  - apply (proj2 (bad_frame_indices_in_range probe_kernels VNone true flagged_session
                    flagged_session) overflagged_session 50 [3; 50]).
    + vm_compute; reflexivity.
    + lia.
    + vm_compute; reflexivity.
    + intros Hall. apply Forall_cons in Hall as [_ Hall].
      apply Forall_cons in Hall as [Hlt _]. lia.
Defined.

(** ** A history that is there in part *)

(** X7. Line 142 looks for 'yoff' alone before it creates the history,
    and lines 153-159 add to every array of it.  So a configuration that
    has 'yoff' must have 'xoff' and 'corrXY' as well, and the three
    per-block arrays when the run is nonrigid, or the run does not
    return. *)
Theorem history_keys_together K refImg raw (s s' : session) :
  register_dict K refImg raw s = (Ok tt, s') →
  is_Some (config s !! "yoff") →
  is_Some (config s !! "xoff") ∧ is_Some (config s !! "corrXY")
  ∧ (∀ v, config s !! "nonrigid" = Some v → truthy v = Ok true →
       is_Some (config s !! "yoff1") ∧ is_Some (config s !! "xoff1")
       ∧ is_Some (config s !! "corrXY1")).
Proof.
  intros H [y0 Hy0].
  destruct (phases_nframes _ _ _ _ _ H) as (n & Hge & Hn).
  phases_of H.
  assert (config s7 !! "nframes" = Some (VInt n)) as Hn7.
  { rewrite <- Hn. symmetry. back_through. reflexivity. }
  assert (∀ key, key ∈ ["yoff"; "xoff"; "corrXY"; "yoff1"; "xoff1"; "corrXY1"; "nonrigid"] →
                 config s7 !! key = config s !! key) as Hbwd.
  { intros key Hk.
    repeat (apply elem_of_cons in Hk as [->|Hk]; [back_through; reflexivity|]).
    by apply elem_of_nil in Hk. }
  apply offset_history_step_ok_inv in H10
    as (s71 & vnr & nr & Hinit & Hvnr & Hnr & A1 & A2 & A3 & A456).
  pose proof (history_init_ok_inv _ _ _ Hn7 Hinit) as HI.
  rewrite Hbwd, Hy0 in HI by (repeat constructor). subst s71.
  destruct A2 as (a2 & _ & _ & Ha2 & _). destruct A3 as (a3 & _ & _ & Ha3 & _).
  rewrite Hbwd in Ha2, Ha3 by (repeat constructor).
  split; [eauto|]. split; [eauto|].
  intros v Hv Ht. rewrite Hbwd in Hvnr by (repeat constructor).
  rewrite Hv in Hvnr. injection Hvnr as <-. rewrite Ht in Hnr. injection Hnr as <-.
  destruct (A456 eq_refl) as ((a4 & _ & _ & Ha4 & _) & (a5 & _ & _ & Ha5 & _)
                              & (a6 & _ & _ & Ha6 & _)).
  rewrite Hbwd in Ha4, Ha5, Ha6 by (repeat constructor). eauto.
Qed.

Lemma history_keys_together_witness :
  is_Some (config seasoned_session !! "xoff") ∧ is_Some (config seasoned_session !! "corrXY")
  ∧ (∀ v, config seasoned_session !! "nonrigid" = Some v → truthy v = Ok true →
       is_Some (config seasoned_session !! "yoff1")
       ∧ is_Some (config seasoned_session !! "xoff1")
       ∧ is_Some (config seasoned_session !! "corrXY1")).
Proof.
  apply (history_keys_together probe_kernels VNone true seasoned_session
           (snd (register_dict probe_kernels VNone true seasoned_session))).
  - vm_compute; reflexivity.
  - vm_compute. eauto.
Defined.

(** ** The trace of a run, step by step *)

Section Stages.
Context (K : kernels).

Section Silent.
Context (P : event → Prop).

Lemma make_blocks_silent : preserves (emits_only P) (make_blocks_step K).
Proof. unfold make_blocks_step, nonrigid.make_blocks. preserves_auto. Qed.

Lemma resolve_nframes_silent : preserves (emits_only P) resolve_nframes.
Proof. unfold resolve_nframes, source_path. preserves_auto. Qed.

Lemma mean_image_silent bound : preserves (emits_only P) (mean_image_step bound).
Proof. unfold mean_image_step, mean_img_key. destruct bound as [[k y]|]; preserves_auto. Qed.

Lemma offset_history_silent offsets : preserves (emits_only P) (offset_history_step offsets).
Proof.
  unfold offset_history_step, history_init, init_history, init_history2, iadd_item.
  preserves_auto.
Qed.
End Silent.

Lemma check_nframes_stage : preserves (emits_only from_check) check_nframes.
Proof. unfold check_nframes, print. preserves_auto. Qed.

Lemma reference_stage refImg raw paths :
  preserves (emits_only from_reference) (reference_step K refImg raw paths).
Proof. unfold reference_step, print. preserves_auto. Qed.

Lemma register_stage refImg paths :
  preserves (emits_only from_register) (register_step K refImg paths).
Proof.
  unfold register_step, prepare_refAndMasks, for_enumerate. preserves_auto.
  apply preserves_for_from; [typeclasses eauto | |]; intros.
  - cbn [g_next register_binary_to_ref]. unfold engine_step. preserves_auto.
  - unfold register_body, io.save_tiff, print. preserves_auto.
Qed.

Lemma second_channel_stage paths offsets k mean_img :
  preserves (emits_only from_second_channel) (second_channel_step K paths offsets k mean_img).
Proof.
  unfold second_channel_step, alternate_loop, for_enumerate, print, meanImg_key.
  preserves_auto.
  apply preserves_for_from; [typeclasses eauto | |]; intros.
  - cbn [g_next apply_shifts_to_binary]. unfold replicator_step. preserves_auto.
  - unfold shift_body, io.save_tiff. preserves_auto.
Qed.

Lemma bad_frames_stage : preserves (emits_only from_bad_frames) (bad_frames_step K).
Proof. unfold bad_frames_step, print. preserves_auto. Qed.

Lemma compute_crop_stage : preserves (emits_only from_crop) (compute_crop K).
Proof. unfold compute_crop, print. preserves_auto. Qed.

Lemma finish_stage raw : preserves (emits_only is_save_event) (finish_step raw).
Proof. unfold finish_step. preserves_auto. Qed.
End Stages.

(** Which events of a step satisfy a given predicate, by cases. *)
Ltac classify :=
  let e := fresh "e" in
  let m := fresh "m" in
  intros e; destruct e as [m| | | | | |]; try destruct m; simpl; tauto.

(** The steps of a run that returned, with what each may have written
    and with the events each has added, as far as they satisfy [P]. *)
Ltac phases_emits P H :=
  let t := match type of H with _ = (_, ?t) => t end in
  apply register_dict_phases in H
    as [s1 s2 s3 s4 s5 s6 s7 s8 s9 s10 raw' paths ref bound mean
        H1 H2 H3 H4 H5 H6 H7 H8 H9 H10 H11 H12 H13];
  pose proof (make_blocks_writes _ _ _ _ H1) as W1;
  pose proof (resolve_nframes_writes _ _ _ H2) as W2;
  pose proof (check_nframes_reads _ _ _ H3) as W3;
  pose proof (reference_writes _ _ _ _ _ _ _ H6) as W6;
  pose proof (register_step_writes _ _ _ _ _ _ H7) as W7;
  pose proof (mean_image_writes _ _ _ _ H8) as W8;
  pose proof (second_channel_writes _ _ _ _ _ _ _ _ H9) as W9;
  pose proof (offset_history_writes _ _ _ _ H10) as W10;
  pose proof (bad_frames_writes _ _ _ _ H11) as W11;
  pose proof (compute_crop_writes _ _ _ _ H12) as W12;
  pose proof (finish_writes _ _ _ _ H13) as W13;
  pose proof (make_blocks_silent _ P _ _ _ H1) as E1;
  pose proof (resolve_nframes_silent P _ _ _ H2) as E2;
  try (assert (emits_only P s2 s3) as E3
         by (refine (emits_only_mono _ _ _ _ _ (check_nframes_stage _ _ _ H3)); classify));
  try (assert (emits_only P s3 s4) as E6
         by (refine (emits_only_mono _ _ _ _ _ (reference_stage _ _ _ _ _ _ _ H6)); classify));
  try (assert (emits_only P s4 s5) as E7
         by (refine (emits_only_mono _ _ _ _ _ (register_stage _ _ _ _ _ _ H7)); classify));
  pose proof (mean_image_silent P _ _ _ _ H8) as E8;
  try (assert (emits_only P s6 s7) as E9
         by (refine (emits_only_mono _ _ _ _ _ (second_channel_stage _ _ _ _ _ _ _ _ H9));
             classify));
  pose proof (offset_history_silent P _ _ _ _ H10) as E10;
  try (assert (emits_only P s8 s9) as E11
         by (refine (emits_only_mono _ _ _ _ _ (bad_frames_stage _ _ _ _ H11)); classify));
  try (assert (emits_only P s9 s10) as E12
         by (refine (emits_only_mono _ _ _ _ _ (compute_crop_stage _ _ _ _ H12)); classify));
  try (assert (emits_only P s10 t) as E13
         by (refine (emits_only_mono _ _ _ _ _ (finish_stage _ _ _ _ H13)); classify)).

(** ** The warning about few frames *)

Lemma check_nframes_ok (s : session) (n : Z) :
  config s !! "nframes" = Some (VInt n) → 50 ≤ n →
  check_nframes s
  = (Ok tt,
     Session (config s) (disk s)
       (out s ++ Print (MsgRegistering n)
                 :: (if n <? 200 then [Print MsgFewFrames] else []))).
Proof.
  intros Hn Hge. unfold check_nframes.
  rewrite (bind_getint _ _ _ _ _ Hn eq_refl), bind_print.
  erewrite bind_getitem by (simpl; exact Hn).
  unfold py_lt. cbn [as_int]. rewrite bind_lift_ok.
  destruct (n <? 50) eqn:E; [apply Z.ltb_lt in E; lia|].
  erewrite bind_getitem by (simpl; exact Hn).
  cbn [as_int]. rewrite bind_lift_ok.
  destruct (n <? 200); unfold print, emit, ret; cbn [config disk out]; [|done].
  by rewrite <- app_assoc.
Qed.

(** X8. A run that returns first prints the frame count it settled on,
    then the warning of line 57 when, and only when, the count is below
    200; the warning is printed nowhere else. *)
Theorem few_frames_warning K refImg raw (s s' : session) :
  register_dict K refImg raw s = (Ok tt, s') →
  ∃ n rest,
    config s' !! "nframes" = Some (VInt n)
    ∧ out s' = out s ++ Print (MsgRegistering n)
                        :: (if n <? 200 then [Print MsgFewFrames] else []) ++ rest
    ∧ Forall (λ e, ¬ is_warning_event e) rest.
Proof.
  intros H.
  destruct (phases_nframes _ _ _ _ _ H) as (n & Hge & Hn).
  phases_emits (λ e, ¬ is_warning_event e) H.
  assert (config s2 !! "nframes" = Some (VInt n)) as Hn2.
  { rewrite <- Hn. symmetry. back_through. reflexivity. }
  rewrite (check_nframes_ok _ _ Hn2 Hge) in H3. injection H3 as <-.
  destruct (make_blocks_same_world K _ _ _ H1) as [_ Ho1].
  destruct (resolve_nframes_same_world _ _ _ H2) as [_ Ho2].
  assert (emits_only (λ e, ¬ is_warning_event e)
            (Session (config s2) (disk s2)
               (out s2 ++ Print (MsgRegistering n)
                          :: (if n <? 200 then [Print MsgFewFrames] else []))) s')
    as (rest & Hrest & Hall).
  { repeat (etransitivity; [eassumption|]). reflexivity. }
  exists n, rest. split; [done|]. split; [|done].
  rewrite Hrest. cbn [out]. rewrite Ho2, Ho1, <- app_assoc. reflexivity.
Qed.

Lemma few_frames_warning_witness :
  ∃ n rest,
    config (snd (register_dict probe_kernels VNone true base_session)) !! "nframes"
    = Some (VInt n)
    ∧ out (snd (register_dict probe_kernels VNone true base_session))
      = out base_session ++ Print (MsgRegistering n)
                            :: (if n <? 200 then [Print MsgFewFrames] else []) ++ rest
    ∧ Forall (λ e, ¬ is_warning_event e) rest.
Proof.
  apply (few_frames_warning probe_kernels VNone true base_session).
  vm_compute; reflexivity.
Defined.

(** Put the events of consecutive steps together. *)
Ltac emits_chain := repeat first [reflexivity | etransitivity; [eassumption|]].

(** ** Saving the configuration *)







(** ** The reference image *)

Lemma reference_step_given_ok_inv K refImg raw paths s ref s' :
  refImg ≠ VNone →
  reference_step K refImg raw paths s = (Ok ref, s') →
  ref = refImg
  ∧ s' = Session (<["refImg" := refImg]> (config s)) (disk s)
           (out s ++ [Print MsgUserReference]).
Proof.
  intros Hr H. unfold reference_step in H.
  destruct refImg; [done|..];
    rewrite bind_assoc, bind_print, bind_ret, bind_setitem in H;
    by apply ret_ok_inv in H as [-> ->].
Qed.

Lemma reference_step_none_ok_inv K raw paths s ref s' :
  reference_step K VNone raw paths s = (Ok ref, s') →
  ∃ p f,
    (if raw then raw_file_align paths = Some p else p = reg_file_align paths)
    ∧ disk s !! p = Some f
    ∧ ref = fst (reference_of K (config s) (n_words f))
    ∧ s' = Session
             (<["refImg" := ref]>
                (<["bidiphase" := snd (reference_of K (config s) (n_words f))]> (config s)))
             (disk s) (out s ++ [ComputeReference p; Print MsgReferenceDone]).
Proof.
  intros H. unfold reference_step in H. rewrite !bind_assoc in H.
  apply bind_ok_inv in H as (rb & s1 & Hrb & H).
  repeat first [ rewrite bind_assoc in H | rewrite bind_setitem in H
               | rewrite bind_print in H | rewrite bind_ret in H ].
  apply ret_ok_inv in H as [-> ->].
  assert (∃ p f, (if raw then raw_file_align paths = Some p else p = reg_file_align paths)
                 ∧ disk s !! p = Some f
                 ∧ rb = reference_of K (config s) (n_words f)
                 ∧ s1 = Session (config s) (disk s) (out s ++ [ComputeReference p]))
    as (p & f & Hp & Hf & -> & ->).
  { destruct raw.
    - destruct (raw_file_align paths) as [p|]; [|by apply raise_ok_inv in Hrb].
      cbn in Hrb. destruct (disk s !! p) as [f|] eqn:Ef; [|done].
      injection Hrb as <- <-. by exists p, f.
    - cbn in Hrb. destruct (disk s !! reg_file_align paths) as [f|] eqn:Ef; [|done].
      injection Hrb as <- <-. by exists (reg_file_align paths), f. }
  exists p, f. split; [done|]. split; [done|]. split; [done|].
  cbn [config disk out]. by rewrite <- app_assoc.
Qed.

(** X10. The reference image of a run that returns.  Given by the
    caller, it is stored as it was given.  Not given, it is estimated
    once, on the raw stream of the alignment channel when lines 60-62
    settled on the raw stream and on the registered stream otherwise,
    and the configuration receives the estimate and the bidiphase that
    came with it, whatever bidiphase it had. *)
Theorem reference_image_stored K refImg raw (s s' : session) (use_raw : bool) :
  register_dict K refImg raw s = (Ok tt, s') →
  resolve_raw raw s = (Ok use_raw, s) →
  match refImg with
  | VNone =>
      ∃ cfg paths p f before after,
        (∀ k, k ∉ ["nblocks"; "yblock"; "xblock"; "nframes"] → cfg !! k = config s !! k)
        ∧ select_streams K cfg use_raw = Ok paths
        ∧ (if use_raw then raw_file_align paths = Some p else p = reg_file_align paths)
        ∧ disk s !! p = Some f
        ∧ config s' !! "refImg" = Some (fst (reference_of K cfg (n_words f)))
        ∧ config s' !! "bidiphase" = Some (snd (reference_of K cfg (n_words f)))
        ∧ out s' = out s ++ before ++ ComputeReference p :: after
        ∧ Forall (λ e, ¬ is_reference_event e) before
        ∧ Forall (λ e, ¬ is_reference_event e) after
  | _ => config s' !! "refImg" = Some refImg
  end.
Proof.
  intros H Hraw.
  phases_emits (λ e, ¬ is_reference_event e) H.
  destruct (make_blocks_same_world K _ _ _ H1) as [Hd1 _].
  destruct (resolve_nframes_same_world _ _ _ H2) as [Hd2 _].
  pose proof H3 as H3'.
  apply check_nframes_ok_inv in H3' as (_ & _ & _ & _ & _ & Hc3 & Hd3).
  assert (resolve_raw raw s3 = (Ok use_raw, s3)) as Hraw3.
  { apply (resolve_raw_ext raw s s3); [| | congruence | done].
    - symmetry. back_through. reflexivity.
    - symmetry. back_through. reflexivity. }
  rewrite Hraw3 in H4. injection H4 as <-.
  assert (∀ v, v ≠ VNone → refImg = v → config s' !! "refImg" = Some v) as Hgiven.
  { intros v Hv ->.
    apply reference_step_given_ok_inv in H6 as [-> ->]; [|done].
    back_through. cbn [config]. apply lookup_insert_eq. }
  destruct refImg; try (by apply Hgiven).
  apply reference_step_none_ok_inv in H6 as (p & f & Hp & Hf & Href & Hs4).
  unfold bin_paths in H5. rewrite bind_gets in H5. apply lift_ok_inv in H5 as [H5 _].
  assert (emits_only (λ e, ¬ is_reference_event e) s s3) as (before & Hb & Hball)
    by emits_chain.
  assert (emits_only (λ e, ¬ is_reference_event e) s4 s') as (after & Ha & Haall)
    by emits_chain.
  exists (config s3), paths, p, f, before, (Print MsgReferenceDone :: after).
  split.
  { assert (writes_within ["nblocks"; "yblock"; "xblock"; "nframes"] s s3) as W; [|exact W].
    transitivity s1; [|transitivity s2];
      (eapply writes_within_mono; [|eassumption]); notin_keys. }
  split; [done|]. split; [done|]. split; [congruence|].
  split. { back_through. rewrite Hs4. cbn [config]. rewrite lookup_insert_eq. by rewrite Href. }
  split. { back_through. rewrite Hs4. cbn [config].
           rewrite lookup_insert_ne by done. apply lookup_insert_eq. }
  split. { rewrite Ha, Hs4. cbn [out]. rewrite Hb. by rewrite <- !app_assoc. }
  split; [done|]. constructor; [simpl; tauto | done].
Qed.

Lemma reference_image_stored_witness :
  (∃ cfg paths p f before after,
     (∀ k, k ∉ ["nblocks"; "yblock"; "xblock"; "nframes"] →
           cfg !! k = config raw_session !! k)
     ∧ select_streams probe_kernels cfg true = Ok paths
     ∧ raw_file_align paths = Some p
     ∧ disk raw_session !! p = Some f
     ∧ config (snd (register_dict probe_kernels VNone true raw_session)) !! "refImg"
       = Some (fst (reference_of probe_kernels cfg (n_words f)))
     ∧ config (snd (register_dict probe_kernels VNone true raw_session)) !! "bidiphase"
       = Some (snd (reference_of probe_kernels cfg (n_words f)))
     ∧ out (snd (register_dict probe_kernels VNone true raw_session))
       = out raw_session ++ before ++ ComputeReference p :: after
     ∧ Forall (λ e, ¬ is_reference_event e) before
     ∧ Forall (λ e, ¬ is_reference_event e) after)
  ∧ config (snd (register_dict probe_kernels given_reference true seeded_session)) !! "refImg"
    = Some given_reference.
Proof.
  assert (register_dict probe_kernels VNone true raw_session
          = (Ok tt, snd (register_dict probe_kernels VNone true raw_session))) as R1
    by (vm_compute; reflexivity).
  assert (resolve_raw true raw_session = (Ok true, raw_session)) as R2
    by (vm_compute; reflexivity).
  assert (register_dict probe_kernels given_reference true seeded_session
          = (Ok tt, snd (register_dict probe_kernels given_reference true seeded_session)))
    as R3 by (vm_compute; reflexivity).
  assert (resolve_raw true seeded_session = (Ok false, seeded_session)) as R4
    by (vm_compute; reflexivity).
  exact (conj (reference_image_stored _ VNone _ _ _ true R1 R2)
              (reference_image_stored _ given_reference _ _ _ false R3 R4)).
Defined.

(** ** One channel *)

(** X11. With 'nchannels' equal to 1 the mean image goes under
    'meanImg', whatever the functional and the alignment channel are
    (line 106), and lines 109-140 are skipped: no batch of an alternate
    channel is shifted, and the other three mean-image keys are left as
    they were. *)
Theorem single_channel_run K refImg raw (s s' : session) :
  register_dict K refImg raw s = (Ok tt, s') →
  config s !! "nchannels" = Some (VInt 1) →
  ∃ n k y s5,
    first_loop K refImg raw s = (Ok (Some (k, y)), s5)
    ∧ config s' !! "nframes" = Some (VInt n)
    ∧ config s' !! "meanImg" = Some (VArr (np.divide (y_sum_img y) n))
    ∧ config s' !! "meanImage_chan2" = config s !! "meanImage_chan2"
    ∧ config s' !! "meanImag" = config s !! "meanImag"
    ∧ config s' !! "meanImg_chan2" = config s !! "meanImg_chan2"
    ∧ emits_only (λ e, ¬ is_shift_event e) s s'.
Proof.
  intros H Hnch.
  destruct (phases_nframes _ _ _ _ _ H) as (n & Hge & Hn).
  destruct (register_dict_first_loop _ _ _ _ _ H) as (bound0 & s50 & Hloop).
  phases_emits (λ e, ¬ is_shift_event e) H.
  assert (bound0 = bound ∧ s50 = s5) as [-> ->].
  { unfold first_loop in Hloop.
    rewrite (bind_ok _ _ _ _ _ H1), (bind_ok _ _ _ _ _ H2), (bind_ok _ _ _ _ _ H3) in Hloop.
    rewrite (bind_ok _ _ _ _ _ H4), (bind_ok _ _ _ _ _ H5), (bind_ok _ _ _ _ _ H6) in Hloop.
    rewrite H7 in Hloop. by injection Hloop as <- <-. }
  assert (config s5 !! "nchannels" = Some (VInt 1)) as Hnch5
    by (back_through; exact Hnch).
  assert (config s5 !! "nframes" = Some (VInt n)) as Hn5.
  { rewrite <- Hn. symmetry. back_through. reflexivity. }
  apply mean_image_step_ok_inv in H8
    as (k & y & v & n' & key & -> & Hv & Hn' & Hkey & -> & Hs6).
  rewrite Hn5 in Hv. injection Hv as <-. injection Hn' as <-.
  apply mean_img_key_ok_inv in Hkey as (nch' & single & Hnch' & Hsingle & Hkey).
  rewrite Hnch5 in Hnch'. injection Hnch' as <-.
  injection Hsingle as <-. cbn in Hkey. subst key.
  assert (config s6 !! "nchannels" = Some (VInt 1)) as Hnch6.
  { rewrite Hs6. cbn [config]. by rewrite lookup_insert_ne. }
  apply second_channel_step_ok_inv in H9 as (nch' & multi & Hnch' & Hmulti & H9).
  rewrite Hnch6 in Hnch'. injection Hnch' as <-.
  injection Hmulti as <-. cbn in H9. subst s7.
  assert (emits_only (λ e, ¬ is_shift_event e) s s6) as E06 by emits_chain.
  assert (emits_only (λ e, ¬ is_shift_event e) s6 s') as E6' by emits_chain.
  exists n, k, y, s5.
  split; [done|]. split; [done|].
  split. { back_through. rewrite Hs6. cbn [config]. apply lookup_insert_eq. }
  split. { back_through. rewrite Hs6. cbn [config]. rewrite lookup_insert_ne by done.
           back_through. reflexivity. }
  split. { back_through. reflexivity. }
  split. { back_through. reflexivity. }
  by transitivity s6.
Qed.

Lemma single_channel_run_witness :
  ∃ n k y s5,
    first_loop probe_kernels VNone true base_session = (Ok (Some (k, y)), s5)
    ∧ config (snd (register_dict probe_kernels VNone true base_session)) !! "nframes"
      = Some (VInt n)
    ∧ config (snd (register_dict probe_kernels VNone true base_session)) !! "meanImg"
      = Some (VArr (np.divide (y_sum_img y) n))
    ∧ config (snd (register_dict probe_kernels VNone true base_session)) !! "meanImage_chan2"
      = config base_session !! "meanImage_chan2"
    ∧ config (snd (register_dict probe_kernels VNone true base_session)) !! "meanImag"
      = config base_session !! "meanImag"
    ∧ config (snd (register_dict probe_kernels VNone true base_session)) !! "meanImg_chan2"
      = config base_session !! "meanImg_chan2"
    ∧ emits_only (λ e, ¬ is_shift_event e) base_session
        (snd (register_dict probe_kernels VNone true base_session)).
Proof.
  apply (single_channel_run probe_kernels VNone true base_session).
  - vm_compute; reflexivity.
  - vm_compute; reflexivity.
Defined.

(** ** What a run writes to the configuration *)

Lemma register_dict_writes K refImg raw :
  preserves (writes_within keys_written) (register_dict K refImg raw).
Proof.
  unfold register_dict, keys_written, keys_written_given_reference.
  repeat first
    [ apply preserves_reads; [typeclasses eauto | solve [auto with reads]]
    | eapply preserves_writes_mono;
      [| first [ apply make_blocks_writes | apply resolve_nframes_writes
               | apply check_nframes_reads | apply reference_writes
               | apply register_step_writes | apply mean_image_writes
               | apply second_channel_writes | apply offset_history_writes
               | apply bad_frames_writes | apply compute_crop_writes
               | apply finish_writes ] ];
      notin_keys
    | apply preserves_bind; [typeclasses eauto | | intros ?] ].
Qed.

(** X12. Whether it returns or raises, a run changes no entry of the
    configuration outside [keys_written]: the geometry, the batch size,
    the file names, the channel numbers and the flags it was given are
    as it found them. *)
Theorem run_writes_within K refImg raw (s s' : session) (r : result unit) :
  register_dict K refImg raw s = (r, s') →
  ∀ k, k ∉ keys_written → config s' !! k = config s !! k.
Proof. intros H. exact (register_dict_writes K refImg raw _ _ _ H). Qed.

Lemma run_writes_within_witness :
  config (snd (register_dict probe_kernels VNone true two_channel_session)) !! "batch_size"
  = config two_channel_session !! "batch_size".
Proof.
  apply (run_writes_within probe_kernels VNone true two_channel_session _
           (fst (register_dict probe_kernels VNone true two_channel_session))).
  - apply surjective_pairing.
  - notin_keys.
Defined.

(** ** Steps taken only when a flag is set *)

#[global] Instance under_preorder C R `{!PreOrder R} : PreOrder (under C R).
Proof.
  split.
  - intros s Hs. split; [done | reflexivity].
  - intros s1 s2 s3 H12 H23 Hs. destruct (H12 Hs) as [Hs2 R12].
    destruct (H23 Hs2) as [Hs3 R23]. split; [done|]. by transitivity s2.
Qed.

Lemma unset_stable X k s s' : k ∉ X → writes_within X s s' → unset k s → unset k s'.
Proof. intros Hk W Hu v Hv. rewrite (W k Hk) in Hv. by apply Hu. Qed.

Lemma test_unset k s b s' : unset k s → test k s = (Ok b, s') → b = false.
Proof.
  intros Hu H. apply test_ok_inv in H as (v & Hv & Ht & _).
  destruct b; [|done]. by destruct (Hu v Hv).
Qed.

Section Under.
Context (ks : list string) (R : session → session → Prop) `{!PreOrder R}.

Lemma under_base {A} X (m : M session A) :
  preserves R m → preserves (writes_within X) m → Forall (λ k, k ∉ X) ks →
  preserves (under (all_unset ks) R) m.
Proof.
  intros HR HW HX s r s' H Hs. split; [|by eapply HR].
  unfold all_unset in *. rewrite Forall_forall in Hs, HX |- *. intros k Hk.
  eapply unset_stable; [by apply HX | by eapply HW | by apply Hs].
Qed.

Lemma under_test {A} k (f : bool → M session A) :
  k ∈ ks →
  preserves (under (all_unset ks) R) (f false) →
  preserves (under (all_unset ks) R) (test k ≫= f).
Proof.
  intros Hk Hf s r s' H Hs. unfold mbind, M_bind, bind in H.
  destruct (test k s) as [[b|e] s1] eqn:E.
  - pose proof (reads_test _ _ _ _ E) as ->.
    assert (unset k s) as Hu by (unfold all_unset in Hs; rewrite Forall_forall in Hs; auto).
    rewrite (test_unset _ _ _ _ Hu E) in H. by apply (Hf _ _ _ H).
  - injection H as <- <-. pose proof (reads_test _ _ _ _ E) as ->.
    split; [done | reflexivity].
Qed.
End Under.

(** *** A rigid run *)

Lemma rigid_base {A} (m : M session A) :
  preserves (writes_within rigid_keys) m →
  preserves (under (all_unset ["nonrigid"]) (writes_within rigid_keys)) m.
Proof.
  intros Hm. apply (under_base _ _ rigid_keys); [done | done|].
  repeat constructor. notin_keys.
Qed.

Ltac rigid_step :=
  first
    [ apply under_test; [typeclasses eauto | solve [repeat constructor] | cbn beta iota]
    | apply rigid_base;
      solve [ repeat first
                [ apply iadd_item_writes; notin_keys
                | apply init_history_writes; notin_keys
                | apply setitem_writes; notin_keys
                | preserves_step ] ]
    | apply preserves_bind; [typeclasses eauto | | intros ?]
    | match goal with
      | |- preserves _ (if ?b then _ else _) => destruct b
      end ].

Lemma register_dict_rigid K refImg raw :
  preserves (under (all_unset ["nonrigid"]) (writes_within rigid_keys))
    (register_dict K refImg raw).
Proof.
  unfold register_dict.
  repeat first
    [ apply preserves_reads; [typeclasses eauto | solve [auto with reads]]
    | apply rigid_base; eapply preserves_writes_mono;
      [| first [ apply resolve_nframes_writes
               | apply check_nframes_reads | apply reference_writes
               | apply register_step_writes | apply mean_image_writes
               | apply second_channel_writes
               | apply bad_frames_writes | apply compute_crop_writes
               | apply finish_writes ] ];
      notin_keys
    | progress unfold make_blocks_step, offset_history_step, history_init
    | rigid_step ].
Qed.

(** X13. A rigid run, one whose 'nonrigid' is not a true value, leaves
    the block grid and the per-block history alone: whether it returns
    or raises, it writes within [rigid_keys] only, so 'nblocks',
    'yblock', 'xblock', 'yoff1', 'xoff1' and 'corrXY1' are as it found
    them (lines 43, 147 and 156). *)
Theorem rigid_run_writes K refImg raw (s s' : session) (r : result unit) :
  unset "nonrigid" s →
  register_dict K refImg raw s = (r, s') →
  ∀ k, k ∉ rigid_keys → config s' !! k = config s !! k.
Proof.
  intros Hu H.
  apply (register_dict_rigid K refImg raw _ _ _ H). by repeat constructor.
Qed.

Lemma rigid_run_writes_witness :
  config (snd (register_dict probe_kernels VNone true base_session)) !! "nblocks"
  = config base_session !! "nblocks".
Proof.
  apply (rigid_run_writes probe_kernels VNone true base_session _
           (fst (register_dict probe_kernels VNone true base_session))).
  - intros v Hv. vm_compute in Hv. injection Hv as <-. discriminate.
  - apply surjective_pairing.
  - notin_keys.
Defined.

(** *** Preview stacks *)

Ltac quiet_emits :=
  repeat first
    [ apply emit_emits; simpl; tauto
    | preserves_step ].

Lemma engine_step_quiet K px masks reg raw st b :
  preserves (under (all_unset ["reg_tif"; "reg_tif_chan2"])
               (emits_only (λ e, ¬ is_tiff_event e)))
    (engine_step K px masks reg raw st b).
Proof.
  apply (under_base _ _ []).
  - unfold engine_step. quiet_emits.
  - apply keeps_config_engine_step.
  - repeat constructor; apply not_elem_of_nil.
Qed.

Lemma replicator_step_quiet K px params offsets reg raw st b :
  preserves (under (all_unset ["reg_tif"; "reg_tif_chan2"])
               (emits_only (λ e, ¬ is_tiff_event e)))
    (replicator_step K px params offsets reg raw st b).
Proof.
  apply (under_base _ _ []).
  - unfold replicator_step. quiet_emits.
  - apply replicator_step_reads.
  - repeat constructor; apply not_elem_of_nil.
Qed.

Ltac quiet_step :=
  first
    [ apply under_test; [typeclasses eauto | solve [repeat constructor] | cbn beta iota]
    | apply (under_base _ _ []);
      [ solve [quiet_emits] | solve [preserves_auto]
      | solve [repeat constructor; apply not_elem_of_nil] ]
    | apply preserves_bind; [typeclasses eauto | | intros ?]
    | match goal with
      | |- preserves _ (if ?b then _ else _) => destruct b
      end ].

Lemma register_step_quiet K refImg paths :
  preserves (under (all_unset ["reg_tif"; "reg_tif_chan2"])
               (emits_only (λ e, ¬ is_tiff_event e)))
    (register_step K refImg paths).
Proof.
  unfold register_step, prepare_refAndMasks, for_enumerate.
  repeat first
    [ apply preserves_reads; [typeclasses eauto | solve [auto with reads]]
    | apply preserves_for_from; [typeclasses eauto | intros | intros]
    | apply engine_step_quiet
    | progress unfold register_body, print
    | quiet_step ].
Qed.

Lemma second_channel_quiet K paths offsets k mean_img :
  preserves (under (all_unset ["reg_tif"; "reg_tif_chan2"])
               (emits_only (λ e, ¬ is_tiff_event e)))
    (second_channel_step K paths offsets k mean_img).
Proof.
  unfold second_channel_step.
  apply preserves_bind; [typeclasses eauto | | intros nch].
  { apply preserves_reads; [typeclasses eauto | auto with reads]. }
  apply preserves_bind; [typeclasses eauto | | intros multi].
  { apply preserves_reads; [typeclasses eauto | auto with reads]. }
  destruct multi; [|apply preserves_ret; typeclasses eauto].
  apply preserves_bind; [typeclasses eauto | | intros km].
  - unfold alternate_loop, for_enumerate.
    repeat first
      [ apply preserves_reads; [typeclasses eauto | solve [auto with reads]]
      | apply preserves_for_from; [typeclasses eauto | intros | intros]
      | apply replicator_step_quiet
      | progress unfold shift_body
      | quiet_step ].
  - apply (under_base _ _ ["meanImag"; "meanImg_chan2"]).
    + unfold print, meanImg_key. quiet_emits.
    + unfold print. preserves_keys.
    + repeat constructor; notin_keys.
Qed.

Lemma register_dict_quiet K refImg raw :
  preserves (under (all_unset ["reg_tif"; "reg_tif_chan2"])
               (emits_only (λ e, ¬ is_tiff_event e)))
    (register_dict K refImg raw).
Proof.
  unfold register_dict.
  repeat first
    [ apply preserves_reads; [typeclasses eauto | solve [auto with reads]]
    | apply register_step_quiet
    | apply second_channel_quiet
    | eapply under_base;
      [ first [ apply make_blocks_silent | apply resolve_nframes_silent
              | apply mean_image_silent | apply offset_history_silent
              | eapply preserves_emits_mono;
                [| first [ apply check_nframes_stage | apply reference_stage
                         | apply bad_frames_stage | apply compute_crop_stage
                         | apply finish_stage ] ];
                classify ]
      | first [ apply make_blocks_writes | apply resolve_nframes_writes
              | apply check_nframes_reads | apply reference_writes
              | apply mean_image_writes | apply offset_history_writes
              | apply bad_frames_writes | apply compute_crop_writes
              | apply finish_writes ]
      | solve [repeat constructor; notin_keys] ]
    | apply preserves_bind; [typeclasses eauto | | intros ?] ].
Qed.

(** X14. Preview stacks are written only on request: when neither
    'reg_tif' nor 'reg_tif_chan2' is a true value, no stack of frames is
    handed to the image writer, whether the run returns or raises
    (lines 92 and 128). *)
Theorem no_tiff_unless_asked K refImg raw (s s' : session) (r : result unit) :
  unset "reg_tif" s → unset "reg_tif_chan2" s →
  register_dict K refImg raw s = (r, s') →
  emits_only (λ e, ¬ is_tiff_event e) s s'.
Proof.
  intros Hu1 Hu2 H.
  apply (register_dict_quiet K refImg raw _ _ _ H). by repeat constructor.
Qed.

Lemma no_tiff_unless_asked_witness :
  emits_only (λ e, ¬ is_tiff_event e) two_channel_session
    (snd (register_dict probe_kernels VNone true two_channel_session)).
Proof.
  apply (no_tiff_unless_asked probe_kernels VNone true two_channel_session _
           (fst (register_dict probe_kernels VNone true two_channel_session))).
  - intros v Hv. vm_compute in Hv. injection Hv as <-. discriminate.
  - intros v Hv. vm_compute in Hv. injection Hv as <-. discriminate.
  - apply surjective_pairing.
Defined.

(** ** Preview stacks, batch by batch *)

Lemma tiff_names_app evs1 evs2 : tiff_names (evs1 ++ evs2) = tiff_names evs1 ++ tiff_names evs2.
Proof. apply omap_app. Qed.

Lemma tiff_names_none evs : Forall (λ e, ¬ is_tiff_event e) evs → tiff_names evs = [].
Proof.
  induction 1 as [|e evs He _ IH]; [done|].
  unfold tiff_names in *. cbn [omap list_omap]. rewrite IH.
  destruct e; simpl in *; tauto.
Qed.

Lemma engine_step_emits K px masks reg raw st b :
  preserves (emits_only (λ e, ¬ is_tiff_event e)) (engine_step K px masks reg raw st b).
Proof. unfold engine_step. quiet_emits. Qed.

Section Previews.
Context (K : kernels) (vt fc ac sp : val).

Lemma register_body_tiff k y s s' :
  previews_asked vt fc ac sp s →
  register_body K k y s = (Ok tt, s') →
  config s' = config s
  ∧ ∃ evs, out s' = out s ++ evs
           ∧ tiff_names evs = [io.generate_tiff_filename K fc ac sp k true].
Proof.
  intros (Hvt & Ht & Hfc & Hac & Hsp) H. unfold register_body in H.
  rewrite (bind_test _ _ _ _ _ Hvt Ht) in H.
  rewrite !bind_assoc in H.
  rewrite (bind_getitem _ _ _ _ Hfc) in H. rewrite !bind_assoc in H.
  rewrite (bind_getitem _ _ _ _ Hac) in H. rewrite !bind_assoc in H.
  rewrite (bind_getitem _ _ _ _ Hsp) in H.
  unfold io.save_tiff in H. rewrite bind_emit in H.
  destruct (k mod 5 =? 0)%nat.
  - apply bind_ok_inv in H as (n & s1 & Hn & H).
    apply getint_ok_inv in Hn as (v & _ & _ & ->).
    apply emit_ok_inv in H as ->. cbn [config out]. split; [done|].
    eexists. split; [by rewrite <- app_assoc|]. reflexivity.
  - apply ret_ok_inv in H as [_ ->]. cbn [config out]. split; [done|].
    eexists. split; [done|]. reflexivity.
Qed.

Lemma register_loop_tiffs px masks reg raw bs :
  ∀ k st bound s r s',
    previews_asked vt fc ac sp s →
    for_from (engine_step K px masks reg raw) (register_body K) bs k st bound s = (Ok r, s') →
    config s' = config s
    ∧ (bs ≠ [] → ∃ y, r = Some ((k + length bs - 1)%nat, y))
    ∧ ∃ evs, out s' = out s ++ evs
             ∧ tiff_names evs
               = map (λ i, io.generate_tiff_filename K fc ac sp i true) (seq k (length bs)).
Proof.
  induction bs as [|b bs IH]; intros k st bound s r s' Hs H; cbn [for_from] in H.
  - apply ret_ok_inv in H as [-> ->]. split; [done|]. split; [done|].
    exists []. by rewrite app_nil_r.
  - apply bind_ok_inv in H as ([y0 st'] & sa & Hstep & H).
    apply bind_ok_inv in H as ([] & sb & Hbody & H).
    pose proof (writes_within_nil _ _ (keeps_config_engine_step _ _ _ _ _ _ _ _ _ _ Hstep))
      as Hca.
    destruct (engine_step_emits _ _ _ _ _ _ _ _ _ _ Hstep) as (evs1 & Ho1 & Hall1).
    assert (previews_asked vt fc ac sp sa) as Hsa by (unfold previews_asked in *; by rewrite Hca).
    destruct (register_body_tiff _ _ _ _ Hsa Hbody) as (Hcb & evs2 & Ho2 & Hn2).
    assert (previews_asked vt fc ac sp sb) as Hsb by (unfold previews_asked in *; by rewrite Hcb).
    destruct (IH _ _ _ _ _ _ Hsb H) as (Hc' & Hlast & evs3 & Ho3 & Hn3).
    split; [congruence|]. split.
    + intros _. destruct bs as [|b' bs'].
      * cbn [for_from] in H. apply ret_ok_inv in H as [-> _].
        exists y0. cbn [length]. do 2 f_equal. lia.
      * destruct Hlast as (y & ->); [done|]. exists y. cbn [length]. do 2 f_equal. lia.
    + exists (evs1 ++ evs2 ++ evs3). split.
      * rewrite Ho3, Ho2, Ho1. by rewrite <- !app_assoc.
      * rewrite !tiff_names_app, (tiff_names_none _ Hall1), Hn2, Hn3. reflexivity.
Qed.

(** X15. With 'reg_tif' set, the first loop hands one stack to the
    image writer after every batch, named by the number [k] that
    [enumerate] gives the batch and marked as the first channel: when
    the loop ends with its index at [k], the stacks written are those of
    batches 0 to [k], in this order. *)
Theorem preview_stacks_by_batch refImg raw (s s5 : session) (k : nat) (y : batch_yield) :
  first_loop K refImg raw s = (Ok (Some (k, y)), s5) →
  previews_asked vt fc ac sp s →
  ∃ evs, out s5 = out s ++ evs
         ∧ tiff_names evs
           = map (λ i, io.generate_tiff_filename K fc ac sp i true) (seq 0 (S k)).
Proof.
  intros H Hs. unfold first_loop in H.
  apply bind_ok_inv in H as ([] & s1 & H1 & H).
  apply bind_ok_inv in H as ([] & s2 & H2 & H).
  apply bind_ok_inv in H as ([] & s3 & H3 & H).
  apply bind_ok_inv in H as (raw' & s3' & H4 & H).
  pose proof (reads_resolve_raw _ _ _ _ H4) as ->.
  apply bind_ok_inv in H as (paths & s3' & H5 & H).
  pose proof (reads_bin_paths _ _ _ _ _ H5) as ->.
  apply bind_ok_inv in H as (ref & s4 & H6 & H7).
  pose proof (make_blocks_writes _ _ _ _ H1) as W1.
  pose proof (resolve_nframes_writes _ _ _ H2) as W2.
  pose proof (check_nframes_reads _ _ _ H3) as W3.
  pose proof (reference_writes _ _ _ _ _ _ _ H6) as W6.
  assert (previews_asked vt fc ac sp s4) as Hs4.
  { destruct Hs as (A1 & A0 & A2 & A3 & A4). unfold previews_asked.
    repeat split; try done; back_through; assumption. }
  pose proof (make_blocks_silent _ (λ e, ¬ is_tiff_event e) _ _ _ H1) as E1.
  pose proof (resolve_nframes_silent (λ e, ¬ is_tiff_event e) _ _ _ H2) as E2.
  assert (emits_only (λ e, ¬ is_tiff_event e) s2 s3) as E3
    by (refine (emits_only_mono _ _ _ _ _ (check_nframes_stage _ _ _ H3)); classify).
  assert (emits_only (λ e, ¬ is_tiff_event e) s3 s4) as E6
    by (refine (emits_only_mono _ _ _ _ _ (reference_stage _ _ _ _ _ _ _ H6)); classify).
  assert (emits_only (λ e, ¬ is_tiff_event e) s s4) as (evs0 & Ho0 & Hall0) by emits_chain.
  unfold register_step, prepare_refAndMasks in H7.
  rewrite bind_assoc, bind_gets, bind_assoc, bind_emit, bind_mret in H7.
  apply bind_ok_inv in H7 as (nbatch & sx & Hb & H7).
  apply getint_ok_inv in Hb as (vb & _ & _ & ->).
  apply bind_ok_inv in H7 as (Ly & sx & Hy & H7).
  apply getint_ok_inv in Hy as (vy & _ & _ & ->).
  apply bind_ok_inv in H7 as (Lx & sx & Hx & H7).
  apply getint_ok_inv in Hx as (vx & _ & _ & ->).
  apply bind_ok_inv in H7 as (N & sx & Hn & H7).
  apply getint_ok_inv in Hn as (vn & _ & _ & ->).
  unfold for_enumerate in H7. cbn [g_next g_batches g_init register_binary_to_ref] in H7.
  pose proof H7 as H7'.
  apply register_loop_tiffs in H7' as (_ & Hlast & evs & Ho & Hnames); [|exact Hs4].
  cbn [out] in Ho.
  assert (length (batch_ranges (Z.to_nat N) nbatch 0 N) = S k) as Hlen.
  { destruct (batch_ranges (Z.to_nat N) nbatch 0 N) as [|b bs] eqn:Eb.
    - cbn [for_from] in H7. discriminate.
    - destruct Hlast as (y' & Hy'); [done|]. injection Hy' as -> _. cbn [length]. lia. }
  rewrite Hlen in Hnames.
  exists (evs0 ++ PrepareMasks :: evs). split.
  - rewrite Ho, Ho0. by rewrite <- !app_assoc.
  - rewrite tiff_names_app, (tiff_names_none _ Hall0). exact Hnames.
Qed.
End Previews.

Lemma preview_stacks_by_batch_witness :
  ∃ evs,
    out (snd (first_loop probe_kernels VNone true preview_session))
    = out preview_session ++ evs
    ∧ tiff_names evs
      = map (λ i, io.generate_tiff_filename probe_kernels (VInt 1) (VInt 1) (VStr "out") i true)
          (seq 0 3).
Proof.
  refine (preview_stacks_by_batch probe_kernels (VBool true) (VInt 1) (VInt 1) (VStr "out")
            VNone true preview_session _ 2
            (match fst (first_loop probe_kernels VNone true preview_session) with
             | Ok (Some (_, y)) => y
             | _ => BatchYield [] [] [] 0
             end) _ _).
  - vm_compute; reflexivity.
  - vm_compute. repeat split; reflexivity.
Defined.

(** ** A frame cap that leaves too little *)

(** X16. A frame cap other than -1 needs a frame count to cap: without
    'nframes' line 47 raises [KeyError].  With one, a cap that brings the
    count below 50 (a cap of 0, or any negative cap but -1, among them)
    fails the check of line 54, after line 47 has overwritten the count:
    the configuration keeps the reduced count although the call raised. *)
Theorem frame_cap_too_small K refImg raw (s s0 : session) (cap : Z) :
  make_blocks_step K s = (Ok tt, s0) →
  config s0 !! "frames_include" = Some (VInt cap) →
  cap ≠ -1 →
  (config s0 !! "nframes" = None →
   register_dict K refImg raw s = (Raise (KeyError "nframes"), s0))
  ∧ (∀ n, config s0 !! "nframes" = Some (VInt n) → Z.min n cap < 50 →
       ∃ s2,
         register_dict K refImg raw s
         = (Raise (Exception_ "ERROR: the total number of frames should be at least 50 "), s2)
         ∧ config s2 !! "nframes" = Some (VInt (Z.min n cap))
         ∧ out s2 = out s ++ [Print (MsgRegistering (Z.min n cap))]).
Proof.
  intros H0 Hcap Hne.
  assert (py_eq (VInt cap) (VInt (-1)) = Ok false) as Heq.
  { unfold py_eq. simpl. f_equal. by apply Z.eqb_neq. }
  split.
  - intros Hn. unfold register_dict. rewrite (bind_ok _ _ _ _ _ H0).
    apply bind_raise. unfold resolve_nframes.
    rewrite (bind_getitem _ _ _ _ Hcap), Heq, bind_lift_ok. cbn [negb].
    apply bind_raise. unfold getitem. by rewrite Hn.
  - intros n Hn Hlt.
    destruct (make_blocks_same_world K _ _ _ H0) as [_ Ho0].
    eexists. split; [|split].
    + unfold register_dict. rewrite (bind_ok _ _ _ _ _ H0).
      unfold resolve_nframes at 1. rewrite bind_assoc.
      rewrite (bind_getitem _ _ _ _ Hcap). rewrite bind_assoc, Heq, bind_lift_ok.
      cbn [negb]. rewrite bind_assoc, (bind_getitem _ _ _ _ Hn).
      rewrite bind_assoc, (bind_getitem _ _ _ _ Hcap).
      rewrite bind_assoc. cbn [py_min as_int]. rewrite bind_lift_ok, bind_setitem.
      apply bind_raise. unfold check_nframes.
      rewrite (bind_getint "nframes" (VInt (Z.min n cap)) (Z.min n cap))
        by first [apply lookup_insert_eq | reflexivity].
      rewrite bind_print.
      erewrite bind_getitem by (cbn [config]; apply lookup_insert_eq).
      unfold py_lt. cbn [as_int]. rewrite bind_lift_ok.
      destruct (Z.min n cap <? 50) eqn:E; [reflexivity | apply Z.ltb_ge in E; lia].
    + cbn [config]. apply lookup_insert_eq.
    + cbn [out]. by rewrite Ho0.
Qed.

Lemma frame_cap_too_small_witness :
  ∃ s2,
    register_dict probe_kernels VNone true low_cap_session
    = (Raise (Exception_ "ERROR: the total number of frames should be at least 50 "), s2)
    ∧ config s2 !! "nframes" = Some (VInt (Z.min 300 0))
    ∧ out s2 = out low_cap_session ++ [Print (MsgRegistering (Z.min 300 0))].
Proof.
  refine (proj2 (frame_cap_too_small probe_kernels VNone true low_cap_session low_cap_session
                   0 _ _ _) 300 _ _).
  - vm_compute; reflexivity.
  - vm_compute; reflexivity.
  - lia.
  - vm_compute; reflexivity.
  - lia.
Defined.

(** ** The keys of a second channel *)

(** X17. On more than one channel, lines 112-124 read the parameters
    of the shift replicator from the configuration before the second
    loop starts, the block grid among them whether or not the run is
    nonrigid.  So a run that returns found 'bidi_corrected',
    'functional_chan', 'align_by_chan' and 'reg_tif_chan2' on entry, as
    well as 'bidiphase' when the caller gave the reference image, and
    'nblocks', 'xblock' and 'yblock' when the run is rigid. *)
Theorem second_channel_keys_present K refImg raw (s s' : session) (nch : val) :
  register_dict K refImg raw s = (Ok tt, s') →
  config s !! "nchannels" = Some nch →
  py_lt (VInt 1) nch = Ok true →
  Forall (λ k, is_Some (config s !! k))
    ["bidi_corrected"; "functional_chan"; "align_by_chan"; "reg_tif_chan2"]
  ∧ (refImg ≠ VNone → is_Some (config s !! "bidiphase"))
  ∧ (unset "nonrigid" s →
     Forall (λ k, is_Some (config s !! k)) ["nblocks"; "xblock"; "yblock"]).
Proof.
  intros H Hnch Hmulti. phases_of H.
  apply mean_image_step_ok_inv in H8
    as (k & y & v & n & key & -> & _ & _ & Hkey & -> & Hs6).
  pose proof (mean_img_key_returns _ _ _ Hkey) as Hkin.
  assert (config s6 !! "nchannels" = Some nch) as Hnch6
    by (back_through; exact Hnch).
  pose proof H9 as H9'.
  apply second_channel_step_ok_inv in H9' as (nch' & multi & Hnch' & Hmulti' & H9').
  rewrite Hnch6 in Hnch'. injection Hnch' as <-.
  rewrite Hmulti in Hmulti'. injection Hmulti' as <-.
  destruct H9' as (k2 & m2 & sl & fc & ac & same & Halt & Hfc & Hac & _ & _).
  (* the first loop went through a batch, so the second does *)
  unfold register_step, prepare_refAndMasks in H7.
  rewrite bind_assoc, bind_gets, bind_assoc, bind_emit, bind_mret in H7.
  apply bind_ok_inv in H7 as (nbatch & sx & Hb & H7).
  apply getint_ok_inv in Hb as (vb & Hvb & Hnb & ->).
  apply bind_ok_inv in H7 as (Ly & sx & Hy & H7).
  apply getint_ok_inv in Hy as (vy & _ & _ & ->).
  apply bind_ok_inv in H7 as (Lx & sx & Hx & H7).
  apply getint_ok_inv in Hx as (vx & _ & _ & ->).
  apply bind_ok_inv in H7 as (N & sx & Hn & H7).
  apply getint_ok_inv in Hn as (vn & Hvn & HN & ->).
  unfold for_enumerate in H7. cbn [g_next g_batches g_init register_binary_to_ref] in H7.
  apply for_from_bound_inv in H7 as (b & bs' & y0 & st' & sa & sb & Hbs & _ & _).
  cbn [config] in Hvb, Hvn.
  unfold alternate_loop in Halt.
  apply bind_ok_inv in Halt as (nbatch2 & sx & Hb2 & Halt).
  apply getint_ok_inv in Hb2 as (vb2 & Hvb2 & Hnb2 & ->).
  apply bind_ok_inv in Halt as (Ly2 & sx & Hy2 & Halt).
  apply getint_ok_inv in Hy2 as (vy2 & _ & _ & ->).
  apply bind_ok_inv in Halt as (Lx2 & sx & Hx2 & Halt).
  apply getint_ok_inv in Hx2 as (vx2 & _ & _ & ->).
  apply bind_ok_inv in Halt as (N2 & sx & Hn2 & Halt).
  apply getint_ok_inv in Hn2 as (vn2 & Hvn2 & HN2 & ->).
  apply bind_ok_inv in Halt as (vnr & sx & Hg1 & Halt). apply getitem_ok_inv in Hg1 as [_ ->].
  apply bind_ok_inv in Halt as (vbp & sx & Hg2 & Halt). apply getitem_ok_inv in Hg2 as [Hbp ->].
  apply bind_ok_inv in Halt as (vbc & sx & Hg3 & Halt). apply getitem_ok_inv in Hg3 as [Hbc ->].
  apply bind_ok_inv in Halt as (vnb & sx & Hg4 & Halt). apply getitem_ok_inv in Hg4 as [Hnbl ->].
  apply bind_ok_inv in Halt as (vxb & sx & Hg5 & Halt). apply getitem_ok_inv in Hg5 as [Hxb ->].
  apply bind_ok_inv in Halt as (vyb & sx & Hg6 & Halt). apply getitem_ok_inv in Hg6 as [Hyb ->].
  apply bind_ok_inv in Halt as (bound2 & sy & Hloop & _).
  assert (config s6 !! "batch_size" = config s4 !! "batch_size") as Eb
    by (back_through; reflexivity).
  assert (config s6 !! "nframes" = config s4 !! "nframes") as En
    by (back_through; reflexivity).
  rewrite Eb, Hvb in Hvb2. injection Hvb2 as <-. rewrite Hnb in Hnb2. injection Hnb2 as <-.
  rewrite En, Hvn in Hvn2. injection Hvn2 as <-. rewrite HN in HN2. injection HN2 as <-.
  unfold for_enumerate in Hloop.
  cbn [g_next g_batches g_init apply_shifts_to_binary] in Hloop.
  rewrite Hbs in Hloop. cbn [for_from] in Hloop.
  apply bind_ok_inv in Hloop as ([y2 st2] & sc & Hstep2 & Hloop).
  apply bind_ok_inv in Hloop as ([] & sd & Hbody2 & _).
  pose proof (writes_within_nil _ _ (replicator_step_reads _ _ _ _ _ _ _ _ _ _ _ Hstep2)) as Hcc.
  unfold shift_body in Hbody2.
  apply bind_ok_inv in Hbody2 as (tif & sx & Htif & _).
  apply test_ok_inv in Htif as (vtif & Hvtif & _). rewrite Hcc in Hvtif.
  set (early := ["nblocks"; "yblock"; "xblock"; "nframes"; "bidiphase"; "refImg";
                 "meanImg"; "meanImage_chan2"]).
  assert (writes_within early s s6) as W06.
  { transitivity s1; [|transitivity s2; [|transitivity s3; [|transitivity s4;
      [|transitivity s5]]]];
      (eapply writes_within_mono; [|eassumption]); notin_keys. }
  assert (∀ k0 v0, k0 ∉ early → config s6 !! k0 = Some v0 →
                   is_Some (config s !! k0)) as Hback.
  { intros k0 v0 Hk Hv0. exists v0. by rewrite <- (W06 k0 Hk). }
  split; [|split].
  - repeat (apply Forall_cons_2; [eapply Hback; [notin_keys | eassumption]|]).
    apply Forall_nil_2.
  - intros Hne.
    pose proof (reference_given_writes K refImg raw' paths Hne _ _ _ H6) as W6'.
    exists vbp. rewrite <- Hbp. symmetry.
    rewrite (W8 _), (W7 _), (W6' _), (W3 _), (W2 _), (W1 _) by notin_keys. done.
  - intros Hu.
    assert (s1 = s) as ->.
    { unfold make_blocks_step in H1. apply bind_ok_inv in H1 as (nr & sz & Ht & H1).
      pose proof (reads_test _ _ _ _ Ht) as ->.
      rewrite (test_unset _ _ _ _ Hu Ht) in H1. by apply ret_ok_inv in H1 as [_ ->]. }
    apply Forall_cons_2; [|apply Forall_cons_2; [|apply Forall_cons_2; [|apply Forall_nil_2]]].
    + exists vnb. rewrite <- Hnbl. symmetry. back_through. reflexivity.
    + exists vxb. rewrite <- Hxb. symmetry. back_through. reflexivity.
    + exists vyb. rewrite <- Hyb. symmetry. back_through. reflexivity.
Qed.

Lemma second_channel_keys_present_witness :
  Forall (λ k, is_Some (config two_channel_session !! k))
    ["bidi_corrected"; "functional_chan"; "align_by_chan"; "reg_tif_chan2"]
  ∧ (VNone ≠ VNone → is_Some (config two_channel_session !! "bidiphase"))
  ∧ (unset "nonrigid" two_channel_session →
     Forall (λ k, is_Some (config two_channel_session !! k)) ["nblocks"; "xblock"; "yblock"]).
Proof.
  apply (second_channel_keys_present probe_kernels VNone true two_channel_session
           (snd (register_dict probe_kernels VNone true two_channel_session)) (VInt 2)).
  - vm_compute; reflexivity.
  - vm_compute; reflexivity.
  - reflexivity.
Defined.

(** ** Progress lines *)

Lemma progress_totals_app evs1 evs2 :
  progress_totals (evs1 ++ evs2) = progress_totals evs1 ++ progress_totals evs2.
Proof. apply omap_app. Qed.

Lemma progress_totals_none evs :
  Forall (λ e, ¬ is_progress_event e) evs → progress_totals evs = [].
Proof.
  induction 1 as [|e evs He _ IH]; [done|].
  unfold progress_totals in *. cbn [omap list_omap]. rewrite IH.
  destruct e as [m| | | | | |]; try done. destruct m; try done.
Qed.

Lemma engine_step_reports_nothing K px masks reg raw st b :
  preserves (emits_only (λ e, ¬ is_progress_event e)) (engine_step K px masks reg raw st b).
Proof. unfold engine_step. quiet_emits. Qed.

Lemma for_from_last_index {St B Y} (next : St → B → M session (Y * St))
    (body : nat → Y → M session unit) bs :
  ∀ k st bound s r s',
    for_from next body bs k st bound s = (Ok r, s') →
    bs ≠ [] → ∃ y, r = Some ((k + length bs - 1)%nat, y).
Proof.
  induction bs as [|b bs IH]; intros k st bound s r s' H Hne; [done|].
  cbn [for_from] in H.
  apply bind_ok_inv in H as ([y0 st'] & sa & _ & H).
  apply bind_ok_inv in H as ([] & sb & _ & H).
  destruct bs as [|b' bs'].
  - cbn [for_from] in H. apply ret_ok_inv in H as [-> _].
    exists y0. cbn [length]. do 2 f_equal. lia.
  - destruct (IH _ _ _ _ _ _ H) as (y & ->); [done|].
    exists y. cbn [length]. do 2 f_equal. lia.
Qed.

Section Progress.
Context (K : kernels) (n : Z).

Lemma register_body_progress k y s s' :
  config s !! "nframes" = Some (VInt n) →
  register_body K k y s = (Ok tt, s') →
  config s' = config s
  ∧ ∃ evs, out s' = out s ++ evs
           ∧ progress_totals evs = (if (k mod 5 =? 0)%nat then [n] else []).
Proof.
  intros Hn H. unfold register_body in H.
  apply bind_ok_inv in H as (tif & s0 & Ht & H).
  pose proof (reads_test _ _ _ _ Ht) as ->.
  apply bind_ok_inv in H as ([] & s1 & Hsave & H).
  assert (config s1 = config s
          ∧ ∃ evs1, out s1 = out s ++ evs1 ∧ progress_totals evs1 = []) as (Hc1 & evs1 & Ho1 & Hp1).
  { destruct tif.
    - apply bind_ok_inv in Hsave as (fc & s0 & Hg & Hsave). apply getitem_ok_inv in Hg as [_ ->].
      apply bind_ok_inv in Hsave as (ac & s0 & Hg & Hsave). apply getitem_ok_inv in Hg as [_ ->].
      apply bind_ok_inv in Hsave as (sp & s0 & Hg & Hsave). apply getitem_ok_inv in Hg as [_ ->].
      apply emit_ok_inv in Hsave as ->. split; [done|]. eexists. split; [done|]. reflexivity.
    - apply ret_ok_inv in Hsave as [_ ->]. split; [done|]. exists []. by rewrite app_nil_r. }
  destruct (k mod 5 =? 0)%nat.
  - rewrite (bind_getint _ _ _ _ _ (eq_trans (f_equal (λ c, c !! "nframes") Hc1) Hn) eq_refl) in H.
    apply emit_ok_inv in H as ->. cbn [config out]. split; [done|].
    exists (evs1 ++ [Print (MsgProgress (y_nfr y) n)]). split.
    + by rewrite Ho1, <- app_assoc.
    + by rewrite progress_totals_app, Hp1.
  - apply ret_ok_inv in H as [_ ->]. split; [done|]. by exists evs1.
Qed.

Lemma register_loop_progress px masks reg raw bs :
  ∀ k st bound s r s',
    config s !! "nframes" = Some (VInt n) →
    for_from (engine_step K px masks reg raw) (register_body K) bs k st bound s = (Ok r, s') →
    config s' = config s
    ∧ ∃ evs, out s' = out s ++ evs
             ∧ progress_totals evs
               = map (λ _, n) (filter (λ i, (i mod 5 = 0)%nat) (seq k (length bs))).
Proof.
  induction bs as [|b bs IH]; intros k st bound s r s' Hn H; cbn [for_from] in H.
  - apply ret_ok_inv in H as [_ ->]. split; [done|]. exists []. by rewrite app_nil_r.
  - apply bind_ok_inv in H as ([y0 st'] & sa & Hstep & H).
    apply bind_ok_inv in H as ([] & sb & Hbody & H).
    pose proof (writes_within_nil _ _ (keeps_config_engine_step _ _ _ _ _ _ _ _ _ _ Hstep))
      as Hca.
    destruct (engine_step_reports_nothing _ _ _ _ _ _ _ _ _ _ Hstep) as (evs1 & Ho1 & Hall1).
    assert (config sa !! "nframes" = Some (VInt n)) as Hna by (by rewrite Hca).
    destruct (register_body_progress _ _ _ _ Hna Hbody) as (Hcb & evs2 & Ho2 & Hn2).
    assert (config sb !! "nframes" = Some (VInt n)) as Hnb by (by rewrite Hcb).
    destruct (IH _ _ _ _ _ _ Hnb H) as (Hc' & evs3 & Ho3 & Hn3).
    split; [congruence|].
    exists (evs1 ++ evs2 ++ evs3). split.
    + rewrite Ho3, Ho2, Ho1. by rewrite <- !app_assoc.
    + rewrite !progress_totals_app, Hn2, Hn3.
      rewrite (progress_totals_none _ Hall1).
      cbn [length seq app]. rewrite filter_cons.
      destruct (Nat.eqb_spec (k mod 5) 0) as [E|E].
      * by rewrite decide_True.
      * by rewrite decide_False.
Qed.

(** X18. The first loop reports its progress after the batches whose
    [enumerate] index is a multiple of five, and after no other: when
    it ends with its index at [k], the trace holds one progress line
    for each multiple of five from 0 to [k], every one of them with the
    resolved frame count as its total. *)
Theorem progress_every_fifth_batch refImg raw (s s5 : session) (k : nat) (y : batch_yield) :
  first_loop K refImg raw s = (Ok (Some (k, y)), s5) →
  config s5 !! "nframes" = Some (VInt n) →
  ∃ evs, out s5 = out s ++ evs
         ∧ progress_totals evs
           = map (λ _, n) (filter (λ i, (i mod 5 = 0)%nat) (seq 0 (S k))).
Proof.
  intros H Hn5. unfold first_loop in H.
  apply bind_ok_inv in H as ([] & s1 & H1 & H).
  apply bind_ok_inv in H as ([] & s2 & H2 & H).
  apply bind_ok_inv in H as ([] & s3 & H3 & H).
  apply bind_ok_inv in H as (raw' & s3' & H4 & H).
  pose proof (reads_resolve_raw _ _ _ _ H4) as ->.
  apply bind_ok_inv in H as (paths & s3' & H5 & H).
  pose proof (reads_bin_paths _ _ _ _ _ H5) as ->.
  apply bind_ok_inv in H as (ref & s4 & H6 & H7).
  pose proof (register_step_writes _ _ _ _ _ _ H7) as W7.
  assert (config s4 !! "nframes" = Some (VInt n)) as Hn4.
  { rewrite <- Hn5. symmetry. apply W7. apply not_elem_of_nil. }
  pose proof (make_blocks_silent _ (λ e, ¬ is_progress_event e) _ _ _ H1) as E1.
  pose proof (resolve_nframes_silent (λ e, ¬ is_progress_event e) _ _ _ H2) as E2.
  assert (emits_only (λ e, ¬ is_progress_event e) s2 s3) as E3
    by (refine (emits_only_mono _ _ _ _ _ (check_nframes_stage _ _ _ H3)); classify).
  assert (emits_only (λ e, ¬ is_progress_event e) s3 s4) as E6
    by (refine (emits_only_mono _ _ _ _ _ (reference_stage _ _ _ _ _ _ _ H6)); classify).
  assert (emits_only (λ e, ¬ is_progress_event e) s s4) as (evs0 & Ho0 & Hall0) by emits_chain.
  unfold register_step, prepare_refAndMasks in H7.
  rewrite bind_assoc, bind_gets, bind_assoc, bind_emit, bind_mret in H7.
  apply bind_ok_inv in H7 as (nbatch & sx & Hb & H7).
  apply getint_ok_inv in Hb as (vb & _ & _ & ->).
  apply bind_ok_inv in H7 as (Ly & sx & Hy & H7).
  apply getint_ok_inv in Hy as (vy & _ & _ & ->).
  apply bind_ok_inv in H7 as (Lx & sx & Hx & H7).
  apply getint_ok_inv in Hx as (vx & _ & _ & ->).
  apply bind_ok_inv in H7 as (N & sx & HN & H7).
  apply getint_ok_inv in HN as (vn & _ & _ & ->).
  unfold for_enumerate in H7. cbn [g_next g_batches g_init register_binary_to_ref] in H7.
  assert (length (batch_ranges (Z.to_nat N) nbatch 0 N) = S k) as Hlen.
  { destruct (batch_ranges (Z.to_nat N) nbatch 0 N) as [|b bs] eqn:Eb.
    - cbn [for_from] in H7. discriminate.
    - destruct (for_from_last_index _ _ _ _ _ _ _ _ _ H7) as (y' & Hy'); [done|].
      injection Hy' as -> _. cbn [length]. lia. }
  apply register_loop_progress in H7 as (_ & evs & Ho & Hp); [|exact Hn4].
  cbn [out] in Ho. rewrite Hlen in Hp.
  exists (evs0 ++ PrepareMasks :: evs). split.
  - rewrite Ho, Ho0. by rewrite <- !app_assoc.
  - rewrite progress_totals_app.
    rewrite (progress_totals_none _ Hall0). exact Hp.
Qed.
End Progress.

Lemma progress_every_fifth_batch_witness :
  ∃ evs,
    out (snd (first_loop probe_kernels VNone true long_session))
    = out long_session ++ evs
    ∧ progress_totals evs
      = map (λ _, 200) (filter (λ i, (i mod 5 = 0)%nat) (seq 0 10)).
Proof.
  refine (progress_every_fifth_batch probe_kernels 200 VNone true long_session _ 9
            (match fst (first_loop probe_kernels VNone true long_session) with
             | Ok (Some (_, y)) => y
             | _ => BatchYield [] [] [] 0
             end) _ _).
  - vm_compute; reflexivity.
  - vm_compute; reflexivity.
Defined.
